(** * goleveldb-s: the file storage of package [storage]

    A shallow embedding of [storage.go], of the file storage
    ([fileStorage], [fileWrap] and their helpers) and of
    [file_storage_unix.go], followed by the properties of the storage
    specification, proved or refuted on the embedding.

    The model.
    - Go's [int64] and [int] are [Z].  The count of open files and the
      size of the log wrap around as 64-bit integers do ([wrap64]); a
      [FileDesc.Num] that comes from outside is assumed in the range
      [int64].
    - A Go [string] is a Rocq [string], a sequence of bytes.  Package
      [fmt] scans runes: [runes] decodes a byte string as
      [utf8.DecodeRuneInString] does and the scanner works on the runes.
      [fmt.Sscanf], [fmt.Sprintf], [strconv.ParseInt] and the calls of
      package [os] are modelled after the Go standard library (Go 1.20,
      the version the repository builds with), to the extent the storage
      uses them.
    - The storage directory is a finite map from entry names to regular
      files and sub-directories.  System calls fail as the content of the
      directory makes them fail (a missing entry, a directory where a
      file is expected, a lock held); faults of the device are outside
      the model.
    - Every method runs under the mutex of the storage: a method is a
      function from the state before it to its result and the state after
      it, and [time.Now] reads a list of clock readings kept in the
      world.
    - The text of a message of the operational log depends on two
      renderings of package [fmt] that are left as parameters: [%q] of a
      byte string and [%v] of an error. *)

From Stdlib Require Import ZArith Lia Ascii String.
From stdpp Require Import gmap strings list fin_maps.

Local Open Scope Z_scope.

(* ===================================================================== *)
(** ** Bytes, runes and decimal numbers                                   *)
(* ===================================================================== *)

Definition byteZ (c : ascii) : Z := Z.of_N (N_of_ascii c).

Definition bytes (s : string) : list Z := byteZ <$> list_ascii_of_string s.

Definition chr (z : Z) : ascii := ascii_of_N (Z.to_N z).

Definition str (l : list Z) : string := string_of_list_ascii (chr <$> l).

(** [utf8.RuneError] *)
Definition RuneError : Z := 65533.

Definition inRange (lo hi x : Z) : bool := (lo <=? x) && (x <=? hi).

(** Continuation byte of a multi-byte sequence ([locb], [hicb]). *)
Definition isCont (b : Z) : bool := inRange 128 191 b.

(** The [first] table of package [utf8] together with [acceptRanges]: for a
    lead byte, the length of the sequence and the range accepted for its
    second byte.  [None] is the table's [xx] (invalid lead byte); ASCII is
    handled before the table is consulted. *)
Definition utf8First (b : Z) : option (nat * Z * Z) :=
  if inRange 194 223 b then Some (2%nat, 128, 191)
  else if b =? 224 then Some (3%nat, 160, 191)
  else if inRange 225 236 b then Some (3%nat, 128, 191)
  else if b =? 237 then Some (3%nat, 128, 159)
  else if inRange 238 239 b then Some (3%nat, 128, 191)
  else if b =? 240 then Some (4%nat, 144, 191)
  else if inRange 241 243 b then Some (4%nat, 128, 191)
  else if b =? 244 then Some (4%nat, 128, 143)
  else None.

(** The rune sequence read from a byte string: every step is one
    [utf8.DecodeRuneInString]; an invalid or truncated sequence yields
    [RuneError] and consumes one byte. *)
Fixpoint runes (s : string) : list Z :=
  match s with
  | EmptyString => []
  | String c0 s1 =>
      let b0 := byteZ c0 in
      if b0 <? 128 then b0 :: runes s1
      else
        match utf8First b0 with
        | None => RuneError :: runes s1
        | Some (sz, lo, hi) =>
            match s1 with
            | EmptyString => RuneError :: runes s1
            | String c1 s2 =>
                let b1 := byteZ c1 in
                if negb (inRange lo hi b1) then RuneError :: runes s1
                else if (sz <=? 2)%nat then
                  Z.lor (Z.shiftl (Z.land b0 31) 6) (Z.land b1 63) :: runes s2
                else
                  match s2 with
                  | EmptyString => RuneError :: runes s1
                  | String c2 s3 =>
                      let b2 := byteZ c2 in
                      if negb (isCont b2) then RuneError :: runes s1
                      else if (sz <=? 3)%nat then
                        Z.lor (Z.lor (Z.shiftl (Z.land b0 15) 12)
                                     (Z.shiftl (Z.land b1 63) 6))
                              (Z.land b2 63) :: runes s3
                      else
                        match s3 with
                        | EmptyString => RuneError :: runes s1
                        | String c3 s4 =>
                            let b3 := byteZ c3 in
                            if negb (isCont b3) then RuneError :: runes s1
                            else
                              Z.lor (Z.lor (Z.lor (Z.shiftl (Z.land b0 7) 18)
                                                  (Z.shiftl (Z.land b1 63) 12))
                                           (Z.shiftl (Z.land b2 63) 6))
                                    (Z.land b3 63) :: runes s4
                        end
                  end
            end
        end
  end.

(** The [space] table of [fmt/scan.go]. *)
Definition isSpace (r : Z) : bool :=
  if 65536 <=? r then false
  else inRange 9 13 r || (r =? 32) || (r =? 133) || (r =? 160)
       || (r =? 5760) || inRange 8192 8202 r || inRange 8232 8233 r
       || (r =? 8239) || (r =? 8287) || (r =? 12288).

Definition isDigit (r : Z) : bool := inRange 48 57 r.

Definition isSign (r : Z) : bool := (r =? 43) || (r =? 45).

Definition int64 (z : Z) : Prop := - 2 ^ 63 <= z < 2 ^ 63.

Definition int64b (z : Z) : bool := (- 2 ^ 63 <=? z) && (z <? 2 ^ 63).

(** Value of a run of decimal digits, most significant first. *)
Definition digitsVal (ds : list Z) : Z :=
  fold_left (fun acc d => 10 * acc + (d - 48)) ds 0.

(** [strconv.ParseInt(s, 10, 64)] on the bytes of [s]: an optional sign,
    then at least one digit and nothing but digits; [None] is a syntax or
    a range error. *)
Definition ParseInt (s : list Z) : option Z :=
  let '(neg, ds) :=
    match s with
    | c :: rest => if c =? 43 then (false, rest)
                   else if c =? 45 then (true, rest)
                   else (false, s)
    | [] => (false, s)
    end in
  match ds with
  | [] => None
  | _ =>
      if forallb isDigit ds then
        let v := if neg then - digitsVal ds else digitsVal ds in
        if int64b v then Some v else None
      else None
  end.

(** The digit loop of [fmt.fmtInteger], least significant digit first in
    the source's buffer; [fuel] is the room in that buffer (20 digits hold
    every [uint64]). *)
Fixpoint fmtDigits (fuel : nat) (u : Z) : list Z :=
  match fuel with
  | O => []
  | S f => if u <? 10 then [48 + u] else fmtDigits f (u / 10) ++ [48 + u mod 10]
  end.

(** [fmt.Sprintf] of one integer under [%0<wid>d] ([wid = 0] is plain
    [%d]): zero padding on the left up to the width, one column of it left
    for the sign of a negative number. *)
Definition fmtInteger (wid : nat) (n : Z) : list Z :=
  let negative := n <? 0 in
  let ds := fmtDigits 20 (Z.abs n) in
  let prec := if negative then (wid - 1)%nat else wid in
  let padded := replicate (prec - length ds) 48 ++ ds in
  if negative then 45 :: padded else padded.

(* ===================================================================== *)
(** ** The scanner of package [fmt], as [fmt.Sscanf] drives it            *)
(* ===================================================================== *)

(** The errors a scan can end with ([scanError] panics recovered by
    [errorHandler], and [io.EOF]). *)
Inductive scanErr :=
| ScanEOF              (* io.EOF, from notEOF *)
| ScanUnexpectedEOF    (* io.ErrUnexpectedEOF, from mustReadRune *)
| ScanNewline          (* "unexpected newline" *)
| ScanNoMatch          (* "input does not match format" *)
| ScanExpectedInteger  (* "expected integer" *)
| ScanParseInt.        (* the error of strconv.ParseInt *)

(** [ss.peek("\n")] *)
Definition peekNewline (rs : list Z) : bool :=
  match rs with
  | r :: _ => r =? 10
  | [] => false
  end.

(** [ss.SkipSpace] with [nlIsSpace = false], as [Sscanf] sets it: blanks are
    skipped, a newline is an error. *)
Fixpoint SkipSpace (rs : list Z) : scanErr + list Z :=
  match rs with
  | [] => inr []
  | r :: rest =>
      if (r =? 13) && peekNewline rest then SkipSpace rest
      else if r =? 10 then inl ScanNewline
      else if isSpace r then SkipSpace rest
      else inr rs
  end.

(** The loop [for s.accept(ok) {}]: the longest prefix of runes in the
    class, and what follows it. *)
Fixpoint acceptWhile (ok : Z -> bool) (rs : list Z) : list Z * list Z :=
  match rs with
  | r :: rest =>
      if ok r then let '(tok, rs') := acceptWhile ok rest in (r :: tok, rs')
      else ([], rs)
  | [] => ([], [])
  end.

(** [ss.scanInt('d', 64)]: the token is an optional sign and the digits
    that follow; its value is [strconv.ParseInt]'s. *)
Definition scanInt (rs : list Z) : scanErr + (Z * list Z) :=
  match SkipSpace rs with
  | inl e => inl e
  | inr [] => inl ScanEOF
  | inr ((r :: rest) as rs1) =>
      let '(sgn, rs2) := if isSign r then ([r], rest) else ([], rs1) in
      match rs2 with
      | [] => inl ScanEOF
      | d :: _ =>
          if isDigit d then
            let '(ds, rs3) := acceptWhile isDigit rs2 in
            match ParseInt (sgn ++ ds) with
            | Some i => inr (i, rs3)
            | None => inl ScanParseInt
            end
          else inl ScanExpectedInteger
      end
  end.

(** [ss.convertString('s')]: the next word, that is [ss.token(true,
    notSpace)]; the word is kept as the runes read. *)
Definition convertString (rs : list Z) : scanErr + (list Z * list Z) :=
  match SkipSpace rs with
  | inl e => inl e
  | inr [] => inl ScanEOF
  | inr rs1 =>
      match SkipSpace rs1 with
      | inl e => inl e
      | inr rs2 => inr (acceptWhile (fun r => negb (isSpace r)) rs2)
      end
  end.

(** A format string, cut into the literal runes and the two verbs that the
    source uses. *)
Inductive directive :=
| Lit (r : Z)
| VerbD
| VerbS.

(** What a verb stores through its operand. *)
Inductive scanVal :=
| ValInt (i : Z)
| ValStr (word : list Z).

(** [ss.doScanf]: [vals] are the operands stored so far, in order, so that
    [numProcessed] is their number; a failing directive stops the scan and
    leaves the operands after it untouched. *)
Fixpoint doScanf (fmt : list directive) (rs : list Z) (vals : list scanVal)
  : list scanVal * option scanErr :=
  match fmt with
  | [] => (vals, None)
  | Lit c :: fmt' =>
      match rs with
      | [] => (vals, Some ScanUnexpectedEOF)
      | r :: rs' => if r =? c then doScanf fmt' rs' vals
                    else (vals, Some ScanNoMatch)
      end
  | VerbD :: fmt' =>
      match SkipSpace rs with
      | inl e => (vals, Some e)
      | inr rs1 =>
          match scanInt rs1 with
          | inl e => (vals, Some e)
          | inr (i, rs2) => doScanf fmt' rs2 (vals ++ [ValInt i])
          end
      end
  | VerbS :: fmt' =>
      match SkipSpace rs with
      | inl e => (vals, Some e)
      | inr rs1 =>
          match convertString rs1 with
          | inl e => (vals, Some e)
          | inr (w, rs2) => doScanf fmt' rs2 (vals ++ [ValStr w])
          end
      end
  end.

(** [hugeWid]: the scanner's [limit]; [ss.ReadRune] reports the end of the
    input once that many runes were read. *)
Definition hugeWid : N := 2 ^ 30.

Fixpoint takeN (rs : list Z) (n : N) : list Z :=
  match rs with
  | [] => []
  | r :: rest => if (n =? 0)%N then [] else r :: takeN rest (N.pred n)
  end.

(** The runes of [s] that the scanner gets to read. *)
Definition scanned (s : string) : list Z := takeN (runes s) hugeWid.

(** [fmt.Sscanf(s, format, ...)]: the operands stored and the error. *)
Definition Sscanf (s : string) (fmt : list directive)
  : list scanVal * option scanErr :=
  doScanf fmt (scanned s) [].

(** ["%d.%s"] *)
Definition fmtNumTail : list directive := [VerbD; Lit 46; VerbS].

(** ["MANIFEST-%d%s"] *)
Definition fmtManifest : list directive :=
  (Lit <$> bytes "MANIFEST-") ++ [VerbD; VerbS].

(* ===================================================================== *)
(** ** storage.go: file types and descriptors                             *)
(* ===================================================================== *)

Definition TypeManifest : Z := 1.
Definition TypeJournal : Z := 2.
Definition TypeTable : Z := 4.
Definition TypeTemp : Z := 8.
Definition TypeAll : Z :=
  Z.lor (Z.lor (Z.lor TypeManifest TypeJournal) TypeTable) TypeTemp.

(** [FileDesc]; the field [Type] of the source is [Type_] here. *)
Record FileDesc := mkFileDesc { Type_ : Z; Num : Z }.

Global Instance FileDesc_eq_dec : EqDecision FileDesc.
Proof. solve_decision. Defined.

Definition fdZero : FileDesc := mkFileDesc 0 0.

Definition FileDescOk (fd : FileDesc) : bool :=
  if (Type_ fd =? TypeManifest) || (Type_ fd =? TypeJournal)
     || (Type_ fd =? TypeTable) || (Type_ fd =? TypeTemp)
  then 0 <=? Num fd
  else false.

(* ===================================================================== *)
(** ** File names                                                         *)
(* ===================================================================== *)

(** [fmt.Sprintf("%06d", n)] *)
Definition pad6 (n : Z) : string := str (fmtInteger 6 n).

(** [fsGenName]; [None] is the panic on an invalid file type. *)
Definition fsGenName (fd : FileDesc) : option string :=
  if Type_ fd =? TypeManifest then Some ("MANIFEST-" +:+ pad6 (Num fd))
  else if Type_ fd =? TypeJournal then Some (pad6 (Num fd) +:+ ".log")
  else if Type_ fd =? TypeTable then Some (pad6 (Num fd) +:+ ".ldb")
  else if Type_ fd =? TypeTemp then Some (pad6 (Num fd) +:+ ".tmp")
  else None.

Definition fsHasOldName (fd : FileDesc) : bool := Type_ fd =? TypeTable.

Definition fsGenOldName (fd : FileDesc) : option string :=
  if Type_ fd =? TypeTable then Some (pad6 (Num fd) +:+ ".sst")
  else fsGenName fd.

(** The operand [&fd.Num] after a scan: the first operand if the scan
    stored it, the old value otherwise. *)
Definition storedNum (vals : list scanVal) (old : Z) : Z :=
  match vals !! 0%nat with
  | Some (ValInt i) => i
  | _ => old
  end.

(** The operand [&tail] after a scan. *)
Definition storedTail (vals : list scanVal) (old : list Z) : list Z :=
  match vals !! 1%nat with
  | Some (ValStr w) => w
  | _ => old
  end.

Definition wordIs (w : list Z) (s : string) : bool := bool_decide (w = bytes s).

(** [fsParseName].  Both scans store through [&fd.Num], so a number read by
    a scan that fails later stays in the descriptor returned with
    [ok = false]. *)
Definition fsParseName (name : string) : FileDesc * bool :=
  let '(vals1, err1) := Sscanf name fmtNumTail in
  let num1 := storedNum vals1 0 in
  let tail := storedTail vals1 [] in
  match err1 with
  | None =>
      if wordIs tail "log" then (mkFileDesc TypeJournal num1, true)
      else if wordIs tail "ldb" || wordIs tail "sst"
      then (mkFileDesc TypeTable num1, true)
      else if wordIs tail "tmp" then (mkFileDesc TypeTemp num1, true)
      else (mkFileDesc 0 num1, false)
  | Some _ =>
      let '(vals2, _) := Sscanf name fmtManifest in
      let num2 := storedNum vals2 num1 in
      if (length vals2 =? 1)%nat then (mkFileDesc TypeManifest num2, true)
      else (mkFileDesc 0 num2, false)
  end.

(** [fsParseNamePtr] with a non-nil pointer: the descriptor written through
    the pointer and the flag. *)
Definition fsParseNamePtr (name : string) : FileDesc * bool := fsParseName name.


(* ===================================================================== *)
(** ** The names of the specification, and the names the parser takes     *)
(* ===================================================================== *)

Definition stripPrefix (p bs : list Z) : option (list Z) :=
  if bool_decide (take (length p) bs = p) then Some (drop (length p) bs)
  else None.

(** The parsing rules in the specification's words: [<digits>.<suffix>]
    with a suffix among [log], [ldb], [sst], [tmp] and digits that fit a
    signed 64-bit integer, or [MANIFEST-<digits>]; nothing else. *)
Definition specIdentifier (name : string) : bool :=
  let bs := bytes name in
  let '(ds, rest) := acceptWhile isDigit bs in
  (negb (bool_decide (ds = [])) && int64b (digitsVal ds)
   && bool_decide (rest ∈ [bytes ".log"; bytes ".ldb"; bytes ".sst"; bytes ".tmp"]))
  || match stripPrefix (bytes "MANIFEST-") bs with
     | Some ds' => negb (bool_decide (ds' = [])) && forallb isDigit ds'
     | None => false
     end.

(** A space the scanner skips: any space but the newline. *)
Definition isBlank (r : Z) : bool := isSpace r && negb (r =? 10).

(** The token of [%d]: an optional sign, then digits. *)
Definition signTok (sg : list Z) : Prop := sg = [] \/ sg = [43] \/ sg = [45].

Definition signedVal (sg ds : list Z) : Z :=
  if bool_decide (sg = [45]) then - digitsVal ds else digitsVal ds.

Definition suffixKind (w : list Z) : option Z :=
  if wordIs w "log" then Some TypeJournal
  else if wordIs w "ldb" || wordIs w "sst" then Some TypeTable
  else if wordIs w "tmp" then Some TypeTemp
  else None.

Definition endsOrSpace (rs : list Z) : Prop :=
  match rs with
  | [] => True
  | r :: _ => isSpace r = true
  end.

Definition endsOrNewline (rs : list Z) : Prop :=
  match rs with
  | [] => True
  | r :: _ => r = 10
  end.

(** The rune sequences [fsParseName] takes for an identifier, and the
    identifier it takes them for.  Blanks may precede the number and the
    suffix, the number may carry a sign, and whatever follows a space after
    the suffix is ignored; after the number of a manifest only blanks may
    follow, up to the end or a newline. *)
Inductive parsesTo : list Z -> FileDesc -> Prop :=
| parses_numbered sp1 sg ds sp2 suf rest ty :
    Forall (fun r => isBlank r = true) sp1 ->
    signTok sg ->
    ds <> [] -> Forall (fun d => isDigit d = true) ds ->
    int64 (signedVal sg ds) ->
    Forall (fun r => isBlank r = true) sp2 ->
    suffixKind suf = Some ty ->
    endsOrSpace rest ->
    parsesTo (sp1 ++ sg ++ ds ++ 46 :: sp2 ++ suf ++ rest)
             (mkFileDesc ty (signedVal sg ds))
| parses_manifest sp1 sg ds sp2 rest :
    Forall (fun r => isBlank r = true) sp1 ->
    signTok sg ->
    ds <> [] -> Forall (fun d => isDigit d = true) ds ->
    int64 (signedVal sg ds) ->
    Forall (fun r => isBlank r = true) sp2 ->
    endsOrNewline rest ->
    parsesTo (bytes "MANIFEST-" ++ sp1 ++ sg ++ ds ++ sp2 ++ rest)
             (mkFileDesc TypeManifest (signedVal sg ds)).

(* ===================================================================== *)
(** ** Errors                                                             *)
(* ===================================================================== *)

Inductive errno := ENOENT | EISDIR | ENOTDIR | EEXIST | ENOTEMPTY | EAGAIN.

(** The error values the storage returns.  [ErrCorrupted] values are
    separate allocations in the source, all with a zero [Fd] and the same
    inner text; [origin], the name of the pointer file whose content the
    value reports, stands for the identity of the allocation. *)
Inductive error :=
| ErrInvalidFile
| ErrLocked
| ErrClosed
| errReadOnly
| ErrNotExist                                  (* os.ErrNotExist *)
| ErrCorrupted (origin : string)               (* *ErrCorrupted *)
| PathError (path : string) (e : errno)        (* *os.PathError *)
| LinkError (old new : string) (e : errno)     (* *os.LinkError, of os.Rename *)
| Errno (e : errno)                            (* syscall.Errno, of syscall.Flock *)
| ErrNotDirectory                              (* "open ...: not a directory" *)
| ErrFileClosed                                (* os.ErrClosed, of a closed os.File *)
| Panic.                                       (* fsGenName on an invalid type *)

Global Instance errno_eq_dec : EqDecision errno.
Proof. solve_decision. Defined.

Global Instance error_eq_dec : EqDecision error.
Proof. solve_decision. Defined.

(** [os.IsNotExist] *)
Definition IsNotExist (e : error) : bool :=
  match e with
  | ErrNotExist => true
  | PathError _ ENOENT => true
  | LinkError _ _ ENOENT => true
  | Errno ENOENT => true
  | _ => false
  end.

Definition isCorrupted (e : error) : bool :=
  match e with
  | ErrCorrupted _ => true
  | _ => false
  end.

(* ===================================================================== *)
(** ** The directory, the advisory lock and the clock                     *)
(* ===================================================================== *)

(** A directory entry: a regular file with its bytes, or a sub-directory
    (empty or not). *)
Inductive node :=
| File (content : string)
| Dir (empty : bool).

Global Instance node_eq_dec : EqDecision node.
Proof. solve_decision. Defined.

(** The [flock] state of the [LOCK] file, over all holders. *)
Inductive lockState :=
| Unlocked
| LockedShared (others : nat)   (* [S others] holders of a shared lock *)
| LockedExclusive.

(** What the source reads off a [time.Time]. *)
Record Time := mkTime {
  tDay : Z;            (* t.Day() *)
  tBanner : string;    (* t.Format("Jan 2, 2006 (MST)") *)
  tHour : Z; tMin : Z; tSec : Z;   (* t.Clock() *)
  tNano : Z            (* t.Nanosecond() *)
}.

Definition time0 : Time := mkTime 1 "Jan 1, 1970 (UTC)" 0 0 0 0.

(** The system calls that change the directory, as they succeed. *)
Inductive syscall :=
| SysMkdir
| SysCreate (name : string)                 (* open with O_CREATE made or emptied a file *)
| SysWrite (name : string) (data : string)
| SysRename (old new : string)
| SysRemove (name : string).

(** The world outside the process: the entries of the storage directory,
    the lock on [LOCK], the readings [time.Now] will give, and the calls
    that changed the directory so far, latest first. *)
Record World := mkWorld {
  files : gmap string node;
  flock : lockState;
  clock : list Time;
  trace : list syscall
}.

Definition setFiles (f : gmap string node) (w : World) : World :=
  mkWorld f (flock w) (clock w) (trace w).

Definition setFlock (l : lockState) (w : World) : World :=
  mkWorld (files w) l (clock w) (trace w).

Definition emit (c : syscall) (w : World) : World :=
  mkWorld (files w) (flock w) (clock w) (c :: trace w).

(** [time.Now()] *)
Definition now (w : World) : Time * World :=
  (hd time0 (clock w), mkWorld (files w) (flock w) (tl (clock w)) (trace w)).

(** [os.Stat] of an entry of the directory. *)
Definition osStat (name : string) (w : World) : error + node :=
  match files w !! name with
  | Some n => inr n
  | None => inl (PathError name ENOENT)
  end.

(** [os.ReadFile] *)
Definition osReadFile (name : string) (w : World) : error + string :=
  match files w !! name with
  | Some (File content) => inr content
  | Some (Dir _) => inl (PathError name EISDIR)
  | None => inl (PathError name ENOENT)
  end.

(** [os.OpenFile(name, O_RDONLY, 0)]: a directory opens too. *)
Definition osOpenRead (name : string) (w : World) : option error :=
  match files w !! name with
  | Some _ => None
  | None => Some (PathError name ENOENT)
  end.

(** [os.OpenFile(name, O_WRONLY|O_CREATE|O_TRUNC, 0644)] *)
Definition osCreateTrunc (name : string) (w : World) : option error * World :=
  match files w !! name with
  | Some (Dir _) => (Some (PathError name EISDIR), w)
  | _ => (None, emit (SysCreate name) (setFiles (<[name := File ""]> (files w)) w))
  end.

(** [os.OpenFile(name, O_WRONLY|O_CREATE, 0644)]: the size of the file
    opened, which is made empty if it was absent. *)
Definition osOpenWrite (name : string) (w : World) : (error + nat) * World :=
  match files w !! name with
  | Some (Dir _) => (inl (PathError name EISDIR), w)
  | Some (File content) => (inr (String.length content), w)
  | None => (inr 0%nat,
             emit (SysCreate name) (setFiles (<[name := File ""]> (files w)) w))
  end.

Definition takeStr (n : nat) (s : string) : string := substring 0 n s.

Definition dropStr (n : nat) (s : string) : string :=
  substring n (String.length s - n) s.

(** [f.Write(data)] at offset [off] of the open file that [name] names;
    the bytes between the end of a shorter file and the offset are zero.
    A name that no longer leads to a regular file leaves the directory as
    it is. *)
Definition osWriteAt (name : string) (off : nat) (data : string) (w : World)
  : World :=
  match files w !! name with
  | Some (File content) =>
      let pad := string_of_list_ascii
                   (replicate (off - String.length content) zero) in
      let content' := takeStr off content +:+ pad +:+ data
                      +:+ dropStr (off + String.length data) content in
      emit (SysWrite name data) (setFiles (<[name := File content']> (files w)) w)
  | _ => w
  end.

(** [writeFileSynced(filename, data, 0644)] *)
Definition writeFileSynced (name : string) (data : string) (w : World)
  : option error * World :=
  match osCreateTrunc name w with
  | (Some e, w1) => (Some e, w1)
  | (None, w1) => (None, osWriteAt name 0 data w1)
  end.

(** [rename], that is [os.Rename]: a new name that is a directory is
    refused before the system call is made; the system call moves the
    entry over a file or to a free name, and does nothing when the two
    names are one. *)
Definition rename (old new : string) (w : World) : option error * World :=
  match files w !! new, files w !! old with
  | Some (Dir _), None => (Some (LinkError old new ENOENT), w)
  | Some (Dir _), Some _ => (Some (LinkError old new EEXIST), w)
  | _, None => (Some (LinkError old new ENOENT), w)
  | Some (File _), Some (Dir _) => (Some (LinkError old new ENOTDIR), w)
  | _, Some n =>
      if bool_decide (old = new) then (None, w)
      else
        (None,
         emit (SysRename old new)
              (setFiles (<[new := n]> (delete old (files w))) w))
  end.

(** [os.Remove]: a file, or an empty directory. *)
Definition osRemove (name : string) (w : World) : option error * World :=
  match files w !! name with
  | None => (Some (PathError name ENOENT), w)
  | Some (Dir false) => (Some (PathError name ENOTEMPTY), w)
  | Some _ => (None, emit (SysRemove name) (setFiles (delete name (files w)) w))
  end.

(** [syncDir]: the directory is there and its sync succeeds (an [EINVAL]
    is ignored by the source). *)
Definition syncDir (w : World) : option error := None.

(** [dir.Readdirnames(0)] *)
Definition Readdirnames (w : World) : list string := (map_to_list (files w)).*1.

(* ===================================================================== *)
(** ** The file storage                                                   *)
(* ===================================================================== *)

(** [fileStorage] without its path, mutex and lock file, which the model
    keeps in the world. *)
Record fileStorage := mkFS {
  readOnly : bool;
  slock : option nat;   (* the [fileStorageLock] held, by its allocation number *)
  nlock : nat;          (* the locks allocated so far *)
  logw : option nat;    (* the open [LOG] file: its write offset *)
  logSize : Z;
  open : Z;
  day : Z
}.

(** [fileWrap] without the [os.File] *)
Record fileWrap := mkWrap { fw_fd : FileDesc; fw_closed : bool }.

(** The storage, the file handles it gave out, and the world. *)
Record State := mkState {
  world : World;
  fs : fileStorage;
  wraps : list fileWrap
}.

Definition setWorld (w : World) (st : State) : State :=
  mkState w (fs st) (wraps st).

Definition setFS (f : fileStorage) (st : State) : State :=
  mkState (world st) f (wraps st).

Definition setWraps (ws : list fileWrap) (st : State) : State :=
  mkState (world st) (fs st) ws.

Definition setSlock (l : option nat) (f : fileStorage) : fileStorage :=
  mkFS (readOnly f) l (nlock f) (logw f) (logSize f) (open f) (day f).

Definition setLog (lw : option nat) (sz : Z) (f : fileStorage) : fileStorage :=
  mkFS (readOnly f) (slock f) (nlock f) lw sz (open f) (day f).

Definition setOpen (o : Z) (f : fileStorage) : fileStorage :=
  mkFS (readOnly f) (slock f) (nlock f) (logw f) (logSize f) o (day f).

Definition setDay (d : Z) (f : fileStorage) : fileStorage :=
  mkFS (readOnly f) (slock f) (nlock f) (logw f) (logSize f) (open f) d.

(** Arithmetic of Go's 64-bit [int] and [int64]. *)
Definition wrap64 (z : Z) : Z := (z + 2 ^ 63) mod 2 ^ 64 - 2 ^ 63.

Definition nl : string := String (ascii_of_nat 10) "".

Definition logSizeThreshold : Z := 1024 * 1024.

(** The loop of [itoa]; the buffer has 32 bytes. *)
Fixpoint itoaLoop (room : nat) (u wid : Z) (acc : list Z) : list Z :=
  match room with
  | O => acc
  | S room' =>
      if (0 <? u) || (0 <? wid)
      then itoaLoop room' (u / 10) (wid - 1) ((48 + u mod 10) :: acc)
      else acc
  end.

(** [itoa(buf, i, wid)]: the bytes appended to [buf]. *)
Definition itoa (i wid : Z) : list Z :=
  let u := i mod 2 ^ 64 in
  if (u =? 0) && (wid <=? 1) then [48] else itoaLoop 32 u wid [].

(** [fmt.Sprintf("%#x", i)] *)
Fixpoint hexDigits (fuel : nat) (u : Z) : list Z :=
  match fuel with
  | O => []
  | S f =>
      let d := u mod 16 in
      let c := if d <? 10 then 48 + d else 87 + d in
      if u <? 16 then [c] else hexDigits f (u / 16) ++ [c]
  end.

Definition fmtHex (i : Z) : string :=
  (if i <? 0 then "-0x" else "0x") +:+ str (hexDigits 16 (Z.abs i)).

(** [fmt.Sprintf("%d", n)] *)
Definition fmtD (n : Z) : string := str (fmtInteger 0 n).

(** [FileDesc.String] *)
Definition FileDesc_String (fd : FileDesc) : string :=
  match fsGenName fd with
  | Some name => name
  | None => fmtHex (Type_ fd) +:+ "-" +:+ fmtD (Num fd)
  end.

Definition CURRENT : string := "CURRENT".
Definition CURRENT_bak : string := "CURRENT.bak".
Definition LOG : string := "LOG".
Definition LOG_old : string := "LOG.old".
Definition LOCK : string := "LOCK".

(** The flag of [newFileLock]: with [O_RDWR] a directory does not open. *)
Definition osOpenLock (ro : bool) (w : World) : (option error * bool) * World :=
  match files w !! LOCK with
  | Some (Dir _) =>
      if ro then (None, false, w) else (Some (PathError LOCK EISDIR), false, w)
  | Some (File _) => (None, false, w)
  | None =>
      (None, true, emit (SysCreate LOCK)
                     (setFiles (<[LOCK := File ""]> (files w)) w))
  end.

(** [setFileLock(f, readonly, true)]: [flock] with [LOCK_SH] or [LOCK_EX],
    never blocking. *)
Definition acquire (ro : bool) (l : lockState) : error + lockState :=
  match ro, l with
  | _, Unlocked => inr (if ro then LockedShared 0 else LockedExclusive)
  | true, LockedShared n => inr (LockedShared (S n))
  | _, _ => inl (Errno EAGAIN)
  end.

(** [unixFileLock.release]: [LOCK_UN] and the close of the lock file. *)
Definition release (l : lockState) : lockState :=
  match l with
  | LockedShared (S n) => LockedShared n
  | _ => Unlocked
  end.

(** [newFileLock(LOCK, readonly)]: a lock file that had to be created is a
    new file, which nobody holds. *)
Definition newFileLock (ro : bool) (w : World) : option error * World :=
  match osOpenLock ro w with
  | (Some e, _, w1) => (Some e, w1)
  | (None, created, w1) =>
      match acquire ro (if created then Unlocked else flock w1) with
      | inl e => (Some e, w1)
      | inr l => (None, setFlock l w1)
      end
  end.

(** The path given to [OpenFile], before the call. *)
Inductive pathState :=
| PathAbsent
| PathFile
| PathDir (entries : gmap string node).

(** [OpenFile(path, readOnly)], from the state of the path, the lock state
    of its [LOCK] file and the clock.  The world is returned also when the
    open fails after it made the directory or the lock file; [None] for
    the world is a path that is still no directory. *)
Definition OpenFile (p : pathState) (l : lockState) (clk : list Time)
    (ro : bool) : (error + State) * option World :=
  let dir :=
    match p with
    | PathFile => inl ErrNotDirectory
    | PathDir entries => inr (mkWorld entries l clk [])
    | PathAbsent =>
        if negb ro then inr (mkWorld ∅ l clk [SysMkdir])
        else inl (PathError "" ENOENT)
    end in
  match dir with
  | inl e => (inl e, None)
  | inr w0 =>
      match newFileLock ro w0 with
      | (Some e, w1) => (inl e, Some w1)
      | (None, w1) =>
          if negb ro then
            match osOpenWrite LOG w1 with
            | (inl e, w2) => (inl e, Some (setFlock (release (flock w2)) w2))
            | (inr size, w2) =>
                (inr (mkState w2
                        (mkFS ro None 0 (Some size) (Z.of_nat size) 0 0) []),
                 Some w2)
            end
          else (inr (mkState w1 (mkFS ro None 0 None 0 0 0) []), Some w1)
      end
  end.

(** [fileStorage.Lock]: the lock returned, by its allocation number
    ([None] is the lock without storage that a read-only storage gives). *)
Definition Lock (st : State) : (error + option nat) * State :=
  if open (fs st) <? 0 then (inl ErrClosed, st)
  else if readOnly (fs st) then (inr None, st)
  else
    match slock (fs st) with
    | Some _ => (inl ErrLocked, st)
    | None =>
        let id := nlock (fs st) in
        let f := mkFS (readOnly (fs st)) (Some id) (S id) (logw (fs st))
                      (logSize (fs st)) (open (fs st)) (day (fs st)) in
        (inr (Some id), setFS f st)
    end.

(** [fileStorageLock.Unlock] *)
Definition Unlock (lock : option nat) (st : State) : State :=
  match lock with
  | None => st
  | Some id =>
      if bool_decide (slock (fs st) = Some id)
      then setFS (setSlock None (fs st)) st
      else st
  end.

(** [fs.logw.Write(data)] *)
Definition logWrite (data : string) (st : State) : State :=
  match logw (fs st) with
  | None => st
  | Some off =>
      mkState (osWriteAt LOG off data (world st))
              (setLog (Some (off + String.length data)%nat) (logSize (fs st))
                      (fs st))
              (wraps st)
  end.

(** [fileStorage.printDay] *)
Definition printDay (t : Time) (st : State) : State :=
  if day (fs st) =? tDay t then st
  else
    logWrite ("===============" +:+ tBanner t +:+ "===============" +:+ nl)
             (setFS (setDay (tDay t) (fs st)) st).

(** The line [doLog] writes. *)
Definition logLine (t : Time) (s : string) : string :=
  str (itoa (tHour t) 2 ++ [58] ++ itoa (tMin t) 2 ++ [58]
       ++ itoa (tSec t) 2 ++ [46] ++ itoa (tNano t / 1000) 6 ++ [32])
  +:+ s +:+ nl.

(** [fileStorage.doLog] *)
Definition doLog (t : Time) (s : string) (st : State) : State :=
  let rotated :=
    if logSizeThreshold <? logSize (fs st) then
      let st1 := setFS (setLog None 0 (fs st)) st in
      match rename LOG LOG_old (world st1) with
      | (Some _, w) => inl (setWorld w st1)
      | (None, w) => inr (setWorld w st1)
      end
    else inr st in
  match rotated with
  | inl st1 => st1
  | inr st1 =>
      let opened :=
        match logw (fs st1) with
        | Some _ => inr st1
        | None =>
            match osOpenWrite LOG (world st1) with
            | (inl _, w) => inl (setWorld w st1)
            | (inr _, w) =>
                inr (mkState w
                       (setDay 0 (setLog (Some 0%nat) (logSize (fs st1)) (fs st1)))
                       (wraps st1))
            end
        end in
      match opened with
      | inl st2 => st2
      | inr st2 =>
          let st3 := printDay t st2 in
          let line := logLine t s in
          let st4 := logWrite line st3 in
          setFS (setLog (logw (fs st4))
                        (wrap64 (logSize (fs st4) + Z.of_nat (String.length line)))
                        (fs st4)) st4
      end
  end.

(** [fileStorage.Log] *)
Definition Log (s : string) (st : State) : State :=
  if negb (readOnly (fs st)) then
    let '(t, w) := now (world st) in
    let st1 := setWorld w st in
    if open (fs st1) <? 0 then st1 else doLog t s st1
  else st.

(** [fileStorage.logNoLock] *)
Definition logNoLock (s : string) (st : State) : State :=
  if negb (readOnly (fs st)) then
    let '(t, w) := now (world st) in
    doLog t s (setWorld w st)
  else st.

Section Storage.

(** The renderings of package [fmt] that only reach the text of the
    operational log: [%q] of a byte string and [%v] of an error. *)
Variable quote : string -> string.
Variable errText : error -> string.

(** [fileStorage.setMeta] *)
Definition setMeta (fd : FileDesc) (st : State) : option error * State :=
  match fsGenName fd with
  | None => (Some Panic, st)
  | Some name =>
      let content := name +:+ nl in
      let present :=
        match osStat CURRENT (world st) with
        | inr _ =>
            match osReadFile CURRENT (world st) with
            | inl e =>
                inl (Some e, logNoLock ("backup CURRENT: " +:+ errText e) st)
            | inr b =>
                if bool_decide (b = content) then inl (None, st) else inr tt
            end
        | inl e => if negb (IsNotExist e) then inl (Some e, st) else inr tt
        end in
      match present with
      | inl r => r
      | inr _ =>
          let path := CURRENT +:+ "." +:+ fmtD (Num fd) in
          match writeFileSynced path content (world st) with
          | (Some e, w) =>
              (Some e,
               logNoLock ("create CURRENT." +:+ fmtD (Num fd) +:+ ": "
                          +:+ errText e) (setWorld w st))
          | (None, w) =>
              match rename path CURRENT w with
              | (Some e, w1) =>
                  (Some e,
                   logNoLock ("rename CURRENT." +:+ fmtD (Num fd) +:+ ": "
                              +:+ errText e) (setWorld w1 st))
              | (None, w1) =>
                  match syncDir w1 with
                  | Some e =>
                      (Some e,
                       logNoLock ("syncDir: " +:+ errText e) (setWorld w1 st))
                  | None => (None, setWorld w1 st)
                  end
              end
          end
      end
  end.

(** [fileStorage.SetMeta] *)
Definition SetMeta (fd : FileDesc) (st : State) : option error * State :=
  if negb (FileDescOk fd) then (Some ErrInvalidFile, st)
  else if readOnly (fs st) then (Some errReadOnly, st)
  else if open (fs st) <? 0 then (Some ErrClosed, st)
  else setMeta fd st.

(** [currentFile] of [GetMeta] *)
Record currentFile := mkCur { cf_name : string; cf_fd : FileDesc }.

(** A byte string without its last byte, and that byte. *)
Fixpoint splitLast (s : string) : option (string * ascii) :=
  match s with
  | EmptyString => None
  | String c rest =>
      match splitLast rest with
      | None => Some (EmptyString, c)
      | Some (body, last) => Some (String c body, last)
      end
  end.

(** The test of [tryCurrent] on the content read: the last byte is a
    newline and what precedes it parses. *)
Definition currentContent (b : string) : option FileDesc :=
  match splitLast b with
  | Some (body, last) =>
      if byteZ last =? 10 then
        let '(fd, ok) := fsParseNamePtr body in
        if ok then Some fd else None
      else None
  | None => None
  end.

(** [tryCurrent] of [GetMeta] *)
Definition tryCurrent (name : string) (st : State)
  : (error + currentFile) * State :=
  match osReadFile name (world st) with
  | inl e => (inl (if IsNotExist e then ErrNotExist else e), st)
  | inr b =>
      match currentContent b with
      | None =>
          (inl (ErrCorrupted name),
           logNoLock (name +:+ ": corrupted content: " +:+ quote b) st)
      | Some fd =>
          match fsGenName fd with
          | None => (inl Panic, st)
          | Some target =>
              match osStat target (world st) with
              | inl e =>
                  if IsNotExist e then
                    (inl ErrNotExist,
                     logNoLock (name +:+ ": missing target file: "
                                +:+ FileDesc_String fd) st)
                  else (inl e, st)
              | inr _ => (inr (mkCur name fd), st)
              end
          end
      end
  end.

(** The loop of [tryCurrents]: [inl] is the return from inside the loop on
    an error that is neither missing nor corrupted; otherwise the file
    the loop stopped at and the last corruption seen. *)
Fixpoint tryCurrentsLoop (names : list string) (lastCerr : option error)
    (st : State) : (error + (option currentFile * option error)) * State :=
  match names with
  | [] => (inr (None, lastCerr), st)
  | name :: rest =>
      match tryCurrent name st with
      | (inr cur, st1) => (inr (Some cur, lastCerr), st1)
      | (inl e, st1) =>
          if bool_decide (e = ErrNotExist) then tryCurrentsLoop rest lastCerr st1
          else if isCorrupted e then tryCurrentsLoop rest (Some e) st1
          else (inl e, st1)
      end
  end.

(** [tryCurrents] of [GetMeta] *)
Definition tryCurrents (names : list string) (st : State)
  : (error + currentFile) * State :=
  match tryCurrentsLoop names None st with
  | (inl e, st1) => (inl e, st1)
  | (inr (Some cur, _), st1) => (inr cur, st1)
  | (inr (None, lastCerr), st1) => (inl (default ErrNotExist lastCerr), st1)
  end.

(** [sort.Sort(sort.Reverse(int64Slice(nums)))]: the numbers in descending
    order. *)
Fixpoint insertDesc (x : Z) (l : list Z) : list Z :=
  match l with
  | [] => [x]
  | y :: l' => if y <=? x then x :: l else y :: insertDesc x l'
  end.

Definition sortDesc (l : list Z) : list Z := foldr insertDesc [] l.

(** The numbers of the pending files among the entries read. *)
Definition pendingNums (names : list string) : list Z :=
  omap (fun name =>
          if String.prefix "CURRENT." name
             && negb (bool_decide (name = CURRENT_bak))
          then ParseInt (bytes (dropStr 8 name))
          else None) names.

(** [pendNames] of [GetMeta] *)
Definition pendingNames (names : list string) : list string :=
  (fun num => "CURRENT." +:+ fmtD num) <$> sortDesc (pendingNums names).

(** The two results of a scan, as the source holds them: the file found
    ([nil] if none) and the error ([nil] if a file was found). *)
Definition curOf (r : error + currentFile) : option currentFile :=
  match r with
  | inr c => Some c
  | inl _ => None
  end.

Definition errOf {A} (r : error + A) : option error :=
  match r with
  | inl e => Some e
  | inr _ => None
  end.

(** The test [err != nil && err != os.ErrNotExist && !isCorrupted(err)]
    that ends [GetMeta] at once. *)
Definition abortErr (r : error + currentFile) : option error :=
  match errOf r with
  | Some e =>
      if negb (bool_decide (e = ErrNotExist)) && negb (isCorrupted e)
      then Some e else None
  | None => None
  end.

(** [if pendCur != nil && (curCur == nil || pendCur.fd.Num > curCur.fd.Num)
    { curCur = pendCur }]: the value of [curCur] after the statement. *)
Definition pickCurrent (pendCur curCur : option currentFile)
  : option currentFile :=
  match pendCur with
  | Some p =>
      match curCur with
      | None => Some p
      | Some c => if Num (cf_fd c) <? Num (cf_fd p) then Some p else Some c
      end
  | None => curCur
  end.

(** The removal of the pending files after a republication. *)
Fixpoint removePending (names : list string) (st : State) : State :=
  match names with
  | [] => st
  | name :: rest =>
      match osRemove name (world st) with
      | (Some e, w) =>
          removePending rest
            (logNoLock ("remove " +:+ name +:+ ": " +:+ errText e)
                       (setWorld w st))
      | (None, w) => removePending rest (setWorld w st)
      end
  end.

(** [fileStorage.GetMeta] *)
Definition GetMeta (st : State) : (error + FileDesc) * State :=
  if open (fs st) <? 0 then (inl ErrClosed, st)
  else
    let names := Readdirnames (world st) in
    let pendNames := pendingNames names in
    let '(pend, st1) :=
      match pendNames with
      | [] => (inl ErrNotExist, st)
      | _ => tryCurrents pendNames st
      end in
    match abortErr pend with
    | Some e => (inl e, st1)
    | None =>
        let '(cur, st2) := tryCurrents [CURRENT; CURRENT_bak] st1 in
        match abortErr cur with
        | Some e => (inl e, st2)
        | None =>
            match pickCurrent (curOf pend) (curOf cur) with
            | Some curCur =>
                if negb (readOnly (fs st2))
                   && (negb (bool_decide (cf_name curCur = CURRENT))
                       || negb (bool_decide (pendNames = [])))
                then
                  match setMeta (cf_fd curCur) st2 with
                  | (None, st3) =>
                      (inr (cf_fd curCur), removePending pendNames st3)
                  | (Some _, st3) => (inr (cf_fd curCur), st3)
                  end
                else (inr (cf_fd curCur), st2)
            | None =>
                match errOf pend with
                | Some pe =>
                    if isCorrupted pe then (inl pe, st2)
                    else (match errOf cur with
                          | Some ce => inl ce
                          | None => inr fdZero
                          end, st2)
                | None =>
                    (match errOf cur with
                     | Some ce => inl ce
                     | None => inr fdZero
                     end, st2)
                end
            end
        end
    end.

(** [fileStorage.List] *)
Definition List (ft : Z) (st : State) : error + list FileDesc :=
  if open (fs st) <? 0 then inl ErrClosed
  else
    inr (omap (fun name =>
                 let '(fd, ok) := fsParseName name in
                 if ok && negb (Z.land (Type_ fd) ft =? 0) then Some fd else None)
              (Readdirnames (world st))).

(** The count of open files after one more, and after one less. *)
Definition incOpen (st : State) : State :=
  setFS (setOpen (wrap64 (open (fs st) + 1)) (fs st)) st.

Definition decOpen (st : State) : State :=
  setFS (setOpen (wrap64 (open (fs st) - 1)) (fs st)) st.

(** [fileStorage.Open]: the index of the [fileWrap] returned. *)
Definition Open (fd : FileDesc) (st : State) : (error + nat) * State :=
  if negb (FileDescOk fd) then (inl ErrInvalidFile, st)
  else if open (fs st) <? 0 then (inl ErrClosed, st)
  else
    match fsGenName fd, fsGenOldName fd with
    | Some name, Some old =>
        let opened :=
          match osOpenRead name (world st) with
          | Some e =>
              if fsHasOldName fd && IsNotExist e then osOpenRead old (world st)
              else Some e
          | None => None
          end in
        match opened with
        | Some e => (inl e, st)
        | None =>
            (inr (length (wraps st)),
             setWraps (wraps st ++ [mkWrap fd false]) (incOpen st))
        end
    | _, _ => (inl Panic, st)
    end.

(** [fileStorage.Create] *)
Definition Create (fd : FileDesc) (st : State) : (error + nat) * State :=
  if negb (FileDescOk fd) then (inl ErrInvalidFile, st)
  else if readOnly (fs st) then (inl errReadOnly, st)
  else if open (fs st) <? 0 then (inl ErrClosed, st)
  else
    match fsGenName fd with
    | Some name =>
        match osCreateTrunc name (world st) with
        | (Some e, w) => (inl e, setWorld w st)
        | (None, w) =>
            (inr (length (wraps st)),
             setWraps (wraps st ++ [mkWrap fd false]) (incOpen (setWorld w st)))
        end
    | None => (inl Panic, st)
    end.

(** [fileStorage.Remove] *)
Definition Remove (fd : FileDesc) (st : State) : option error * State :=
  if negb (FileDescOk fd) then (Some ErrInvalidFile, st)
  else if negb (readOnly (fs st)) then (Some errReadOnly, st)
  else if open (fs st) <? 0 then (Some ErrClosed, st)
  else
    match fsGenName fd, fsGenOldName fd with
    | Some name, Some old =>
        match osRemove name (world st) with
        | (None, w) => (None, setWorld w st)
        | (Some err, w) =>
            let st1 := setWorld w st in
            if fsHasOldName fd && IsNotExist err then
              match osRemove old (world st1) with
              | (e1, w1) =>
                  let st2 := setWorld w1 st1 in
                  if negb (match e1 with Some e => IsNotExist e | None => false end)
                  then
                    (e1,
                     logNoLock ("remove " +:+ FileDesc_String fd +:+ ": "
                                +:+ errText err +:+ "(old name)") st2)
                  else (Some err, st2)
              end
            else
              (Some err,
               logNoLock ("remove " +:+ FileDesc_String fd +:+ ": "
                          +:+ errText err) st1)
        end
    | _, _ => (Some Panic, st)
    end.

(** [fileStorage.Rename] *)
Definition Rename (oldfd newfd : FileDesc) (st : State) : option error * State :=
  if negb (FileDescOk oldfd) || negb (FileDescOk newfd)
  then (Some ErrInvalidFile, st)
  else if bool_decide (oldfd = newfd) then (None, st)
  else if negb (readOnly (fs st)) then (Some errReadOnly, st)
  else if open (fs st) <? 0 then (Some ErrClosed, st)
  else
    match fsGenName oldfd, fsGenName newfd with
    | Some old, Some new =>
        let '(r, w) := rename old new (world st) in (r, setWorld w st)
    | _, _ => (Some Panic, st)
    end.

(** [fileStorage.Close] *)
Definition Close (st : State) : option error * State :=
  if open (fs st) <? 0 then (Some ErrClosed, st)
  else
    let st1 :=
      if 0 <? open (fs st)
      then logNoLock ("close: warning, " +:+ fmtD (open (fs st))
                      +:+ " files still open") st
      else st in
    let st2 := setFS (setOpen (-1) (fs st1)) st1 in
    (None, setWorld (setFlock (release (flock (world st2))) (world st2)) st2).

(** [fileWrap.Close] on the handle of index [i]; an index that names no
    handle does nothing. *)
Definition fileWrap_Close (i : nat) (st : State) : option error * State :=
  match wraps st !! i with
  | None => (None, st)
  | Some fw =>
      if fw_closed fw then (Some ErrClosed, st)
      else
        (None,
         decOpen (setWraps (<[i := mkWrap (fw_fd fw) true]> (wraps st)) st))
  end.

(** [fileWrap.Sync] *)
Definition fileWrap_Sync (i : nat) (st : State) : option error * State :=
  match wraps st !! i with
  | None => (None, st)
  | Some fw =>
      if fw_closed fw then (Some ErrFileClosed, st)
      else if Type_ (fw_fd fw) =? TypeManifest then
        match syncDir (world st) with
        | Some e => (Some e, logNoLock ("syncDir: " +:+ errText e) st)
        | None => (None, st)
        end
      else (None, st)
  end.

(** One call on the storage or on one of its file handles. *)
Inductive op :=
| OpLock
| OpUnlock (lock : option nat)
| OpLog (s : string)
| OpSetMeta (fd : FileDesc)
| OpGetMeta
| OpList (ft : Z)
| OpOpen (fd : FileDesc)
| OpCreate (fd : FileDesc)
| OpRemove (fd : FileDesc)
| OpRename (oldfd newfd : FileDesc)
| OpClose
| OpFileClose (i : nat)
| OpFileSync (i : nat).

(** The error a call returns ([None] for none) and the state after it. *)
Definition step (o : op) (st : State) : option error * State :=
  match o with
  | OpLock => let '(r, st1) := Lock st in (errOf r, st1)
  | OpUnlock l => (None, Unlock l st)
  | OpLog s => (None, Log s st)
  | OpSetMeta fd => SetMeta fd st
  | OpGetMeta => let '(r, st1) := GetMeta st in (errOf r, st1)
  | OpList ft => (errOf (List ft st), st)
  | OpOpen fd => let '(r, st1) := Open fd st in (errOf r, st1)
  | OpCreate fd => let '(r, st1) := Create fd st in (errOf r, st1)
  | OpRemove fd => Remove fd st
  | OpRename o n => Rename o n st
  | OpClose => Close st
  | OpFileClose i => fileWrap_Close i st
  | OpFileSync i => fileWrap_Sync i st
  end.

(** The state after a sequence of calls. *)
Definition run (ops : list op) (st : State) : State :=
  fold_left (fun s o => (step o s).2) ops st.

End Storage.

(* ===================================================================== *)
(** ** Sample directories and storages                                    *)
(* ===================================================================== *)

(** Renderings for the operational log of the samples. *)
Definition plainQuote (s : string) : string := s.

Definition plainErrText (e : error) : string := "error".

Definition manifestName (n : Z) : string := "MANIFEST-" +:+ pad6 n.

(** [CURRENT] names manifest 5; a publication of manifest 7 stopped after
    its pending file was written. *)
Definition pendingDir : gmap string node :=
  list_to_map
    [(CURRENT, File (manifestName 5 +:+ nl));
     (manifestName 5, File "");
     (manifestName 7, File "");
     ("CURRENT.7", File (manifestName 7 +:+ nl));
     (LOCK, File "");
     (LOG, File "")].

(** No [CURRENT]; one pending file, whose content is no pointer. *)
Definition corruptedDir : gmap string node :=
  list_to_map [("CURRENT.5", File "xx"); (LOCK, File ""); (LOG, File "")].

(** [CURRENT] names manifest 10; of two pending files the one for 12 is
    valid and the one for 13 is garbage. *)
Definition mixedDir : gmap string node :=
  list_to_map
    [(CURRENT, File (manifestName 10 +:+ nl));
     (manifestName 10, File "");
     (manifestName 12, File "");
     ("CURRENT.12", File (manifestName 12 +:+ nl));
     ("CURRENT.13", File "garbage");
     (LOCK, File "");
     (LOG, File "")].

(** A table under its legacy name only. *)
Definition legacyDir : gmap string node :=
  list_to_map [("000003.sst", File "t"); (LOCK, File "")].

(** One journal file. *)
Definition journalDir : gmap string node :=
  list_to_map [("000001.log", File "abc"); (LOCK, File ""); (LOG, File "")].

(** A read-write storage as [OpenFile] returns it on a directory that has
    an empty [LOG]. *)
Definition storageRW (entries : gmap string node) : State :=
  mkState (mkWorld entries LockedExclusive [] [])
          (mkFS false None 0 (Some 0%nat) 0 0 0) [].

(** A read-only storage as [OpenFile] returns it. *)
Definition storageRO (entries : gmap string node) : State :=
  mkState (mkWorld entries (LockedShared 0) [] [])
          (mkFS true None 0 None 0 0 0) [].

Definition journal1 : FileDesc := mkFileDesc TypeJournal 1.
Definition journal2 : FileDesc := mkFileDesc TypeJournal 2.

(* ===================================================================== *)
(** ** Notions used in the statements and their proofs                    *)
(* ===================================================================== *)

(** What a token loop stops at: the end of the input, or a rune outside the
    class. *)
Definition stopsAt (ok : Z -> bool) (rs : list Z) : Prop :=
  match rs with
  | [] => True
  | r :: _ => ok r = false
  end.

(** What the log never changes: the mode, the count of open files, the
    instance lock, the handles, the lock on [LOCK]. *)
Definition sameCore (st st' : State) : Prop :=
  readOnly (fs st') = readOnly (fs st)
  /\ open (fs st') = open (fs st)
  /\ slock (fs st') = slock (fs st)
  /\ nlock (fs st') = nlock (fs st)
  /\ wraps st' = wraps st
  /\ flock (world st') = flock (world st).

(** The directories agree on every entry but the two log files. *)
Definition sameOffLog (w w' : World) : Prop :=
  forall name, name <> LOG -> name <> LOG_old ->
               files w' !! name = files w !! name.

(** Both at once: what a write to the log leaves alone. *)
Definition logFrame (st st' : State) : Prop :=
  sameCore st st' /\ sameOffLog (world st) (world st').

(** An error of a system call on the directory. *)
Definition osError (e : error) : Prop :=
  match e with
  | PathError _ _ | LinkError _ _ _ | Errno _ => True
  | _ => False
  end.

(** The pending file [setMeta] writes for an identifier. *)
Definition pendingPath (fd : FileDesc) : string :=
  CURRENT +:+ "." +:+ fmtD (Num fd).

(** The mode, the count of open files and the handles given out. *)
Definition counts (st : State) : bool * Z * list fileWrap :=
  (readOnly (fs st), open (fs st), wraps st).

(** The handles not closed yet. *)
Fixpoint unclosed (ws : list fileWrap) : Z :=
  match ws with
  | [] => 0
  | fw :: ws' => (if fw_closed fw then 0 else 1) + unclosed ws'
  end.

(** The call is the [Close] of the storage. *)
Definition isClose (o : op) : bool :=
  match o with
  | OpClose => true
  | _ => false
  end.

(** The invariant: before the storage is closed ([c = false]) the count is
    the number of handles not closed; after, it is negative, and at least
    [-1 - k] where [k] bounds the calls made. *)
Definition countInv (c : bool) (k : Z) (st : State) : Prop :=
  if c then - 1 - k <= open (fs st) < 0
  else open (fs st) = unclosed (wraps st)
       /\ Z.of_nat (length (wraps st)) <= k.

(** The calls of the read-only interface: those the specification lists,
    and the release of what [Lock] and [Open] return. *)
Definition readOnlyCall (o : op) : Prop :=
  match o with
  | OpGetMeta | OpList _ | OpOpen _ | OpLock | OpLog _ | OpClose
  | OpUnlock _ | OpFileClose _ => True
  | _ => False
  end.

(** The directory and the calls that changed it. *)
Definition disk (st : State) : gmap string node * list syscall :=
  (files (world st), trace (world st)).

(** [tryCurrent] without the log: what the directory holds for a pointer
    file. *)
Definition candidate (w : World) (name : string) : error + currentFile :=
  match osReadFile name w with
  | inl e => inl (if IsNotExist e then ErrNotExist else e)
  | inr b =>
      match currentContent b with
      | None => inl (ErrCorrupted name)
      | Some fd =>
          match fsGenName fd with
          | None => inl Panic
          | Some target =>
              match osStat target w with
              | inl e => inl (if IsNotExist e then ErrNotExist else e)
              | inr _ => inr (mkCur name fd)
              end
          end
      end
  end.

(** The last corruption a scan of [names] sees. *)
Fixpoint lastCorrupted (w : World) (names : list string) (last : option error)
  : option error :=
  match names with
  | [] => last
  | name :: rest =>
      lastCorrupted w rest
        (match candidate w name with
         | inl (ErrCorrupted o) => Some (ErrCorrupted o)
         | _ => last
         end)
  end.

(** A name that is neither of the two log files. *)
Definition notLog (name : string) : Prop := name <> LOG /\ name <> LOG_old.

(* ===================================================================== *)
(** ** Further notions: names, listings, the log                          *)
(* ===================================================================== *)

(** The files the storage keeps for itself in the directory. *)
Definition controlName (name : string) : Prop :=
  name = LOCK \/ name = LOG \/ name = LOG_old
  \/ String.prefix CURRENT name = true.

(** The banner [printDay] writes. *)
Definition dayBanner (t : Time) : string :=
  "===============" +:+ tBanner t +:+ "===============" +:+ nl.

(** What one [doLog] adds to the log file: the banner if the day changed,
    and the line. *)
Definition logEntry (d : Z) (t : Time) (s : string) : string :=
  (if d =? tDay t then "" else dayBanner t) +:+ logLine t s.

(** The number of a pending pointer file, if the name is one: the test and
    the conversion that [GetMeta] applies to every entry. *)
Definition pendingNum (name : string) : option Z :=
  if String.prefix "CURRENT." name && negb (bool_decide (name = CURRENT_bak))
  then ParseInt (bytes (dropStr 8 name))
  else None.


(** [CURRENT] names manifest 5, which is there, and nothing is pending. *)
Definition settledDir : gmap string node :=
  list_to_map
    [(CURRENT, File (manifestName 5 +:+ nl));
     (manifestName 5, File "");
     (manifestName 7, File "");
     (LOCK, File "");
     (LOG, File "")].

(** A read-write storage whose log is past the size at which it is set
    aside. *)
Definition storageFullLog (entries : gmap string node) : State :=
  mkState (mkWorld entries LockedExclusive [] [])
          (mkFS false None 0 (Some 3%nat) (logSizeThreshold + 1) 0 1) [].

(** A directory whose [LOG] holds three bytes. *)
Definition loggedDir : gmap string node :=
  list_to_map [(LOCK, File ""); (LOG, File "abc")].

(** A read-write storage on [loggedDir], its log handle at the end. *)
Definition storageLogged : State :=
  mkState (mkWorld loggedDir LockedExclusive [] [])
          (mkFS false None 0 (Some 3%nat) 3 0 0) [].

(* ===================================================================== *)
(** * Properties                                                          *)
(* ===================================================================== *)

(** ** Bytes, runes, digits *)

Lemma byteZ_chr z : 0 <= z < 256 -> byteZ (chr z) = z.
Proof.
  intros Hz. unfold byteZ, chr.
  rewrite N_ascii_embedding by lia. lia.
Qed.

Lemma byteZ_range c : 0 <= byteZ c < 256.
Proof.
  unfold byteZ. pose proof (N_ascii_bounded c). lia.
Qed.

Lemma bytes_str l : Forall (fun z => 0 <= z < 256) l -> bytes (str l) = l.
Proof.
  unfold bytes, str. rewrite list_ascii_of_string_of_list_ascii.
  induction 1 as [|z l Hz _ IH]; [done|].
  rewrite !fmap_cons. by rewrite byteZ_chr, IH.
Qed.

Lemma bytes_app a b : bytes (a +:+ b) = bytes a ++ bytes b.
Proof.
  unfold bytes. induction a as [|c a IH]; [done|].
  change (String c a +:+ b) with (String c (a +:+ b)).
  cbn [list_ascii_of_string]. rewrite !fmap_cons, IH. done.
Qed.

Lemma bytes_String c s : bytes (String c s) = byteZ c :: bytes s.
Proof. reflexivity. Qed.

Lemma runes_cons_ascii c s :
  byteZ c < 128 -> runes (String c s) = byteZ c :: runes s.
Proof.
  intros Hc. cbn [runes]. cbv zeta.
  destruct (Z.ltb_spec (byteZ c) 128); [done | lia].
Qed.

(** On ASCII text the runes are the bytes. *)
Lemma runes_ascii s : Forall (fun z => z < 128) (bytes s) -> runes s = bytes s.
Proof.
  induction s as [|c s IH]; [done|].
  rewrite bytes_String. intros H. inversion_clear H as [|? ? Hc Hs].
  rewrite runes_cons_ascii by done. by rewrite IH.
Qed.

Lemma takeN_all rs n : (N.of_nat (length rs) <= n)%N -> takeN rs n = rs.
Proof.
  revert n. induction rs as [|r rs IH]; intros n Hn; simpl in *; [done|].
  destruct (N.eqb_spec n 0); [lia|].
  rewrite IH; [done | lia].
Qed.

Lemma digitsVal_snoc ds d : digitsVal (ds ++ [d]) = 10 * digitsVal ds + (d - 48).
Proof. unfold digitsVal. by rewrite fold_left_app. Qed.

Lemma digitsVal_zeros k ds : digitsVal (replicate k 48 ++ ds) = digitsVal ds.
Proof.
  unfold digitsVal. rewrite fold_left_app. f_equal.
  induction k as [|k IH]; simpl; [done|]. apply IH.
Qed.

Lemma isDigit_iff d : isDigit d = true <-> 48 <= d <= 57.
Proof. unfold isDigit, inRange. lia. Qed.

Lemma fmtDigits_spec fuel u :
  0 <= u < 10 ^ Z.of_nat fuel -> (0 < fuel)%nat ->
  Forall (fun d => isDigit d = true) (fmtDigits fuel u)
  /\ fmtDigits fuel u <> []
  /\ digitsVal (fmtDigits fuel u) = u
  /\ (length (fmtDigits fuel u) <= fuel)%nat.
Proof.
  revert u. induction fuel as [|fuel IH]; intros u Hu Hf; [lia|].
  cbn [fmtDigits]. destruct (Z.ltb_spec u 10) as [Hlt|Hge].
  - repeat split; [| done | unfold digitsVal; simpl; lia | simpl; lia].
    constructor; [apply isDigit_iff; lia | constructor].
  - assert (Hpow : 10 ^ Z.of_nat (S fuel) = 10 * 10 ^ Z.of_nat fuel).
    { rewrite Nat2Z.inj_succ, Z.pow_succ_r; lia. }
    assert (Hf' : (0 < fuel)%nat).
    { destruct fuel; [simpl in Hpow; lia | lia]. }
    destruct (IH (u / 10)) as (Hd & Hne & Hv & Hl); [| done |].
    { split; [apply Z.div_pos; lia |].
      apply Z.div_lt_upper_bound; lia. }
    pose proof (Z.mod_pos_bound u 10 ltac:(lia)) as Hm.
    repeat split.
    + apply Forall_app; split; [done|].
      constructor; [apply isDigit_iff; lia | constructor].
    + intros H. by apply app_eq_nil in H as [_ ?].
    + rewrite digitsVal_snoc, Hv.
      pose proof (Z.div_mod u 10 ltac:(lia)). lia.
    + rewrite length_app. simpl. lia.
Qed.

(** The text [%06d] prints for a non-negative [int64]: digits only, at
    least one, and their value is the number. *)
Lemma fmtInteger6_spec n :
  0 <= n < 2 ^ 63 ->
  Forall (fun d => isDigit d = true) (fmtInteger 6 n)
  /\ fmtInteger 6 n <> []
  /\ digitsVal (fmtInteger 6 n) = n
  /\ (length (fmtInteger 6 n) <= 20)%nat.
Proof.
  intros Hn. unfold fmtInteger.
  destruct (Z.ltb_spec n 0); [lia|].
  rewrite Z.abs_eq by lia.
  destruct (fmtDigits_spec 20 n) as (Hd & Hne & Hv & Hl); [lia | lia |].
  repeat split.
  - apply Forall_app; split; [|done].
    apply Forall_forall. intros d Hin. apply elem_of_replicate in Hin as [-> _].
    done.
  - intros H'. by apply app_eq_nil in H' as [_ ?].
  - by rewrite digitsVal_zeros.
  - rewrite length_app, length_replicate. lia.
Qed.

(** ** The scanner on well-formed input *)

Lemma SkipSpace_stop rs : stopsAt isSpace rs -> SkipSpace rs = inr rs.
Proof.
  destruct rs as [|r rs]; [done|]. simpl. intros Hr.
  assert (r <> 13 /\ r <> 10) as [H13 H10].
  { split; intros ->; discriminate. }
  destruct (Z.eqb_spec r 13); [done|]. simpl.
  destruct (Z.eqb_spec r 10); [done|]. by rewrite Hr.
Qed.

Lemma acceptWhile_app ok tok rest :
  Forall (fun r => ok r = true) tok -> stopsAt ok rest ->
  acceptWhile ok (tok ++ rest) = (tok, rest).
Proof.
  intros Htok Hrest. induction Htok as [|r tok Hr _ IH].
  - destruct rest as [|r rest]; [done|]. simpl in *. by rewrite Hrest.
  - simpl. by rewrite Hr, IH.
Qed.

Lemma isDigit_not_space d : isDigit d = true -> isSpace d = false.
Proof.
  rewrite isDigit_iff. intros Hd. unfold isSpace, inRange.
  destruct (Z.leb_spec 65536 d); lia.
Qed.

Lemma isDigit_not_sign d : isDigit d = true -> isSign d = false.
Proof. rewrite isDigit_iff. unfold isSign. lia. Qed.

Lemma int64b_iff z : int64b z = true <-> int64 z.
Proof. unfold int64b, int64. lia. Qed.

Lemma ParseInt_digits ds :
  ds <> [] -> Forall (fun d => isDigit d = true) ds -> int64 (digitsVal ds) ->
  ParseInt ds = Some (digitsVal ds).
Proof.
  intros Hne Hds Hv. destruct ds as [|d ds]; [done|].
  pose proof (Forall_inv Hds) as Hd. apply isDigit_iff in Hd.
  unfold ParseInt.
  destruct (Z.eqb_spec d 43); [lia|]. destruct (Z.eqb_spec d 45); [lia|].
  assert (forallb isDigit (d :: ds) = true) as ->.
  { apply forallb_forall. intros x Hx.
    rewrite Forall_forall in Hds. apply Hds. by apply list_elem_of_In. }
  apply int64b_iff in Hv. by rewrite Hv.
Qed.

Lemma scanInt_digits ds rest :
  ds <> [] -> Forall (fun d => isDigit d = true) ds -> int64 (digitsVal ds) ->
  stopsAt isDigit rest ->
  scanInt (ds ++ rest) = inr (digitsVal ds, rest).
Proof.
  intros Hne Hds Hv Hrest. unfold scanInt.
  destruct ds as [|d ds]; [done|].
  pose proof (Forall_inv Hds) as Hd.
  rewrite SkipSpace_stop by (simpl; by apply isDigit_not_space).
  change ((d :: ds) ++ rest) with (d :: (ds ++ rest)). cbv iota beta.
  rewrite (isDigit_not_sign d Hd). cbv iota beta. rewrite Hd.
  change (d :: (ds ++ rest)) with ((d :: ds) ++ rest).
  rewrite acceptWhile_app by done.
  cbn [app]. by rewrite ParseInt_digits.
Qed.

Lemma convertString_word w :
  w <> [] -> Forall (fun r => negb (isSpace r) = true) w ->
  convertString w = inr (w, []).
Proof.
  intros Hne Hw. unfold convertString.
  assert (stopsAt isSpace w) as Hs.
  { destruct Hw as [|r w Hr _]; [done|]. simpl. by apply negb_true_iff. }
  rewrite !SkipSpace_stop by done.
  destruct w as [|r w]; [done|].
  rewrite <- (app_nil_r (r :: w)) at 1. by rewrite acceptWhile_app.
Qed.

(** The first scan of [fsParseName] on [<digits>.<word>]. *)
Lemma doScanf_num_tail ds w :
  ds <> [] -> Forall (fun d => isDigit d = true) ds -> int64 (digitsVal ds) ->
  w <> [] -> Forall (fun r => negb (isSpace r) = true) w ->
  doScanf fmtNumTail (ds ++ 46 :: w) [] =
    ([ValInt (digitsVal ds); ValStr w], None).
Proof.
  intros Hne Hds Hv Hw Hns. unfold fmtNumTail. cbn [doScanf].
  assert (stopsAt isSpace (ds ++ 46 :: w)) as Hs.
  { destruct ds as [|d ds]; [done|]. simpl.
    apply isDigit_not_space, (Forall_inv Hds). }
  rewrite SkipSpace_stop by done.
  rewrite scanInt_digits by done.
  rewrite Z.eqb_refl.
  assert (stopsAt isSpace w) as Hsw.
  { destruct Hns as [|r w' Hr _]; [done|]. simpl. by apply negb_true_iff. }
  rewrite SkipSpace_stop by done.
  by rewrite convertString_word.
Qed.

(** Both scans of [fsParseName] on [MANIFEST-<digits>]. *)
Lemma doScanf_manifest_first ds :
  doScanf fmtNumTail (bytes "MANIFEST-" ++ ds) [] = ([], Some ScanExpectedInteger).
Proof. reflexivity. Qed.

Lemma doScanf_manifest ds :
  ds <> [] -> Forall (fun d => isDigit d = true) ds -> int64 (digitsVal ds) ->
  doScanf fmtManifest (bytes "MANIFEST-" ++ ds) [] =
    ([ValInt (digitsVal ds)], Some ScanEOF).
Proof.
  intros Hne Hds Hv. unfold fmtManifest.
  change (doScanf [VerbD; VerbS] ds [] = ([ValInt (digitsVal ds)], Some ScanEOF)).
  cbn [doScanf].
  assert (stopsAt isSpace ds) as Hs.
  { destruct ds as [|d ds]; [done|]. simpl.
    apply isDigit_not_space, (Forall_inv Hds). }
  rewrite SkipSpace_stop by done.
  rewrite <- (app_nil_r ds) at 1.
  by rewrite scanInt_digits.
Qed.

Lemma scanned_ascii s :
  Forall (fun z => z < 128) (bytes s) ->
  (N.of_nat (length (bytes s)) <= hugeWid)%N ->
  scanned s = bytes s.
Proof.
  intros Ha Hl. unfold scanned. rewrite runes_ascii by done.
  by apply takeN_all.
Qed.

(** ** Generated names are parsed back *)

Lemma digits_are_bytes ds :
  Forall (fun d => isDigit d = true) ds ->
  Forall (fun z => 0 <= z < 256) ds /\ Forall (fun z => z < 128) ds.
Proof.
  intros H. split; eapply Forall_impl; try exact H;
    intros d Hd; apply isDigit_iff in Hd; lia.
Qed.

Lemma Sscanf_numbered n suf :
  0 <= n < 2 ^ 63 ->
  bytes suf <> [] ->
  Forall (fun r => r < 128 /\ negb (isSpace r) = true) (bytes suf) ->
  (length (bytes suf) <= 8)%nat ->
  Sscanf (pad6 n +:+ "." +:+ suf) fmtNumTail =
    ([ValInt n; ValStr (bytes suf)], None).
Proof.
  intros Hn Hne Hsuf Hlen.
  destruct (fmtInteger6_spec n Hn) as (Hd & Hdne & Hv & Hl).
  destruct (digits_are_bytes _ Hd) as [Hb Ha].
  assert (bytes (pad6 n +:+ "." +:+ suf) = fmtInteger 6 n ++ 46 :: bytes suf) as Hbytes.
  { unfold pad6. rewrite !bytes_app, bytes_str by done. done. }
  unfold Sscanf. rewrite scanned_ascii.
  - rewrite Hbytes, doScanf_num_tail; try done.
    + by rewrite Hv.
    + rewrite Hv. unfold int64. lia.
    + eapply Forall_impl; [exact Hsuf|]. by intros r [_ ?].
  - rewrite Hbytes. apply Forall_app; split; [done|].
    constructor; [lia|]. eapply Forall_impl; [exact Hsuf|]. by intros r [? _].
  - rewrite Hbytes, length_app. cbn [length]. unfold hugeWid. lia.
Qed.

Lemma Sscanf_manifest_name n :
  0 <= n < 2 ^ 63 ->
  Sscanf ("MANIFEST-" +:+ pad6 n) fmtNumTail = ([], Some ScanExpectedInteger)
  /\ Sscanf ("MANIFEST-" +:+ pad6 n) fmtManifest = ([ValInt n], Some ScanEOF).
Proof.
  intros Hn.
  destruct (fmtInteger6_spec n Hn) as (Hd & Hdne & Hv & Hl).
  destruct (digits_are_bytes _ Hd) as [Hb Ha].
  assert (bytes ("MANIFEST-" +:+ pad6 n) = bytes "MANIFEST-" ++ fmtInteger 6 n)
    as Hbytes.
  { unfold pad6. by rewrite bytes_app, bytes_str. }
  assert (scanned ("MANIFEST-" +:+ pad6 n) =
          bytes "MANIFEST-" ++ fmtInteger 6 n) as Hscan.
  { rewrite scanned_ascii, Hbytes; [done | |].
    - rewrite Hbytes. apply Forall_app; split; [|done].
      repeat constructor.
    - rewrite Hbytes, length_app.
      change (length (bytes "MANIFEST-")) with 9%nat. unfold hugeWid. lia. }
  unfold Sscanf. rewrite Hscan. split.
  - apply doScanf_manifest_first.
  - rewrite doScanf_manifest; try done.
    + by rewrite Hv.
    + rewrite Hv. unfold int64. lia.
Qed.

Lemma FileDescOk_inv fd :
  FileDescOk fd = true ->
  (Type_ fd = TypeManifest \/ Type_ fd = TypeJournal
   \/ Type_ fd = TypeTable \/ Type_ fd = TypeTemp) /\ 0 <= Num fd.
Proof.
  unfold FileDescOk, TypeManifest, TypeJournal, TypeTable, TypeTemp.
  destruct (((Type_ fd =? 1) || (Type_ fd =? 2) || (Type_ fd =? 4)
             || (Type_ fd =? 8))) eqn:Ht; [|done].
  intros Hn. split; lia.
Qed.

Ltac suffix_side :=
  first [ done | by repeat constructor | simpl; lia ].

(** C5. Name round trip: for every valid identifier (one of the four kinds,
    number at least zero and within [int64]), parsing the canonical name
    generated for it yields the identifier with the validity flag true;
    for a Table identifier parsing the legacy [.sst] name yields it too. *)
Theorem name_round_trip (fd : FileDesc) :
  FileDescOk fd = true -> int64 (Num fd) ->
  (exists name, fsGenName fd = Some name /\ fsParseName name = (fd, true))
  /\ (Type_ fd = TypeTable ->
      exists old, fsGenOldName fd = Some old /\ fsParseName old = (fd, true)).
Proof.
  intros Hok H64. destruct (FileDescOk_inv fd Hok) as [Hty Hnum].
  assert (0 <= Num fd < 2 ^ 63) as Hn by (unfold int64 in H64; lia).
  destruct fd as [ty n]; simpl in *.
  split.
  - destruct Hty as [-> | [-> | [-> | ->]]].
    + exists ("MANIFEST-" +:+ pad6 n). split; [reflexivity|].
      unfold fsParseName.
      destruct (Sscanf_manifest_name n Hn) as [-> ->]. done.
    + exists (pad6 n +:+ "." +:+ "log"). split; [reflexivity|].
      unfold fsParseName.
      rewrite (Sscanf_numbered n "log") by suffix_side. done.
    + exists (pad6 n +:+ "." +:+ "ldb"). split; [reflexivity|].
      unfold fsParseName.
      rewrite (Sscanf_numbered n "ldb") by suffix_side. done.
    + exists (pad6 n +:+ "." +:+ "tmp"). split; [reflexivity|].
      unfold fsParseName.
      rewrite (Sscanf_numbered n "tmp") by suffix_side. done.
  - intros ->. exists (pad6 n +:+ "." +:+ "sst"). split; [reflexivity|].
    unfold fsParseName.
    rewrite (Sscanf_numbered n "sst") by suffix_side. done.
Qed.

(** The round trip at the Table identifier numbered 3. *)
Lemma name_round_trip_witness :
  FileDescOk (mkFileDesc TypeTable 3) = true
  /\ int64 (Num (mkFileDesc TypeTable 3))
  /\ (exists name, fsGenName (mkFileDesc TypeTable 3) = Some name
                   /\ fsParseName name = (mkFileDesc TypeTable 3, true))
  /\ (Type_ (mkFileDesc TypeTable 3) = TypeTable ->
      exists old, fsGenOldName (mkFileDesc TypeTable 3) = Some old
                  /\ fsParseName old = (mkFileDesc TypeTable 3, true)).
Proof.
  assert (int64 (Num (mkFileDesc TypeTable 3))) as H64
    by (unfold int64; simpl; lia).
  split; [reflexivity|]. split; [exact H64|].
  apply (name_round_trip (mkFileDesc TypeTable 3)); [reflexivity | exact H64].
Defined.

(** ** What the scanner skips and what it takes *)

Lemma isBlank_iff r : isBlank r = true <-> isSpace r = true /\ r <> 10.
Proof.
  unfold isBlank. rewrite andb_true_iff, negb_true_iff, Z.eqb_neq. done.
Qed.

Lemma SkipSpace_cons_blank r rs :
  isBlank r = true -> SkipSpace (r :: rs) = SkipSpace rs.
Proof.
  intros [Hs Hn]%isBlank_iff. simpl.
  destruct ((r =? 13) && peekNewline rs); [done|].
  destruct (Z.eqb_spec r 10); [done|]. by rewrite Hs.
Qed.

Lemma SkipSpace_blanks sp rs :
  Forall (fun r => isBlank r = true) sp -> SkipSpace (sp ++ rs) = SkipSpace rs.
Proof.
  induction 1 as [|r sp Hr _ IH]; [done|].
  cbn [app]. by rewrite SkipSpace_cons_blank.
Qed.

Lemma SkipSpace_newline rs : SkipSpace (10 :: rs) = inl ScanNewline.
Proof. reflexivity. Qed.

Lemma SkipSpace_inv rs :
  match SkipSpace rs with
  | inr rs' => exists sp, rs = sp ++ rs'
                          /\ Forall (fun r => isBlank r = true) sp
                          /\ stopsAt isSpace rs'
  | inl e => e = ScanNewline
             /\ exists sp rest, rs = sp ++ 10 :: rest
                                /\ Forall (fun r => isBlank r = true) sp
  end.
Proof.
  induction rs as [|r rs IH]; [by exists []|].
  destruct (isSpace r) eqn:Hs.
  - destruct (Z.eqb_spec r 10) as [->|Hn].
    + split; [done|]. by exists [], rs.
    + assert (isBlank r = true) as Hb by (apply isBlank_iff; done).
      rewrite SkipSpace_cons_blank by done.
      destruct (SkipSpace rs) as [e|rs'].
      * destruct IH as [-> (sp & rest & -> & Hsp)]. split; [done|].
        exists (r :: sp), rest. split; [done|]. by constructor.
      * destruct IH as (sp & -> & Hsp & Hst).
        exists (r :: sp). split; [done|]. split; [by constructor | done].
  - rewrite SkipSpace_stop by done. by exists [].
Qed.

Lemma acceptWhile_inv ok rs :
  rs = (acceptWhile ok rs).1 ++ (acceptWhile ok rs).2
  /\ Forall (fun r => ok r = true) (acceptWhile ok rs).1
  /\ stopsAt ok (acceptWhile ok rs).2.
Proof.
  induction rs as [|r rs IH]; [done|].
  simpl. destruct (ok r) eqn:Hr; [|done].
  destruct (acceptWhile ok rs) as [tok rest]. simpl in *.
  destruct IH as (-> & Htok & Hst). split; [done|].
  split; [by constructor | done].
Qed.

Lemma ParseInt_plus ds :
  ParseInt (43 :: ds) =
    match ds with
    | [] => None
    | _ => if forallb isDigit ds
           then if int64b (digitsVal ds) then Some (digitsVal ds) else None
           else None
    end.
Proof. reflexivity. Qed.

Lemma ParseInt_minus ds :
  ParseInt (45 :: ds) =
    match ds with
    | [] => None
    | _ => if forallb isDigit ds
           then if int64b (- digitsVal ds) then Some (- digitsVal ds) else None
           else None
    end.
Proof. reflexivity. Qed.

Lemma ParseInt_signed sg ds :
  signTok sg -> ds <> [] -> Forall (fun d => isDigit d = true) ds ->
  ParseInt (sg ++ ds) =
    if int64b (signedVal sg ds) then Some (signedVal sg ds) else None.
Proof.
  intros Hsg Hne Hds.
  assert (forallb isDigit ds = true) as Hall.
  { apply forallb_forall. intros x Hx.
    rewrite Forall_forall in Hds. apply Hds. by apply list_elem_of_In. }
  destruct ds as [|d ds]; [done|].
  pose proof (Forall_inv Hds) as Hd. apply isDigit_iff in Hd.
  unfold signedVal.
  destruct Hsg as [-> | [-> | ->]]; cbn [app].
  - unfold ParseInt.
    destruct (Z.eqb_spec d 43); [lia|]. destruct (Z.eqb_spec d 45); [lia|].
    rewrite Hall. by rewrite bool_decide_eq_false_2.
  - rewrite ParseInt_plus, Hall. by rewrite bool_decide_eq_false_2.
  - rewrite ParseInt_minus, Hall. by rewrite bool_decide_eq_true_2.
Qed.

Lemma scanInt_signed sp sg ds rest :
  Forall (fun r => isBlank r = true) sp ->
  signTok sg -> ds <> [] -> Forall (fun d => isDigit d = true) ds ->
  stopsAt isDigit rest ->
  scanInt (sp ++ sg ++ ds ++ rest) =
    if int64b (signedVal sg ds) then inr (signedVal sg ds, rest)
    else inl ScanParseInt.
Proof.
  intros Hsp Hsg Hne Hds Hrest. unfold scanInt.
  rewrite SkipSpace_blanks by done.
  destruct ds as [|d ds]; [done|].
  pose proof (Forall_inv Hds) as Hd.
  assert (acceptWhile isDigit ((d :: ds) ++ rest) = (d :: ds, rest)) as Hacc
    by (by apply acceptWhile_app).
  assert (SkipSpace (sg ++ (d :: ds) ++ rest) = inr (sg ++ (d :: ds) ++ rest))
    as ->.
  { apply SkipSpace_stop.
    destruct Hsg as [-> | [-> | ->]]; simpl; [|done..].
    by apply isDigit_not_space. }
  pose proof (ParseInt_signed sg (d :: ds) Hsg Hne Hds) as HP.
  destruct Hsg as [-> | [-> | ->]].
  - cbn [app]. rewrite (isDigit_not_sign d Hd). cbv iota beta. rewrite Hd.
    change (d :: ds ++ rest) with ((d :: ds) ++ rest). rewrite Hacc.
    cbn [app] in *. rewrite HP. by destruct (int64b _).
  - cbn [app]. change (isSign 43) with true. cbv iota beta. rewrite Hd.
    change (d :: ds ++ rest) with ((d :: ds) ++ rest). rewrite Hacc.
    rewrite HP. by destruct (int64b _).
  - cbn [app]. change (isSign 45) with true. cbv iota beta. rewrite Hd.
    change (d :: ds ++ rest) with ((d :: ds) ++ rest). rewrite Hacc.
    rewrite HP. by destruct (int64b _).
Qed.

Lemma isSign_iff r : isSign r = true <-> r = 43 \/ r = 45.
Proof. unfold isSign. lia. Qed.

Lemma scanInt_inv rs i rest :
  scanInt rs = inr (i, rest) ->
  exists sp sg ds,
    rs = sp ++ sg ++ ds ++ rest
    /\ Forall (fun r => isBlank r = true) sp
    /\ signTok sg /\ ds <> [] /\ Forall (fun d => isDigit d = true) ds
    /\ i = signedVal sg ds /\ int64 i /\ stopsAt isDigit rest.
Proof.
  unfold scanInt. pose proof (SkipSpace_inv rs) as Hsk.
  destruct (SkipSpace rs) as [e|rs1]; [done|].
  destruct Hsk as (sp & -> & Hsp & _).
  destruct rs1 as [|r rs1]; [done|].
  set (sgn := if isSign r then [r] else []).
  set (rs2 := if isSign r then rs1 else r :: rs1).
  assert (r :: rs1 = sgn ++ rs2 /\ signTok sgn) as [Heq Hsg].
  { subst sgn rs2. destruct (isSign r) eqn:Hr; [|by split; [|left]].
    split; [done|]. apply isSign_iff in Hr as [-> | ->]; [right; by left|].
    right; by right. }
  replace (if isSign r then ([r], rs1) else ([], r :: rs1)) with (sgn, rs2)
    by (subst sgn rs2; by destruct (isSign r)).
  destruct rs2 as [|d rs2'] eqn:Hrs2; [done|].
  destruct (isDigit d) eqn:Hd; [|done].
  pose proof (acceptWhile_inv isDigit (d :: rs2')) as (Happ & Hds & Hst).
  destruct (acceptWhile isDigit (d :: rs2')) as [ds rs3] eqn:Hacc.
  simpl in Happ, Hds, Hst.
  assert (ds <> []) as Hne.
  { intros ->. simpl in Hacc. rewrite Hd in Hacc.
    destruct (acceptWhile isDigit rs2'); done. }
  rewrite ParseInt_signed by done.
  destruct (int64b (signedVal sgn ds)) eqn:H64; [|done].
  intros [= <- <-]. apply int64b_iff in H64.
  exists sp, sgn, ds. rewrite Heq, Happ.
  by repeat (split; [done|]).
Qed.

Lemma SkipSpace_idem rs rs' : SkipSpace rs = inr rs' -> SkipSpace rs' = inr rs'.
Proof.
  intros H. pose proof (SkipSpace_inv rs) as Hi. rewrite H in Hi.
  destruct Hi as (_ & _ & _ & Hst). by apply SkipSpace_stop.
Qed.

Lemma convertString_blanks sp w rest :
  Forall (fun r => isBlank r = true) sp ->
  w <> [] -> Forall (fun r => negb (isSpace r) = true) w ->
  endsOrSpace rest ->
  convertString (sp ++ w ++ rest) = inr (w, rest).
Proof.
  intros Hsp Hne Hw Hrest. unfold convertString.
  rewrite SkipSpace_blanks by done.
  assert (stopsAt isSpace (w ++ rest)) as Hs.
  { destruct Hw as [|r w Hr _]; [done|]. simpl. by apply negb_true_iff. }
  rewrite !SkipSpace_stop by done.
  destruct w as [|r w]; [done|]. cbn [app].
  change (r :: w ++ rest) with ((r :: w) ++ rest).
  rewrite acceptWhile_app; [done | done |].
  destruct rest as [|x rest]; [done|]. simpl in *. by rewrite Hrest.
Qed.

Lemma convertString_inv rs w rest :
  convertString rs = inr (w, rest) ->
  exists sp, rs = sp ++ w ++ rest
             /\ Forall (fun r => isBlank r = true) sp
             /\ w <> [] /\ Forall (fun r => negb (isSpace r) = true) w
             /\ endsOrSpace rest.
Proof.
  unfold convertString. pose proof (SkipSpace_inv rs) as Hsk.
  destruct (SkipSpace rs) as [e|rs1] eqn:Hs1; [done|].
  destruct Hsk as (sp & -> & Hsp & Hst).
  destruct rs1 as [|r rs1]; [done|].
  rewrite SkipSpace_stop by done.
  pose proof (acceptWhile_inv (fun r => negb (isSpace r)) (r :: rs1))
    as (Happ & Hw & Hend).
  destruct (acceptWhile (fun r => negb (isSpace r)) (r :: rs1))
    as [w' rest'] eqn:Heq.
  intros [= <- <-]. cbn [fst snd] in Happ, Hw, Hend.
  exists sp. rewrite Happ. repeat (split; [done|]). split.
  - intros ->. simpl in Hst, Heq. rewrite Hst in Heq. simpl in Heq.
    destruct (acceptWhile _ rs1); done.
  - split; [done|]. destruct rest' as [|x rest']; [done|]. simpl in *.
    by apply negb_false_iff.
Qed.

Lemma convertString_fails sp rest :
  Forall (fun r => isBlank r = true) sp -> endsOrNewline rest ->
  exists e, convertString (sp ++ rest) = inl e.
Proof.
  intros Hsp Hrest. unfold convertString. rewrite SkipSpace_blanks by done.
  destruct rest as [|r rest]; [by exists ScanEOF|].
  simpl in Hrest. subst r. by exists ScanNewline.
Qed.

Lemma convertString_inl_inv rs e :
  convertString rs = inl e ->
  exists sp rest, rs = sp ++ rest
                  /\ Forall (fun r => isBlank r = true) sp
                  /\ endsOrNewline rest.
Proof.
  unfold convertString. pose proof (SkipSpace_inv rs) as Hsk.
  destruct (SkipSpace rs) as [e'|rs1] eqn:Hs1.
  - destruct Hsk as (_ & sp & rest & -> & Hsp). intros _.
    by exists sp, (10 :: rest).
  - destruct Hsk as (sp & -> & Hsp & Hst).
    destruct rs1 as [|r rs1]; [intros _; by exists sp, []|].
    by rewrite SkipSpace_stop.
Qed.

(** The scanner skips blanks before a verb and the verb's own code skips
    them again: the second skip finds nothing. *)
Lemma doScanf_VerbD fmt rs vals :
  doScanf (VerbD :: fmt) rs vals =
    match scanInt rs with
    | inl e => (vals, Some e)
    | inr (i, rs2) => doScanf fmt rs2 (vals ++ [ValInt i])
    end.
Proof.
  cbn [doScanf]. unfold scanInt.
  destruct (SkipSpace rs) as [e|rs1] eqn:Hs; [done|].
  rewrite (SkipSpace_idem _ _ Hs). reflexivity.
Qed.

Lemma doScanf_VerbS fmt rs vals :
  doScanf (VerbS :: fmt) rs vals =
    match convertString rs with
    | inl e => (vals, Some e)
    | inr (w, rs2) => doScanf fmt rs2 (vals ++ [ValStr w])
    end.
Proof.
  cbn [doScanf]. unfold convertString.
  destruct (SkipSpace rs) as [e|rs1] eqn:Hs; [done|].
  pose proof (SkipSpace_idem _ _ Hs) as Hid.
  destruct rs1 as [|r rs1]; [done|]. by rewrite !Hid.
Qed.

Lemma doScanf_Lit c fmt rs vals :
  doScanf (Lit c :: fmt) rs vals =
    match rs with
    | [] => (vals, Some ScanUnexpectedEOF)
    | r :: rs' => if r =? c then doScanf fmt rs' vals
                  else (vals, Some ScanNoMatch)
    end.
Proof. reflexivity. Qed.

Lemma doScanf_fmtNumTail rs :
  doScanf fmtNumTail rs [] =
    match scanInt rs with
    | inl e => ([], Some e)
    | inr (i, []) => ([ValInt i], Some ScanUnexpectedEOF)
    | inr (i, r :: rs3) =>
        if r =? 46 then
          match convertString rs3 with
          | inl e => ([ValInt i], Some e)
          | inr (w, _) => ([ValInt i; ValStr w], None)
          end
        else ([ValInt i], Some ScanNoMatch)
    end.
Proof.
  unfold fmtNumTail. rewrite doScanf_VerbD.
  destruct (scanInt rs) as [e|[i rs2]]; [done|].
  rewrite doScanf_Lit.
  destruct rs2 as [|r rs3]; [done|].
  destruct (r =? 46); [|done].
  rewrite doScanf_VerbS.
  by destruct (convertString rs3) as [e|[w rs4]].
Qed.

Lemma doScanf_lits_ok p fmt rs vals :
  doScanf ((Lit <$> p) ++ fmt) (p ++ rs) vals = doScanf fmt rs vals.
Proof.
  induction p as [|c p IH]; [done|].
  rewrite fmap_cons. cbn [app]. by rewrite doScanf_Lit, Z.eqb_refl.
Qed.

Lemma doScanf_lits_fail p fmt rs vals :
  (forall rs', rs <> p ++ rs') ->
  exists e, doScanf ((Lit <$> p) ++ fmt) rs vals = (vals, Some e).
Proof.
  revert rs. induction p as [|c p IH]; intros rs Hne.
  - by destruct (Hne rs).
  - rewrite fmap_cons. cbn [app]. rewrite doScanf_Lit.
    destruct rs as [|r rs]; [by eexists|].
    destruct (Z.eqb_spec r c) as [->|Hrc]; [|by eexists].
    apply IH. intros rs' ->. by apply (Hne rs').
Qed.

Lemma stripPrefix_Some p rs rs' : stripPrefix p rs = Some rs' <-> rs = p ++ rs'.
Proof.
  unfold stripPrefix. split.
  - case_bool_decide as Hp; [|done]. intros [= <-].
    rewrite <- (take_drop (length p) rs) at 1. by rewrite Hp.
  - intros ->. rewrite take_app_length, drop_app_length.
    by rewrite bool_decide_eq_true_2.
Qed.

Lemma stripPrefix_None p rs : stripPrefix p rs = None -> forall rs', rs <> p ++ rs'.
Proof.
  intros Hn rs' Heq. apply stripPrefix_Some in Heq. congruence.
Qed.

Lemma doScanf_fmtManifest_ok rs1 :
  doScanf fmtManifest (bytes "MANIFEST-" ++ rs1) [] =
    match scanInt rs1 with
    | inl e => ([], Some e)
    | inr (i, rs2) =>
        match convertString rs2 with
        | inl e => ([ValInt i], Some e)
        | inr (w, _) => ([ValInt i; ValStr w], None)
        end
    end.
Proof.
  unfold fmtManifest. rewrite doScanf_lits_ok, doScanf_VerbD.
  destruct (scanInt rs1) as [e|[i rs2]]; [done|].
  rewrite doScanf_VerbS.
  by destruct (convertString rs2) as [e|[w rs3]].
Qed.

Lemma doScanf_fmtManifest_no rs :
  (forall rs1, rs <> bytes "MANIFEST-" ++ rs1) ->
  exists e, doScanf fmtManifest rs [] = ([], Some e).
Proof. apply doScanf_lits_fail. Qed.

(** ** The names the parser takes for identifiers *)

Lemma scanInt_not_manifest rs i rs2 :
  scanInt rs = inr (i, rs2) -> forall rs1, rs <> bytes "MANIFEST-" ++ rs1.
Proof. intros Hs rs1 ->. discriminate Hs. Qed.

Lemma suffixKind_inv suf ty :
  suffixKind suf = Some ty ->
  suf <> [] /\ Forall (fun r => negb (isSpace r) = true) suf.
Proof.
  unfold suffixKind, wordIs. repeat case_bool_decide; simpl; try done;
    intros _; subst suf; (split; [done | by repeat constructor]).
Qed.

Lemma blank_not_digit r : isBlank r = true -> isDigit r = false.
Proof.
  intros [Hs _]%isBlank_iff.
  destruct (isDigit r) eqn:Hd; [|done].
  apply isDigit_not_space in Hd. congruence.
Qed.

Lemma fsParseName_sound rs fd :
  parsesTo rs fd ->
  (let '(vals1, err1) := doScanf fmtNumTail rs [] in
   let num1 := storedNum vals1 0 in
   let tail := storedTail vals1 [] in
   match err1 with
   | None =>
       if wordIs tail "log" then (mkFileDesc TypeJournal num1, true)
       else if wordIs tail "ldb" || wordIs tail "sst"
       then (mkFileDesc TypeTable num1, true)
       else if wordIs tail "tmp" then (mkFileDesc TypeTemp num1, true)
       else (mkFileDesc 0 num1, false)
   | Some _ =>
       let '(vals2, _) := doScanf fmtManifest rs [] in
       let num2 := storedNum vals2 num1 in
       if (length vals2 =? 1)%nat then (mkFileDesc TypeManifest num2, true)
       else (mkFileDesc 0 num2, false)
   end) = (fd, true).
Proof.
  destruct 1 as [sp1 sg ds sp2 suf rest ty Hsp1 Hsg Hne Hds H64 Hsp2 Hsuf Hrest
                |sp1 sg ds sp2 rest Hsp1 Hsg Hne Hds H64 Hsp2 Hrest].
  - destruct (suffixKind_inv _ _ Hsuf) as [Hsne Hsns].
    rewrite doScanf_fmtNumTail.
    rewrite scanInt_signed by done.
    apply int64b_iff in H64. rewrite H64. rewrite Z.eqb_refl.
    rewrite convertString_blanks by done.
    cbn [storedNum storedTail lookup list_lookup].
    unfold suffixKind in Hsuf.
    destruct (wordIs suf "log"); [by injection Hsuf as <-|].
    destruct (wordIs suf "ldb" || wordIs suf "sst"); [by injection Hsuf as <-|].
    destruct (wordIs suf "tmp"); [by injection Hsuf as <-|done].
  - rewrite doScanf_fmtManifest_ok.
    change (doScanf fmtNumTail (bytes "MANIFEST-" ++ sp1 ++ sg ++ ds ++ sp2 ++ rest) [])
      with (@nil scanVal, Some ScanExpectedInteger).
    assert (stopsAt isDigit (sp2 ++ rest)) as Hst.
    { destruct Hsp2 as [|r sp2 Hr Hsp2].
      - destruct rest as [|r rest]; [done|]. simpl in *. by subst r.
      - simpl. by apply blank_not_digit. }
    rewrite scanInt_signed by done.
    apply int64b_iff in H64. rewrite H64.
    destruct (convertString_fails sp2 rest Hsp2 Hrest) as [e ->].
    reflexivity.
Qed.

Lemma fsParseName_complete rs fd :
  (let '(vals1, err1) := doScanf fmtNumTail rs [] in
   let num1 := storedNum vals1 0 in
   let tail := storedTail vals1 [] in
   match err1 with
   | None =>
       if wordIs tail "log" then (mkFileDesc TypeJournal num1, true)
       else if wordIs tail "ldb" || wordIs tail "sst"
       then (mkFileDesc TypeTable num1, true)
       else if wordIs tail "tmp" then (mkFileDesc TypeTemp num1, true)
       else (mkFileDesc 0 num1, false)
   | Some _ =>
       let '(vals2, _) := doScanf fmtManifest rs [] in
       let num2 := storedNum vals2 num1 in
       if (length vals2 =? 1)%nat then (mkFileDesc TypeManifest num2, true)
       else (mkFileDesc 0 num2, false)
   end) = (fd, true) ->
  parsesTo rs fd.
Proof.
  rewrite doScanf_fmtNumTail.
  destruct (scanInt rs) as [e|[i rs2]] eqn:Hsi.
  - (* no number at the front: only the manifest form is left *)
    destruct (stripPrefix (bytes "MANIFEST-") rs) as [rs1|] eqn:Hp.
    + apply stripPrefix_Some in Hp as ->. rewrite doScanf_fmtManifest_ok.
      destruct (scanInt rs1) as [e1|[i1 rs3]] eqn:Hs1; [done|].
      destruct (convertString rs3) as [e2|[w rs4]] eqn:Hc; [|done].
      intros [= <-].
      apply scanInt_inv in Hs1
        as (sp1 & sg & ds & -> & Hsp1 & Hsg & Hne & Hds & -> & H64 & _).
      apply convertString_inl_inv in Hc as (sp2 & rest & -> & Hsp2 & Hrest).
      by constructor.
    + destruct (doScanf_fmtManifest_no rs (stripPrefix_None _ _ Hp)) as [e' ->].
      done.
  - pose proof (doScanf_fmtManifest_no rs (scanInt_not_manifest _ _ _ Hsi))
      as [e' Hman].
    destruct rs2 as [|r rs3]; [by rewrite Hman|].
    destruct (Z.eqb_spec r 46) as [->|Hr]; [|by rewrite Hman].
    destruct (convertString rs3) as [e2|[w rs4]] eqn:Hc; [by rewrite Hman|].
    cbn [storedNum storedTail lookup list_lookup].
    intros Hres.
    assert (exists ty, suffixKind w = Some ty /\ fd = mkFileDesc ty i)
      as (ty & Hty & ->).
    { unfold suffixKind.
      destruct (wordIs w "log"); [injection Hres as <-; by eexists|].
      destruct (wordIs w "ldb" || wordIs w "sst");
        [injection Hres as <-; by eexists|].
      destruct (wordIs w "tmp"); [injection Hres as <-; by eexists|done]. }
    apply scanInt_inv in Hsi
      as (sp1 & sg & ds & -> & Hsp1 & Hsg & Hne & Hds & -> & H64 & _).
    apply convertString_inv in Hc as (sp2 & -> & Hsp2 & _ & _ & Hrest).
    by constructor.
Qed.

(** C6, as the code has it.  [fsParseName] takes a name for an identifier
    exactly when the runes it scans have one of two shapes: blanks, an
    optional sign, digits that with the sign fit [int64], a dot, blanks,
    one of the suffixes [log], [ldb], [sst], [tmp], then the end or a
    space and anything; or [MANIFEST-], blanks, an optional sign, such
    digits, blanks, then the end or a newline and anything.  The
    identifier has the suffix's kind (Manifest in the second shape) and the
    signed number. *)
Theorem fsParseName_accepts (name : string) (fd : FileDesc) :
  fsParseName name = (fd, true) <-> parsesTo (scanned name) fd.
Proof.
  unfold fsParseName, Sscanf. split.
  - apply fsParseName_complete.
  - apply fsParseName_sound.
Qed.

(** C6, the claim as stated fails: the name [-5.log] is none of the two
    forms of the specification, and the parser takes it for the Journal
    identifier numbered minus five. *)
Lemma fsParseName_not_exact :
  specIdentifier "-5.log" = false
  /\ fsParseName "-5.log" = (mkFileDesc TypeJournal (-5), true).
Proof. split; reflexivity. Qed.

(* ===================================================================== *)
(** ** The operational log touches nothing but [LOG] and [LOG.old]        *)
(* ===================================================================== *)

Lemma sameCore_refl st : sameCore st st.
Proof. by repeat split. Qed.

Lemma sameCore_trans a b c : sameCore a b -> sameCore b c -> sameCore a c.
Proof.
  unfold sameCore. intros (?&?&?&?&?&?) (?&?&?&?&?&?).
  repeat split; congruence.
Qed.

Lemma sameOffLog_refl w : sameOffLog w w.
Proof. by intros name _ _. Qed.

Lemma sameOffLog_trans a b c : sameOffLog a b -> sameOffLog b c -> sameOffLog a c.
Proof. intros H1 H2 name Hl Ho. by rewrite H2, H1. Qed.

Lemma logFrame_refl st : logFrame st st.
Proof. split; [apply sameCore_refl | apply sameOffLog_refl]. Qed.

Lemma logFrame_trans a b c : logFrame a b -> logFrame b c -> logFrame a c.
Proof.
  intros [? ?] [? ?]. split;
    [by eapply sameCore_trans | by eapply sameOffLog_trans].
Qed.

Lemma osWriteAt_LOG off data w :
  sameOffLog w (osWriteAt LOG off data w)
  /\ flock (osWriteAt LOG off data w) = flock w.
Proof.
  unfold osWriteAt.
  destruct (files w !! LOG) as [[c|e]|]; try done.
  split; [|done]. intros name Hl Ho. simpl. by rewrite lookup_insert_ne.
Qed.

Lemma logWrite_frame data st : logFrame st (logWrite data st).
Proof.
  unfold logWrite. destruct (logw (fs st)); [|apply logFrame_refl].
  destruct (osWriteAt_LOG n data (world st)) as [Hf Hl].
  by repeat split.
Qed.

Lemma printDay_frame t st : logFrame st (printDay t st).
Proof.
  unfold printDay. destruct (day (fs st) =? tDay t); [apply logFrame_refl|].
  eapply logFrame_trans; [|apply logWrite_frame].
  by repeat split.
Qed.

Lemma rename_log_files w :
  sameOffLog w (rename LOG LOG_old w).2
  /\ flock (rename LOG LOG_old w).2 = flock w.
Proof.
  unfold rename.
  destruct (files w !! LOG_old) as [[?|?]|], (files w !! LOG) as [[?|?]|];
    try done; rewrite bool_decide_eq_false_2 by done;
    (split; [|done]); intros name Hl Ho; simpl;
    by rewrite lookup_insert_ne, lookup_delete_ne.
Qed.

Lemma osOpenWrite_log_files w :
  sameOffLog w (osOpenWrite LOG w).2 /\ flock (osOpenWrite LOG w).2 = flock w.
Proof.
  unfold osOpenWrite.
  destruct (files w !! LOG) as [[c|e]|]; simpl; try done.
  split; [|done]. intros name Hl Ho. simpl. by rewrite lookup_insert_ne.
Qed.

(** The tail of [doLog], from the point where the log file is open. *)
Lemma doLog_tail_frame t s st :
  logFrame st
    (let st4 := logWrite (logLine t s) (printDay t st) in
     setFS (setLog (logw (fs st4))
                   (wrap64 (logSize (fs st4)
                            + Z.of_nat (String.length (logLine t s))))
                   (fs st4)) st4).
Proof.
  eapply logFrame_trans; [apply printDay_frame|].
  eapply logFrame_trans; [apply logWrite_frame|].
  by repeat split.
Qed.

Lemma doLog_open_frame t s st :
  logFrame st
    (match
       match logw (fs st) with
       | Some _ => inr st
       | None =>
           match osOpenWrite LOG (world st) with
           | (inl _, w) => inl (setWorld w st)
           | (inr _, w) =>
               inr (mkState w
                      (setDay 0 (setLog (Some 0%nat) (logSize (fs st)) (fs st)))
                      (wraps st))
           end
       end
     with
     | inl st2 => st2
     | inr st2 =>
         let st3 := printDay t st2 in
         let line := logLine t s in
         let st4 := logWrite line st3 in
         setFS (setLog (logw (fs st4))
                       (wrap64 (logSize (fs st4) + Z.of_nat (String.length line)))
                       (fs st4)) st4
     end).
Proof.
  destruct (logw (fs st)) as [off|]; [apply doLog_tail_frame|].
  destruct (osOpenWrite_log_files (world st)) as [Hf Hl].
  destruct (osOpenWrite LOG (world st)) as [[e|sz] w2]; simpl in Hf, Hl.
  - by repeat split.
  - eapply logFrame_trans; [|apply doLog_tail_frame].
    by repeat split.
Qed.

Lemma doLog_frame t s st : logFrame st (doLog t s st).
Proof.
  unfold doLog.
  destruct (logSizeThreshold <? logSize (fs st)); [|apply doLog_open_frame].
  set (st1 := setFS (setLog None 0 (fs st)) st).
  destruct (rename_log_files (world st1)) as [Hf Hl].
  destruct (rename LOG LOG_old (world st1)) as [[e|] w]; simpl in Hf, Hl.
  - by repeat split.
  - eapply logFrame_trans; [|apply doLog_open_frame].
    by repeat split.
Qed.

Lemma logNoLock_frame s st : logFrame st (logNoLock s st).
Proof.
  unfold logNoLock. destruct (negb (readOnly (fs st))); [|apply logFrame_refl].
  simpl. eapply logFrame_trans; [|apply doLog_frame].
  by repeat split.
Qed.

(** A read-only storage writes no log. *)
Lemma logNoLock_readOnly s st : readOnly (fs st) = true -> logNoLock s st = st.
Proof. unfold logNoLock. by intros ->. Qed.

Lemma Log_readOnly s st : readOnly (fs st) = true -> Log s st = st.
Proof. unfold Log. by intros ->. Qed.

Lemma Log_frame s st : logFrame st (Log s st).
Proof.
  unfold Log. destruct (negb (readOnly (fs st))); [|apply logFrame_refl].
  simpl. destruct (open (fs st) <? 0); [by repeat split|].
  eapply logFrame_trans; [|apply doLog_frame].
  by repeat split.
Qed.

(* ===================================================================== *)
(** ** Publication: [setMeta] and [SetMeta]                               *)
(* ===================================================================== *)

Lemma FileDescOk_genName fd :
  FileDescOk fd = true -> exists name, fsGenName fd = Some name.
Proof.
  intros [Hty _]%FileDescOk_inv. unfold fsGenName.
  destruct Hty as [-> | [-> | [-> | ->]]]; by eexists.
Qed.

Lemma append_empty_r s : s +:+ "" = s.
Proof.
  induction s as [|c s IH]; [done|].
  change (String c s +:+ "") with (String c (s +:+ "")). by rewrite IH.
Qed.

Lemma dropStr_empty n : dropStr n "" = "".
Proof. unfold dropStr. by destruct n. Qed.

Lemma osWriteAt_fresh name data w :
  files w !! name = Some (File "") ->
  osWriteAt name 0 data w =
    emit (SysWrite name data) (setFiles (<[name := File data]> (files w)) w).
Proof.
  intros H. unfold osWriteAt. rewrite H.
  replace (takeStr 0 "" +:+ string_of_list_ascii (replicate (0 - String.length "") zero)
           +:+ data +:+ dropStr (0 + String.length data) "") with data; [done|].
  rewrite dropStr_empty. simpl. by rewrite append_empty_r.
Qed.

(** A write that succeeds leaves the data in the file, by one creation and
    one write. *)
Lemma writeFileSynced_ok name data w w' :
  writeFileSynced name data w = (None, w') ->
  w' = mkWorld (<[name := File data]> (files w)) (flock w) (clock w)
               (SysWrite name data :: SysCreate name :: trace w).
Proof.
  unfold writeFileSynced, osCreateTrunc.
  destruct (files w !! name) as [[c|e]|] eqn:Hn; try done;
    (rewrite osWriteAt_fresh by (simpl; apply lookup_insert_eq));
    intros [= <-]; simpl; by rewrite insert_insert_eq.
Qed.

Lemma writeFileSynced_err name data w e w' :
  writeFileSynced name data w = (Some e, w') -> w' = w /\ osError e.
Proof.
  unfold writeFileSynced, osCreateTrunc.
  destruct (files w !! name) as [[c|d]|] eqn:Hn; try done.
  by intros [= <- <-].
Qed.

Lemma rename_err old new w e w' :
  rename old new w = (Some e, w') -> w' = w /\ osError e.
Proof.
  unfold rename.
  destruct (files w !! new) as [[?|?]|], (files w !! old) as [[?|?]|];
    repeat case_bool_decide; try done; by intros [= <- <-].
Qed.

Lemma rename_ok_file old new content w w' :
  old <> new -> files w !! old = Some (File content) ->
  rename old new w = (None, w') ->
  w' = mkWorld (<[new := File content]> (delete old (files w))) (flock w)
               (clock w) (SysRename old new :: trace w).
Proof.
  intros Hne Hold. unfold rename. rewrite Hold.
  destruct (files w !! new) as [[?|?]|]; try done;
    rewrite bool_decide_eq_false_2 by done; by intros [= <-].
Qed.

Lemma pendingPath_not_CURRENT fd : pendingPath fd <> CURRENT.
Proof. unfold pendingPath, CURRENT. simpl. discriminate. Qed.

(** The two ways [setMeta] succeeds: the pointer is already there and
    nothing happens, or it is written to the pending file, which is then
    renamed over [CURRENT]. *)
Lemma setMeta_ok errText fd name st st' :
  fsGenName fd = Some name ->
  setMeta errText fd st = (None, st') ->
  (files (world st) !! CURRENT = Some (File (name +:+ nl)) /\ st' = st)
  \/ (files (world st) !! CURRENT <> Some (File (name +:+ nl))
      /\ st' = setWorld
                 (mkWorld (<[CURRENT := File (name +:+ nl)]>
                             (delete (pendingPath fd)
                                (<[pendingPath fd := File (name +:+ nl)]>
                                   (files (world st)))))
                          (flock (world st)) (clock (world st))
                          (SysRename (pendingPath fd) CURRENT
                           :: SysWrite (pendingPath fd) (name +:+ nl)
                           :: SysCreate (pendingPath fd)
                           :: trace (world st)))
                 st).
Proof.
  intros Hname. unfold setMeta. rewrite Hname.
  fold (pendingPath fd).
  assert (forall r : option error * State,
    match writeFileSynced (pendingPath fd) (name +:+ nl) (world st) with
    | (Some e, w) =>
        (Some e,
         logNoLock ("create CURRENT." +:+ fmtD (Num fd) +:+ ": " +:+ errText e)
                   (setWorld w st))
    | (None, w) =>
        match rename (pendingPath fd) CURRENT w with
        | (Some e, w1) =>
            (Some e,
             logNoLock ("rename CURRENT." +:+ fmtD (Num fd) +:+ ": "
                        +:+ errText e) (setWorld w1 st))
        | (None, w1) =>
            match syncDir w1 with
            | Some e =>
                (Some e, logNoLock ("syncDir: " +:+ errText e) (setWorld w1 st))
            | None => (None, setWorld w1 st)
            end
        end
    end = (None, st') ->
    st' = setWorld
            (mkWorld (<[CURRENT := File (name +:+ nl)]>
                        (delete (pendingPath fd)
                           (<[pendingPath fd := File (name +:+ nl)]>
                              (files (world st)))))
                     (flock (world st)) (clock (world st))
                     (SysRename (pendingPath fd) CURRENT
                      :: SysWrite (pendingPath fd) (name +:+ nl)
                      :: SysCreate (pendingPath fd)
                      :: trace (world st)))
            st) as Hwrite.
  { intros _.
    destruct (writeFileSynced (pendingPath fd) (name +:+ nl) (world st))
      as [[e|] w] eqn:Hw; [done|].
    apply writeFileSynced_ok in Hw. subst w.
    destruct (rename (pendingPath fd) CURRENT _) as [[e|] w1] eqn:Hr; [done|].
    apply rename_ok_file with (content := name +:+ nl) in Hr;
      [| apply pendingPath_not_CURRENT | simpl; apply lookup_insert_eq].
    subst w1. simpl. by intros [= <-]. }
  unfold osStat, osReadFile.
  destruct (files (world st) !! CURRENT) as [[c|d]|] eqn:Hcur; simpl.
  - case_bool_decide as Hc.
    + intros [= <-]. left. by subst c.
    + intros H. right. split; [congruence|]. by apply (Hwrite (None, st')).
  - done.
  - intros H. right. split; [done|]. by apply (Hwrite (None, st')).
Qed.

Lemma setMeta_err_kind errText fd st e st' :
  setMeta errText fd st = (Some e, st') ->
  e = Panic \/ osError e.
Proof.
  unfold setMeta. destruct (fsGenName fd) as [name|]; [|intros [= <- _]; by left].
  intros H. right. revert H. unfold osStat, osReadFile.
  assert (forall st0,
    match writeFileSynced (CURRENT +:+ "." +:+ fmtD (Num fd)) (name +:+ nl)
            (world st0) with
    | (Some e, w) =>
        (Some e,
         logNoLock ("create CURRENT." +:+ fmtD (Num fd) +:+ ": " +:+ errText e)
                   (setWorld w st0))
    | (None, w) =>
        match rename (CURRENT +:+ "." +:+ fmtD (Num fd)) CURRENT w with
        | (Some e, w1) =>
            (Some e,
             logNoLock ("rename CURRENT." +:+ fmtD (Num fd) +:+ ": "
                        +:+ errText e) (setWorld w1 st0))
        | (None, w1) =>
            match syncDir w1 with
            | Some e =>
                (Some e, logNoLock ("syncDir: " +:+ errText e) (setWorld w1 st0))
            | None => (None, setWorld w1 st0)
            end
        end
    end = (Some e, st') -> osError e) as Hwrite.
  { intros st0.
    destruct (writeFileSynced _ _ (world st0)) as [[e0|] w] eqn:Hw.
    - apply writeFileSynced_err in Hw as (_ & He). by intros [= <- _].
    - destruct (rename _ CURRENT w) as [[e0|] w1] eqn:Hr; [|done].
      apply rename_err in Hr as (_ & He). by intros [= <- _]. }
  destruct (files (world st) !! CURRENT) as [[c|d]|]; simpl.
  - case_bool_decide; [done|]. apply Hwrite.
  - by intros [= <- _].
  - apply Hwrite.
Qed.

Lemma SetMeta_unchanged errText fd name st :
  FileDescOk fd = true -> fsGenName fd = Some name ->
  readOnly (fs st) = false -> 0 <= open (fs st) ->
  files (world st) !! CURRENT = Some (File (name +:+ nl)) ->
  SetMeta errText fd st = (None, st).
Proof.
  intros Hok Hname Hro Hop Hcur. unfold SetMeta, setMeta.
  rewrite Hok, Hro, Hname. simpl.
  destruct (Z.ltb_spec (open (fs st)) 0); [lia|].
  unfold osStat, osReadFile. rewrite Hcur.
  by rewrite bool_decide_eq_true_2.
Qed.

(** C4. [SetMeta] is idempotent at the file level.  On a read-write, open
    storage and for a valid identifier: if [CURRENT] holds the canonical
    name of the identifier and a newline, [SetMeta] succeeds and changes
    nothing, in the directory or in the list of calls made; and after a
    [SetMeta] that succeeded, the same [SetMeta] again succeeds and changes
    nothing, the first having made exactly one file write (and one
    creation and one rename) unless [CURRENT] held the pointer already. *)
Theorem SetMeta_idempotent (errText : error -> string) (fd : FileDesc)
    (name : string) (st : State) :
  FileDescOk fd = true -> fsGenName fd = Some name ->
  readOnly (fs st) = false -> 0 <= open (fs st) ->
  (files (world st) !! CURRENT = Some (File (name +:+ nl)) ->
   SetMeta errText fd st = (None, st))
  /\ (forall st1,
        SetMeta errText fd st = (None, st1) ->
        SetMeta errText fd st1 = (None, st1)
        /\ (files (world st) !! CURRENT <> Some (File (name +:+ nl)) ->
            trace (world st1) =
              SysRename (pendingPath fd) CURRENT
              :: SysWrite (pendingPath fd) (name +:+ nl)
              :: SysCreate (pendingPath fd) :: trace (world st))).
Proof.
  intros Hok Hname Hro Hop.
  split; [by apply (SetMeta_unchanged errText fd name)|].
  intros st1 Hset.
  assert (setMeta errText fd st = (None, st1)) as Hsm.
  { revert Hset. unfold SetMeta. rewrite Hok, Hro. simpl.
    by destruct (Z.ltb_spec (open (fs st)) 0); [lia|]. }
  destruct (setMeta_ok _ _ _ _ _ Hname Hsm) as [[Hcur ->]|[Hcur ->]].
  - split; [by apply (SetMeta_unchanged errText fd name) | done].
  - split; [|done].
    apply (SetMeta_unchanged errText fd name); try done.
    simpl. apply lookup_insert_eq.
Qed.

(** C10. [SetMeta] takes an identifier of any of the four kinds: on a
    read-write storage and for every valid identifier it does not return
    the invalid-file error, and when it succeeds [CURRENT] holds the
    canonical name of that identifier followed by a newline. *)
Theorem SetMeta_any_kind (errText : error -> string) (fd : FileDesc)
    (st : State) :
  FileDescOk fd = true -> readOnly (fs st) = false ->
  (SetMeta errText fd st).1 <> Some ErrInvalidFile
  /\ (forall st',
        SetMeta errText fd st = (None, st') ->
        exists name, fsGenName fd = Some name
                     /\ files (world st') !! CURRENT = Some (File (name +:+ nl))).
Proof.
  intros Hok Hro. destruct (FileDescOk_genName fd Hok) as [name Hname].
  unfold SetMeta. rewrite Hok, Hro. simpl.
  destruct (open (fs st) <? 0); [split; [done|]; by intros st' [=]|].
  split.
  - destruct (setMeta errText fd st) as [[e|] st'] eqn:Hsm; [|done].
    apply setMeta_err_kind in Hsm as [-> | He]; [done|]. by intros [= ->].
  - intros st' Hsm. exists name. split; [done|].
    destruct (setMeta_ok _ _ _ _ _ Hname Hsm) as [[Hcur ->]|[Hcur ->]];
      [done|]. simpl. apply lookup_insert_eq.
Qed.

(* ===================================================================== *)
(** ** The bookkeeping of the storage under its operations                *)
(* ===================================================================== *)

Lemma counts_logNoLock s st : counts (logNoLock s st) = counts st.
Proof.
  destruct (logNoLock_frame s st) as [(Hr & Ho & _ & _ & Hw & _) _].
  unfold counts. by rewrite Hr, Ho, Hw.
Qed.

Lemma counts_Log s st : counts (Log s st) = counts st.
Proof.
  destruct (Log_frame s st) as [(Hr & Ho & _ & _ & Hw & _) _].
  unfold counts. by rewrite Hr, Ho, Hw.
Qed.

Lemma counts_setWorld w st : counts (setWorld w st) = counts st.
Proof. reflexivity. Qed.

Ltac counts_done :=
  simplify_eq; cbn [fst snd];
  rewrite ?counts_logNoLock, ?counts_setWorld;
  try reflexivity; try (unfold counts; simpl; congruence).

Section Bookkeeping.

Variable quote : string -> string.
Variable errText : error -> string.

Lemma counts_setMeta fd st : counts (setMeta errText fd st).2 = counts st.
Proof.
  unfold setMeta. repeat case_match; by counts_done.
Qed.

Lemma counts_SetMeta fd st : counts (SetMeta errText fd st).2 = counts st.
Proof.
  unfold SetMeta. repeat case_match; simpl; try done. apply counts_setMeta.
Qed.

Lemma counts_tryCurrent name st :
  counts (tryCurrent quote name st).2 = counts st.
Proof.
  unfold tryCurrent. repeat case_match; by counts_done.
Qed.

Lemma counts_tryCurrentsLoop names last st :
  counts (tryCurrentsLoop quote names last st).2 = counts st.
Proof.
  revert last st. induction names as [|name names IH]; intros last st; [done|].
  cbn [tryCurrentsLoop].
  pose proof (counts_tryCurrent name st) as Ht.
  destruct (tryCurrent quote name st) as [[e|c] st1]; simpl in Ht; [|done].
  repeat case_match; simpl; rewrite ?IH; done.
Qed.

Lemma counts_tryCurrents names st :
  counts (tryCurrents quote names st).2 = counts st.
Proof.
  unfold tryCurrents.
  pose proof (counts_tryCurrentsLoop names None st) as Ht.
  destruct (tryCurrentsLoop quote names None st) as [[e|[[c|] l]] st1]; done.
Qed.

Lemma counts_removePending names st :
  counts (removePending errText names st) = counts st.
Proof.
  revert st. induction names as [|name names IH]; intros st; [done|].
  cbn [removePending]. repeat case_match; rewrite IH; by counts_done.
Qed.

Lemma counts_GetMeta st : counts (GetMeta quote errText st).2 = counts st.
Proof.
  unfold GetMeta. destruct (open (fs st) <? 0); [done|].
  set (pn := pendingNames (Readdirnames (world st))).
  assert (counts (match pn with
                  | [] => (inl ErrNotExist, st)
                  | _ => tryCurrents quote pn st
                  end).2 = counts st) as Hp.
  { destruct pn; [done|]. apply counts_tryCurrents. }
  destruct (match pn with [] => _ | _ => _ end) as [pend st1]. simpl in Hp.
  destruct (abortErr pend); [done|].
  pose proof (counts_tryCurrents [CURRENT; CURRENT_bak] st1) as Hc.
  destruct (tryCurrents quote [CURRENT; CURRENT_bak] st1) as [cur st2].
  simpl in Hc. rewrite Hp in Hc.
  destruct (abortErr cur); [done|].
  destruct (pickCurrent (curOf pend) (curOf cur)) as [sel|].
  - destruct (negb (readOnly (fs st2)) && _); [|done].
    pose proof (counts_setMeta (cf_fd sel) st2) as Hs.
    destruct (setMeta errText (cf_fd sel) st2) as [[e|] st3]; simpl in *.
    + congruence.
    + rewrite counts_removePending. congruence.
  - repeat case_match; done.
Qed.

Lemma counts_Remove fd st : counts (Remove errText fd st).2 = counts st.
Proof.
  unfold Remove. repeat case_match; by counts_done.
Qed.

Lemma counts_Rename o n st : counts (Rename o n st).2 = counts st.
Proof.
  unfold Rename. repeat case_match; by counts_done.
Qed.

Lemma counts_Lock st : counts (Lock st).2 = counts st.
Proof. unfold Lock. repeat case_match; by counts_done. Qed.

Lemma counts_Unlock l st : counts (Unlock l st) = counts st.
Proof. unfold Unlock. repeat case_match; by counts_done. Qed.

Lemma counts_Sync i st : counts (fileWrap_Sync errText i st).2 = counts st.
Proof. unfold fileWrap_Sync. repeat case_match; by counts_done. Qed.

End Bookkeeping.

(* ===================================================================== *)
(** ** The count of open files                                            *)
(* ===================================================================== *)

Lemma unclosed_bounds ws : 0 <= unclosed ws <= Z.of_nat (length ws).
Proof.
  induction ws as [|fw ws IH]; simpl; [lia|]. destruct (fw_closed fw); lia.
Qed.

Lemma unclosed_app ws fd : unclosed (ws ++ [mkWrap fd false]) = unclosed ws + 1.
Proof. induction ws as [|fw ws IH]; simpl; [done|]. rewrite IH. lia. Qed.

Lemma unclosed_close ws i fw :
  ws !! i = Some fw -> fw_closed fw = false ->
  unclosed (<[i := mkWrap (fw_fd fw) true]> ws) = unclosed ws - 1.
Proof.
  revert i. induction ws as [|x ws IH]; intros i Hi Hc; [done|].
  destruct i as [|i]; simpl in *.
  - injection Hi as ->. rewrite Hc. lia.
  - rewrite (IH i) by done. lia.
Qed.

Lemma wrap64_id z : - 2 ^ 63 <= z < 2 ^ 63 -> wrap64 z = z.
Proof.
  intros Hz. unfold wrap64. rewrite Z.mod_small; lia.
Qed.

Section OpenCount.

Variable quote : string -> string.
Variable errText : error -> string.


(** What one call does to the mode, the count and the handles. *)
Lemma step_counts o st :
  readOnly (fs (step quote errText o st).2) = readOnly (fs st)
  /\ match o with
     | OpOpen fd | OpCreate fd =>
         counts (step quote errText o st).2 = counts st
         \/ ((step quote errText o st).1 = None
             /\ 0 <= open (fs st)
             /\ open (fs (step quote errText o st).2) = wrap64 (open (fs st) + 1)
             /\ wraps (step quote errText o st).2 = wraps st ++ [mkWrap fd false])
     | OpClose =>
         (open (fs st) < 0 /\ (step quote errText o st).1 = Some ErrClosed
          /\ counts (step quote errText o st).2 = counts st)
         \/ (0 <= open (fs st) /\ (step quote errText o st).1 = None
             /\ open (fs (step quote errText o st).2) = -1
             /\ wraps (step quote errText o st).2 = wraps st)
     | OpFileClose i =>
         counts (step quote errText o st).2 = counts st
         \/ exists fw, wraps st !! i = Some fw /\ fw_closed fw = false
                       /\ open (fs (step quote errText o st).2) = wrap64 (open (fs st) - 1)
                       /\ wraps (step quote errText o st).2
                          = <[i := mkWrap (fw_fd fw) true]> (wraps st)
     | _ => counts (step quote errText o st).2 = counts st
     end.
Proof.
  assert (forall st', counts st' = counts st ->
                      readOnly (fs st') = readOnly (fs st)) as Hro.
  { intros st'. unfold counts. congruence. }
  destruct o as [| l | s | fd | | ft | fd | fd | fd | o n | | i | i];
    cbn [step].
  - pose proof (counts_Lock st). destruct (Lock st). simpl in *. auto.
  - pose proof (counts_Unlock l st). simpl. auto.
  - pose proof (counts_Log s st). simpl. auto.
  - pose proof (counts_SetMeta errText fd st). auto.
  - pose proof (counts_GetMeta quote errText st).
    destruct (GetMeta quote errText st). simpl in *. auto.
  - simpl. auto.
  - unfold Open.
    destruct (negb (FileDescOk fd)); [simpl; auto|].
    destruct (Z.ltb_spec (open (fs st)) 0); [simpl; auto|].
    destruct (fsGenName fd), (fsGenOldName fd); try (simpl; by auto).
    match goal with |- context [match ?x with Some _ => _ | None => _ end] =>
      destruct x end; simpl; [auto|].
    split; [done|]. right. by repeat split.
  - unfold Create.
    destruct (negb (FileDescOk fd)); [simpl; auto|].
    destruct (readOnly (fs st)) eqn:Hr; [simpl; auto|].
    destruct (Z.ltb_spec (open (fs st)) 0); [simpl; auto|].
    destruct (fsGenName fd); [|simpl; by auto].
    destruct (osCreateTrunc s (world st)) as [[e|] w]; simpl; [auto|].
    split; [done|]. right. by repeat split.
  - pose proof (counts_Remove errText fd st). auto.
  - pose proof (counts_Rename o n st). auto.
  - unfold Close. destruct (Z.ltb_spec (open (fs st)) 0).
    + simpl. split; [done|]. left. by repeat split.
    + split.
      * simpl. destruct (0 <? open (fs st)); [|done].
        by destruct (logNoLock_frame
          ("close: warning, " +:+ fmtD (open (fs st)) +:+ " files still open") st)
          as [(?&_) _].
      * right. repeat split; try done. simpl.
        destruct (0 <? open (fs st)); [|done].
        by destruct (logNoLock_frame
          ("close: warning, " +:+ fmtD (open (fs st)) +:+ " files still open") st)
          as [(_&_&_&_&?&_) _].
  - unfold fileWrap_Close. destruct (wraps st !! i) as [fw|] eqn:Hi;
      [|simpl; auto].
    destruct (fw_closed fw) eqn:Hc; [simpl; auto|].
    simpl. split; [done|]. right. exists fw. by repeat split.
  - pose proof (counts_Sync errText i st). auto.
Qed.

Lemma step_countInv c k o st :
  0 <= k -> k + 1 < 2 ^ 63 - 1 ->
  countInv c k st -> countInv (c || isClose o) (k + 1) (step quote errText o st).2.
Proof.
  intros Hk0 Hk Hinv.
  assert (forall st', counts st' = counts st ->
                      countInv c (k + 1) st') as Hsame.
  { intros st' [= Hr Ho Hw]. unfold countInv in *. rewrite Ho, Hw.
    destruct c; lia. }
  destruct (step_counts o st) as [_ Hstep].
  pose proof (unclosed_bounds (wraps st)) as Hub.
  destruct o; simpl isClose; rewrite ?orb_false_r; try (by apply Hsame).
  - (* Open *)
    destruct Hstep as [Hs|(_ & Hop & Ho & Hw)]; [by apply Hsame|].
    unfold countInv in *. destruct c; [lia|]. destruct Hinv as [Hio Hil].
    rewrite Ho, Hw, unclosed_app, length_app. simpl.
    rewrite wrap64_id by lia. lia.
  - (* Create *)
    destruct Hstep as [Hs|(_ & Hop & Ho & Hw)]; [by apply Hsame|].
    unfold countInv in *. destruct c; [lia|]. destruct Hinv as [Hio Hil].
    rewrite Ho, Hw, unclosed_app, length_app. simpl.
    rewrite wrap64_id by lia. lia.
  - (* Close *)
    rewrite orb_true_r.
    destruct Hstep as [(Hneg & _ & Hs)|(Hpos & _ & Ho & Hw)].
    + destruct c; [by apply Hsame | unfold countInv in Hinv; lia].
    + unfold countInv. rewrite Ho. lia.
  - (* fileWrap.Close *)
    destruct Hstep as [Hs|(fw & Hi & Hc & Ho & Hw)]; [by apply Hsame|].
    unfold countInv in *. rewrite Ho, Hw. destruct c.
    + rewrite wrap64_id by lia. lia.
    + destruct Hinv as [Hio Hil].
      pose proof (unclosed_close _ _ _ Hi Hc) as Hun.
      pose proof (unclosed_bounds (<[i := mkWrap (fw_fd fw) true]> (wraps st))).
      rewrite length_insert, Hun. rewrite wrap64_id by lia. lia.
Qed.

Lemma run_countInv ops : forall c k st,
  0 <= k -> k + Z.of_nat (length ops) < 2 ^ 63 - 1 ->
  countInv c k st ->
  countInv (c || existsb isClose ops) (k + Z.of_nat (length ops)) (run quote errText ops st).
Proof.
  induction ops as [|o ops IH]; intros c k st Hk0 Hk Hinv.
  - simpl. by rewrite orb_false_r, Z.add_0_r.
  - cbn [length existsb] in *. unfold run. cbn [fold_left].
    fold (run quote errText ops (step quote errText o st).2).
    replace (k + Z.of_nat (S (length ops)))
      with ((k + 1) + Z.of_nat (length ops)) by lia.
    rewrite orb_assoc. apply IH; [lia | lia |].
    apply step_countInv; [lia | lia | done].
Qed.

Lemma existsb_isClose ops : existsb isClose ops = true <-> OpClose ∈ ops.
Proof.
  rewrite existsb_exists. split.
  - intros (o & Hin & Ho). destruct o; try done. by apply list_elem_of_In.
  - intros Hin. exists OpClose. split; [by apply list_elem_of_In | done].
Qed.

(** What every call returns on a closed storage. *)
Lemma closed_results st :
  open (fs st) < 0 ->
  (Lock st).1 = inl ErrClosed
  /\ (GetMeta quote errText st).1 = inl ErrClosed
  /\ (forall ft, List ft st = inl ErrClosed)
  /\ (Close st).1 = Some ErrClosed
  /\ (forall fd, FileDescOk fd = true -> (Open fd st).1 = inl ErrClosed)
  /\ (forall fd, FileDescOk fd = true ->
        (SetMeta errText fd st).1
          = Some (if readOnly (fs st) then errReadOnly else ErrClosed)
        /\ (Create fd st).1
          = inl (if readOnly (fs st) then errReadOnly else ErrClosed))
  /\ (forall fd, FileDescOk fd = true ->
        (Remove errText fd st).1
          = Some (if readOnly (fs st) then ErrClosed else errReadOnly))
  /\ (forall oldfd newfd,
        FileDescOk oldfd = true -> FileDescOk newfd = true ->
        (Rename oldfd newfd st).1
          = if bool_decide (oldfd = newfd) then None
            else Some (if readOnly (fs st) then ErrClosed else errReadOnly)).
Proof.
  intros Hneg.
  assert ((open (fs st) <? 0) = true) as Hlt by lia.
  unfold Lock, GetMeta, List, Close, Open, SetMeta, Create, Remove, Rename.
  rewrite Hlt. repeat split; try done.
  - intros fd ->. done.
  - rewrite H. simpl. by destruct (readOnly (fs st)).
  - rewrite H. simpl. by destruct (readOnly (fs st)).
  - intros fd ->. simpl. by destruct (readOnly (fs st)).
  - intros o n -> ->. simpl. case_bool_decide; [done|].
    by destruct (readOnly (fs st)).
Qed.

(** C9, as the code has it.  From a storage just opened and through any
    sequence of calls on it and on its file handles: as long as the
    storage was not closed the count is not negative; once [Close] was
    called it is negative, no call increments it, and [Open] and [Create]
    return an error, the closed error for a valid identifier ([Create]: on
    a read-write storage). *)
Theorem open_count_invariant (ops : list op) (st0 : State) :
  open (fs st0) = 0 -> wraps st0 = [] ->
  Z.of_nat (length ops) < 2 ^ 63 - 1 ->
  (OpClose ∉ ops -> 0 <= open (fs (run quote errText ops st0)))
  /\ (OpClose ∈ ops -> open (fs (run quote errText ops st0)) < 0)
  /\ (open (fs (run quote errText ops st0)) < 0 ->
      forall o,
        open (fs (step quote errText o (run quote errText ops st0)).2) <= open (fs (run quote errText ops st0))
        /\ (forall fd, o = OpOpen fd \/ o = OpCreate fd ->
                       (step quote errText o (run quote errText ops st0)).1 <> None)
        /\ (forall fd, FileDescOk fd = true ->
                       (Open fd (run quote errText ops st0)).1 = inl ErrClosed)
        /\ (forall fd, FileDescOk fd = true ->
                       readOnly (fs (run quote errText ops st0)) = false ->
                       (Create fd (run quote errText ops st0)).1 = inl ErrClosed)).
Proof.
  intros Hopen Hwraps Hlen.
  assert (countInv false 0 st0) as Hinv0.
  { unfold countInv. rewrite Hopen, Hwraps. simpl. lia. }
  pose proof (run_countInv ops false 0 st0 ltac:(lia) ltac:(lia) Hinv0) as Hinv.
  simpl in Hinv.
  set (st := run quote errText ops st0) in *.
  pose proof (unclosed_bounds (wraps st)) as Hub.
  split; [|split].
  - intros Hno. destruct (existsb isClose ops) eqn:Hex.
    + apply existsb_isClose in Hex. done.
    + unfold countInv in Hinv. lia.
  - intros Hin. apply existsb_isClose in Hin. rewrite Hin in Hinv.
    unfold countInv in Hinv. lia.
  - intros Hneg o.
    assert (- 1 - Z.of_nat (length ops) <= open (fs st) < 0) as Hrange.
    { destruct (existsb isClose ops); unfold countInv in Hinv; lia. }
    destruct (closed_results st Hneg)
      as (_ & _ & _ & _ & HOpen & HCreate & _).
    split; [|split; [|split]].
    + destruct (step_counts o st) as [_ Hstep].
      assert (forall s', counts s' = counts st -> open (fs s') <= open (fs st))
        as Hsame.
      { intros s' [= _ Ho _]. lia. }
      destruct o; try (by apply Hsame).
      * destruct Hstep as [Hs|(_ & Hpos & _)]; [by apply Hsame | lia].
      * destruct Hstep as [Hs|(_ & Hpos & _)]; [by apply Hsame | lia].
      * destruct Hstep as [(_ & _ & Hs)|(Hpos & _)]; [by apply Hsame | lia].
      * destruct Hstep as [Hs|(fw & _ & _ & Ho & _)]; [by apply Hsame|].
        rewrite Ho. rewrite wrap64_id by lia. lia.
    + intros fd [-> | ->].
      * cbn [step]. unfold Open.
        assert ((open (fs st) <? 0) = true) as -> by lia.
        by destruct (negb (FileDescOk fd)).
      * cbn [step]. unfold Create.
        assert ((open (fs st) <? 0) = true) as -> by lia.
        destruct (negb (FileDescOk fd)); [done|].
        by destruct (readOnly (fs st)).
    + exact HOpen.
    + intros fd Hok Hro. destruct (HCreate fd Hok) as [_ Hc].
      by rewrite Hro in Hc.
Qed.

(** C3, as the code has it.  After a [Close] that succeeded and whatever
    calls follow it: [Lock], [GetMeta], [List] and [Close] return the
    closed error; with valid identifiers [Open] returns it, [SetMeta] and
    [Create] return it on a read-write storage and the read-only error on
    a read-only one, [Remove] and [Rename] return it or the read-only
    error; [Rename] of an identifier to itself returns no error. *)
Theorem closed_storage_refuses (st st' : State) (ops : list op) :
  Close st = (None, st') ->
  Z.of_nat (length ops) < 2 ^ 63 - 2 ->
  (Lock (run quote errText ops st')).1 = inl ErrClosed
  /\ (GetMeta quote errText (run quote errText ops st')).1 = inl ErrClosed
  /\ (forall ft, List ft (run quote errText ops st') = inl ErrClosed)
  /\ (Close (run quote errText ops st')).1 = Some ErrClosed
  /\ (forall fd, FileDescOk fd = true ->
        (Open fd (run quote errText ops st')).1 = inl ErrClosed)
  /\ (forall fd, FileDescOk fd = true ->
        (SetMeta errText fd (run quote errText ops st')).1
          = Some (if readOnly (fs st) then errReadOnly else ErrClosed)
        /\ (Create fd (run quote errText ops st')).1
          = inl (if readOnly (fs st) then errReadOnly else ErrClosed))
  /\ (forall fd, FileDescOk fd = true ->
        (Remove errText fd (run quote errText ops st')).1 = Some ErrClosed
        \/ (Remove errText fd (run quote errText ops st')).1 = Some errReadOnly)
  /\ (forall oldfd newfd,
        FileDescOk oldfd = true -> FileDescOk newfd = true ->
        oldfd <> newfd ->
        (Rename oldfd newfd (run quote errText ops st')).1 = Some ErrClosed
        \/ (Rename oldfd newfd (run quote errText ops st')).1 = Some errReadOnly)
  /\ (forall fd, FileDescOk fd = true ->
        (Rename fd fd (run quote errText ops st')).1 = None).
Proof.
  intros Hclose Hlen.
  assert (open (fs st') = -1 /\ readOnly (fs st') = readOnly (fs st))
    as [Hopen Hro'].
  { pose proof (step_counts OpClose st) as [Hr Hs]. cbn [step] in *.
    rewrite Hclose in *. simpl in *.
    destruct Hs as [(_ & [=] & _)|(_ & _ & Ho & _)]. done. }
  assert (countInv true 1 st') as Hinv1.
  { unfold countInv. lia. }
  pose proof (run_countInv ops true 1 st' ltac:(lia) ltac:(lia) Hinv1) as Hinv.
  simpl in Hinv. unfold countInv in Hinv.
  assert (readOnly (fs (run quote errText ops st')) = readOnly (fs st)) as Hro.
  { rewrite <- Hro'. clear. generalize st'.
    induction ops as [|o ops IH]; intros s; [done|].
    unfold run. cbn [fold_left].
    fold (run quote errText ops (step quote errText o s).2). rewrite IH.
    by destruct (step_counts o s) as [? _]. }
  destruct (closed_results (run quote errText ops st') ltac:(lia))
    as (HLock & HGet & HList & HClose & HOpen & HSet & HRem & HRen).
  rewrite Hro in HSet, HRem, HRen.
  repeat (split; [done|]). split; [|split].
  - intros fd Hok. rewrite (HRem fd Hok). destruct (readOnly (fs st)); auto.
  - intros o n Ho Hn Hne. rewrite (HRen o n Ho Hn).
    rewrite bool_decide_eq_false_2 by done. destruct (readOnly (fs st)); auto.
  - intros fd Hok. rewrite (HRen fd fd Hok Hok).
    by rewrite bool_decide_eq_true_2.
Qed.

End OpenCount.

(* ===================================================================== *)
(** ** A read-only storage                                                *)
(* ===================================================================== *)

Section ReadOnly.

Variable quote : string -> string.
Variable errText : error -> string.

Lemma tryCurrent_readOnly name st :
  readOnly (fs st) = true -> (tryCurrent quote name st).2 = st.
Proof.
  intros Hro. unfold tryCurrent.
  repeat case_match; simpl; rewrite ?logNoLock_readOnly; done.
Qed.

Lemma tryCurrentsLoop_readOnly names last st :
  readOnly (fs st) = true -> (tryCurrentsLoop quote names last st).2 = st.
Proof.
  intros Hro. revert last. induction names as [|name names IH]; intros last;
    [done|].
  cbn [tryCurrentsLoop].
  pose proof (tryCurrent_readOnly name st Hro) as Ht.
  destruct (tryCurrent quote name st) as [[e|c] st1]; simpl in Ht; subst st1;
    [|done].
  repeat case_match; rewrite ?IH; done.
Qed.

Lemma tryCurrents_readOnly names st :
  readOnly (fs st) = true -> (tryCurrents quote names st).2 = st.
Proof.
  intros Hro. unfold tryCurrents.
  pose proof (tryCurrentsLoop_readOnly names None st Hro) as Ht.
  destruct (tryCurrentsLoop quote names None st) as [[e|[[c|] l]] st1]; done.
Qed.

Lemma GetMeta_readOnly st :
  readOnly (fs st) = true -> (GetMeta quote errText st).2 = st.
Proof.
  intros Hro. unfold GetMeta. destruct (open (fs st) <? 0); [done|].
  set (pn := pendingNames (Readdirnames (world st))).
  assert ((match pn with
           | [] => (inl ErrNotExist, st)
           | _ => tryCurrents quote pn st
           end).2 = st) as Hp.
  { destruct pn; [done|]. by apply tryCurrents_readOnly. }
  destruct (match pn with [] => _ | _ => _ end) as [pend st1].
  simpl in Hp. subst st1.
  destruct (abortErr pend); [done|].
  pose proof (tryCurrents_readOnly [CURRENT; CURRENT_bak] st Hro) as Hc.
  destruct (tryCurrents quote [CURRENT; CURRENT_bak] st) as [cur st2].
  simpl in Hc. subst st2.
  destruct (abortErr cur); [done|].
  rewrite Hro. simpl.
  repeat case_match; done.
Qed.

Lemma step_readOnly o st :
  readOnly (fs st) = true -> readOnlyCall o ->
  disk (step quote errText o st).2 = disk st
  /\ readOnly (fs (step quote errText o st).2) = true.
Proof.
  intros Hro Hcall.
  split; [|by destruct (step_counts quote errText o st) as [-> _]].
  destruct o; try done; cbn [step].
  - unfold Lock. repeat case_match; by simplify_eq/=.
  - unfold Unlock. repeat case_match; by simplify_eq/=.
  - by rewrite Log_readOnly.
  - pose proof (GetMeta_readOnly st Hro) as Hg.
    destruct (GetMeta quote errText st) as [r st1]. simpl in Hg. by subst st1.
  - unfold Open, incOpen. repeat case_match; by simplify_eq/=.
  - unfold Close. rewrite ?logNoLock_readOnly by done.
    repeat case_match; by simplify_eq/=.
  - unfold fileWrap_Close. repeat case_match; by simplify_eq/=.
Qed.

Lemma run_readOnly ops st :
  readOnly (fs st) = true -> Forall readOnlyCall ops ->
  disk (run quote errText ops st) = disk st.
Proof.
  intros Hro Hops. revert st Hro.
  induction Hops as [|o ops Ho _ IH]; intros st Hro; [done|].
  unfold run. cbn [fold_left]. fold (run quote errText ops (step quote errText o st).2).
  destruct (step_readOnly o st Hro Ho) as [Hd Hr]. by rewrite IH.
Qed.

(** What a read-only [OpenFile] that succeeds found and left. *)
Lemma OpenFile_readOnly p l clk st w :
  OpenFile p l clk true = (inr st, w) ->
  readOnly (fs st) = true
  /\ exists entries,
       p = PathDir entries
       /\ ((is_Some (entries !! LOCK) /\ disk st = (entries, []))
           \/ (entries !! LOCK = None
               /\ disk st = (<[LOCK := File ""]> entries, [SysCreate LOCK]))).
Proof.
  unfold OpenFile. destruct p as [| |entries]; [done | done |].
  cbn [negb]. unfold newFileLock, osOpenLock. cbn [files].
  destruct (entries !! LOCK) as [[c|e]|] eqn:HL; cbn [flock].
  - destruct (acquire true l) as [e|l']; [done|]. intros [= <- _].
    split; [done|]. exists entries. split; [done|]. left. by split; [eexists|].
  - destruct (acquire true l) as [e0|l']; [done|]. intros [= <- _].
    split; [done|]. exists entries. split; [done|]. left. by split; [eexists|].
  - cbn [acquire]. intros [= <- _].
    split; [done|]. exists entries. split; [done|]. by right.
Qed.

(** C8, as the code has it.  A read-only open that succeeds leaves every
    entry of the directory as it was, except that it creates an empty
    [LOCK] file when there was none; and after it no sequence of [GetMeta],
    [List], [Open], [Lock], [Log] and [Close] calls (and of releases of
    locks and file handles) creates, writes, renames or removes an
    entry. *)
Theorem read_only_safety (p : pathState) (l : lockState) (clk : list Time)
    (st : State) (w : option World) (ops : list op) :
  OpenFile p l clk true = (inr st, w) ->
  Forall readOnlyCall ops ->
  exists entries,
    p = PathDir entries
    /\ (files (world st) = entries
        \/ (entries !! LOCK = None
            /\ files (world st) = <[LOCK := File ""]> entries))
    /\ files (world (run quote errText ops st)) = files (world st)
    /\ trace (world (run quote errText ops st)) = trace (world st).
Proof.
  intros Hopen Hops.
  destruct (OpenFile_readOnly _ _ _ _ _ Hopen) as (Hro & entries & -> & Hd).
  exists entries. split; [done|].
  pose proof (run_readOnly ops st Hro Hops) as [= Hf Ht].
  split; [|by split].
  destruct Hd as [[_ [= -> _]]|[HL [= -> _]]]; [by left | by right].
Qed.

End ReadOnly.

(* ===================================================================== *)
(** ** Resolution: [GetMeta]                                              *)
(* ===================================================================== *)

Lemma fmtDigits_digits fuel u :
  0 <= u -> Forall (fun d => 48 <= d <= 57) (fmtDigits fuel u).
Proof.
  revert u. induction fuel as [|fuel IH]; intros u Hu; [constructor|].
  cbn [fmtDigits]. destruct (Z.ltb_spec u 10).
  - constructor; [lia | constructor].
  - apply Forall_app. split; [apply IH; by apply Z.div_pos|].
    pose proof (Z.mod_pos_bound u 10 ltac:(lia)).
    constructor; [lia | constructor].
Qed.

Lemma fmtInteger6_chars n :
  Forall (fun d => d = 45 \/ 48 <= d <= 57) (fmtInteger 6 n)
  /\ fmtInteger 6 n <> [].
Proof.
  unfold fmtInteger.
  pose proof (fmtDigits_digits 20 (Z.abs n) ltac:(lia)) as Hd.
  set (ds := fmtDigits 20 (Z.abs n)) in *.
  assert (forall k, Forall (fun d => d = 45 \/ 48 <= d <= 57)
                      (replicate k 48 ++ ds)) as Hpad.
  { intros k. apply Forall_app. split.
    - apply Forall_forall. intros d [-> _]%elem_of_replicate. lia.
    - eapply Forall_impl; [exact Hd|]. simpl. lia. }
  destruct (n <? 0); split; try done.
  - constructor; [by left | apply Hpad].
  - intros H. apply (f_equal length) in H.
    rewrite length_app, length_replicate in H. simpl in H. lia.
Qed.

Lemma pad6_head n : exists c rest, pad6 n = String c rest /\ c <> "L"%char.
Proof.
  destruct (fmtInteger6_chars n) as [Hall Hne]. unfold pad6, str.
  destruct (fmtInteger 6 n) as [|d ds]; [done|].
  exists (chr d), (string_of_list_ascii (chr <$> ds)). split; [done|].
  apply Forall_inv in Hall. intros Hc.
  assert (byteZ (chr d) = 76) as Hb by (by rewrite Hc).
  rewrite byteZ_chr in Hb by lia. lia.
Qed.

Lemma fsGenName_notLog fd target : fsGenName fd = Some target -> notLog target.
Proof.
  unfold fsGenName, notLog, LOG, LOG_old.
  destruct (pad6_head (Num fd)) as (c & rest & Hp & Hc).
  repeat case_match; intros [= <-]; try done; rewrite Hp; simpl;
    split; intros [= ? _]; done.
Qed.

Lemma pendingNames_notLog names name :
  name ∈ pendingNames names -> notLog name.
Proof.
  unfold pendingNames. intros (num & -> & _)%list_elem_of_fmap.
  split; discriminate.
Qed.

Lemma candidate_frame w w' name :
  sameOffLog w w' -> notLog name -> candidate w' name = candidate w name.
Proof.
  intros Hsame [Hl Ho]. unfold candidate, osReadFile, osStat.
  rewrite (Hsame name Hl Ho).
  destruct (files w !! name) as [[b|e]|]; try done.
  destruct (currentContent b) as [fd|]; [|done].
  destruct (fsGenName fd) as [target|] eqn:Ht; [|done].
  destruct (fsGenName_notLog _ _ Ht) as [Htl Hto].
  by rewrite (Hsame target Htl Hto).
Qed.

Section Resolution.

Variable quote : string -> string.
Variable errText : error -> string.

Lemma tryCurrent_result name st :
  (tryCurrent quote name st).1 = candidate (world st) name.
Proof.
  unfold tryCurrent, candidate. repeat case_match; by simplify_eq/=.
Qed.

Lemma tryCurrent_frame name st : logFrame st (tryCurrent quote name st).2.
Proof.
  unfold tryCurrent.
  repeat case_match; simpl;
    first [apply logFrame_refl | apply logNoLock_frame].
Qed.

Lemma tryCurrentsLoop_no_winner names : forall last st,
  Forall notLog names ->
  (forall name, name ∈ names ->
     candidate (world st) name = inl ErrNotExist
     \/ candidate (world st) name = inl (ErrCorrupted name)) ->
  exists st',
    tryCurrentsLoop quote names last st
      = (inr (None, lastCorrupted (world st) names last), st')
    /\ logFrame st st'.
Proof.
  induction names as [|name names IH]; intros last st Hnl Hcand.
  - exists st. split; [done | apply logFrame_refl].
  - apply Forall_cons in Hnl as [Hn Hnl].
    cbn [tryCurrentsLoop lastCorrupted].
    pose proof (tryCurrent_result name st) as Hres.
    pose proof (tryCurrent_frame name st) as Hfr.
    destruct (tryCurrent quote name st) as [r st1]. simpl in Hres, Hfr.
    subst r.
    assert (forall l, exists st',
              tryCurrentsLoop quote names l st1
                = (inr (None, lastCorrupted (world st) names l), st')
              /\ logFrame st st') as Hrest.
    { intros l. destruct (IH l st1 Hnl) as (st' & Heq & Hfr').
      - intros n Hin. rewrite (candidate_frame (world st)); [| apply Hfr |].
        + apply Hcand. by right.
        + rewrite Forall_forall in Hnl. by apply Hnl.
      - exists st'. split; [|by eapply logFrame_trans].
        rewrite Heq. do 3 f_equal.
        clear -Hfr Hnl. revert l.
        induction names as [|n names IHn]; intros l; [done|].
        apply Forall_cons in Hnl as [Hn Hnl]. cbn [lastCorrupted].
        rewrite (candidate_frame (world st) (world st1) n); [| apply Hfr | done].
        by apply IHn. }
    destruct (Hcand name ltac:(by left)) as [-> | ->].
    + rewrite bool_decide_eq_true_2 by done. apply Hrest.
    + rewrite bool_decide_eq_false_2 by done. simpl. apply Hrest.
Qed.

(** A scan that finds nothing but missing and corrupted files ends with
    the last corrupted one, if there is one. *)
Lemma lastCorrupted_spec w names : forall last,
  (forall name, name ∈ names ->
     candidate w name = inl ErrNotExist
     \/ candidate w name = inl (ErrCorrupted name)) ->
  (lastCorrupted w names last = last
   /\ forall name, name ∈ names -> candidate w name = inl ErrNotExist)
  \/ (exists o, o ∈ names /\ candidate w o = inl (ErrCorrupted o)
                 /\ lastCorrupted w names last = Some (ErrCorrupted o)).
Proof.
  induction names as [|name names IH]; intros last H.
  - left. split; [done|]. intros name Hn. by apply elem_of_nil in Hn.
  - assert (forall x, x ∈ names ->
              candidate w x = inl ErrNotExist
              \/ candidate w x = inl (ErrCorrupted x)) as H'.
    { intros x Hx. apply H. by right. }
    cbn [lastCorrupted].
    destruct (H name ltac:(by left)) as [Hm | Hc].
    + rewrite Hm. destruct (IH last H') as [[Hl Hall] | (o & Ho & Hco & Hl)].
      * left. split; [done|].
        intros x [-> | Hx]%elem_of_cons; [done | by apply Hall].
      * right. exists o. split; [by right | done].
    + rewrite Hc.
      destruct (IH (Some (ErrCorrupted name)) H')
        as [[Hl Hall] | (o & Ho & Hco & Hl)].
      * right. exists name. split; [by left | done].
      * right. exists o. split; [by right | done].
Qed.

(** A scan without a winner: the error [tryCurrents] returns. *)
Lemma tryCurrents_no_winner names st :
  Forall notLog names ->
  (forall name, name ∈ names ->
     candidate (world st) name = inl ErrNotExist
     \/ candidate (world st) name = inl (ErrCorrupted name)) ->
  exists st',
    tryCurrents quote names st
      = (inl (default ErrNotExist (lastCorrupted (world st) names None)), st')
    /\ logFrame st st'.
Proof.
  intros Hnl Hcand.
  destruct (tryCurrentsLoop_no_winner names None st Hnl Hcand)
    as (st' & Heq & Hfr).
  exists st'. split; [|done]. unfold tryCurrents. by rewrite Heq.
Qed.

Lemma lastCorrupted_frame w w' names last :
  sameOffLog w w' -> Forall notLog names ->
  lastCorrupted w' names last = lastCorrupted w names last.
Proof.
  intros Hsame Hnl. revert last.
  induction Hnl as [|n names Hn _ IH]; intros last; [done|].
  cbn [lastCorrupted]. by rewrite (candidate_frame w w' n), IH.
Qed.

Lemma canonical_notLog : Forall notLog [CURRENT; CURRENT_bak].
Proof. repeat constructor; discriminate. Qed.

(** C1. In [GetMeta], when the pending scan and the canonical scan are
    both run and neither ends the call: if the pending scan found a file,
    its identifier is returned when the canonical scan found none or one
    with a strictly smaller number, and the canonical identifier is
    returned when its number is not smaller; if the pending scan found
    none, the canonical identifier is returned. *)
Theorem GetMeta_selection (st st1 st2 : State)
    (pend cur : error + currentFile) :
  0 <= open (fs st) ->
  pendingNames (Readdirnames (world st)) <> [] ->
  tryCurrents quote (pendingNames (Readdirnames (world st))) st = (pend, st1) ->
  abortErr pend = None ->
  tryCurrents quote [CURRENT; CURRENT_bak] st1 = (cur, st2) ->
  abortErr cur = None ->
  (forall p, pend = inr p ->
     ((forall c, cur = inr c -> Num (cf_fd c) < Num (cf_fd p)) ->
      (GetMeta quote errText st).1 = inr (cf_fd p))
     /\ (forall c, cur = inr c -> Num (cf_fd p) <= Num (cf_fd c) ->
         (GetMeta quote errText st).1 = inr (cf_fd c)))
  /\ (forall c, cur = inr c -> (forall p, pend <> inr p) ->
      (GetMeta quote errText st).1 = inr (cf_fd c)).
Proof.
  intros Hopen Hpn Hpend Hpa Hcur Hca.
  assert (forall sel, pickCurrent (curOf pend) (curOf cur) = Some sel ->
                      (GetMeta quote errText st).1 = inr (cf_fd sel)) as Hsel.
  { intros sel Hpick. unfold GetMeta.
    destruct (Z.ltb_spec (open (fs st)) 0); [lia|].
    destruct (pendingNames (Readdirnames (world st))) as [|n ns] eqn:Hn;
      [done|].
    rewrite Hpend, Hpa, Hcur, Hca, Hpick.
    destruct (negb (readOnly (fs st2)) && _); [|done].
    by destruct (setMeta errText (cf_fd sel) st2) as [[e|] st3]. }
  split.
  - intros p ->. split.
    + intros Hlt. apply Hsel. simpl. destruct cur as [e|c]; [done|].
      simpl. specialize (Hlt c eq_refl).
      by destruct (Z.ltb_spec (Num (cf_fd c)) (Num (cf_fd p))); [|lia].
    + intros c -> Hle. apply Hsel. simpl.
      by destruct (Z.ltb_spec (Num (cf_fd c)) (Num (cf_fd p))); [lia|].
  - intros c -> Hno. apply Hsel. destruct pend as [e|p]; [done|].
    by destruct (Hno p).
Qed.

(** C7. When no pointer file of [GetMeta] yields an identifier and none
    ends the call, that is when every pending file and both canonical
    files are missing or corrupted: if a pending file is corrupted the
    corruption error of a pending file is returned; if none is and a
    canonical file is corrupted, the corruption error of a canonical
    file; if no file is corrupted, the missing error. *)
Theorem GetMeta_no_winner (st : State) :
  0 <= open (fs st) ->
  (forall name,
     name ∈ pendingNames (Readdirnames (world st)) ++ [CURRENT; CURRENT_bak] ->
     (tryCurrent quote name st).1 = inl ErrNotExist
     \/ (tryCurrent quote name st).1 = inl (ErrCorrupted name)) ->
  ((exists name, name ∈ pendingNames (Readdirnames (world st))
                 /\ (tryCurrent quote name st).1 = inl (ErrCorrupted name)) ->
   exists o, o ∈ pendingNames (Readdirnames (world st))
             /\ (tryCurrent quote o st).1 = inl (ErrCorrupted o)
             /\ (GetMeta quote errText st).1 = inl (ErrCorrupted o))
  /\ ((forall name, name ∈ pendingNames (Readdirnames (world st)) ->
                    (tryCurrent quote name st).1 = inl ErrNotExist) ->
      (exists name, name ∈ [CURRENT; CURRENT_bak]
                    /\ (tryCurrent quote name st).1 = inl (ErrCorrupted name)) ->
      exists o, o ∈ [CURRENT; CURRENT_bak]
                /\ (tryCurrent quote o st).1 = inl (ErrCorrupted o)
                /\ (GetMeta quote errText st).1 = inl (ErrCorrupted o))
  /\ ((forall name,
         name ∈ pendingNames (Readdirnames (world st)) ++ [CURRENT; CURRENT_bak] ->
         (tryCurrent quote name st).1 = inl ErrNotExist) ->
      (GetMeta quote errText st).1 = inl ErrNotExist).
Proof.
  intros Hopen Hall.
  set (pn := pendingNames (Readdirnames (world st))) in *.
  set (cn := [CURRENT; CURRENT_bak]) in *.
  set (w := world st).
  assert (forall name, (tryCurrent quote name st).1 = candidate w name) as Hres
    by (intros; apply tryCurrent_result).
  setoid_rewrite Hres. setoid_rewrite Hres in Hall.
  assert (Forall notLog pn) as Hpnl.
  { apply Forall_forall. intros n Hn. by eapply pendingNames_notLog. }
  assert (forall name, name ∈ pn ->
            candidate w name = inl ErrNotExist
            \/ candidate w name = inl (ErrCorrupted name)) as Hp.
  { intros n Hn. apply Hall, elem_of_app. by left. }
  assert (forall name, name ∈ cn ->
            candidate w name = inl ErrNotExist
            \/ candidate w name = inl (ErrCorrupted name)) as Hc.
  { intros n Hn. apply Hall, elem_of_app. by right. }
  (* the two scans *)
  assert (exists st1,
            match pn with
            | [] => (inl ErrNotExist, st)
            | _ => tryCurrents quote pn st
            end = (inl (default ErrNotExist (lastCorrupted w pn None)), st1)
            /\ logFrame st st1) as (st1 & Hpend & Hfr1).
  { destruct pn as [|n ns] eqn:Hn.
    - exists st. split; [done | apply logFrame_refl].
    - rewrite <- Hn in *. by apply tryCurrents_no_winner. }
  destruct Hfr1 as [_ Hfr1].
  destruct (tryCurrents_no_winner cn st1 canonical_notLog) as (st2 & Hcur & _).
  { intros n Hn. rewrite (candidate_frame w); [by apply Hc | done |].
    pose proof canonical_notLog as Hcl. rewrite Forall_forall in Hcl.
    by apply Hcl. }
  rewrite (lastCorrupted_frame w) in Hcur by (done || apply canonical_notLog).
  set (pe := default ErrNotExist (lastCorrupted w pn None)) in *.
  set (ce := default ErrNotExist (lastCorrupted w cn None)) in *.
  assert ((GetMeta quote errText st).1
          = inl (if isCorrupted pe then pe else ce)) as Hget.
  { unfold GetMeta. destruct (Z.ltb_spec (open (fs st)) 0); [lia|].
    fold pn. rewrite Hpend.
    assert (abortErr (inl pe) = None /\ abortErr (inl ce) = None) as [Hpa Hca].
    { subst pe ce.
      destruct (lastCorrupted_spec w pn None Hp) as [[-> _]|(o & _ & _ & ->)];
        destruct (lastCorrupted_spec w cn None Hc) as [[-> _]|(o' & _ & _ & ->)];
        done. }
    rewrite Hpa. fold cn. rewrite Hcur, Hca. simpl.
    by destruct (isCorrupted pe). }
  rewrite Hget. subst pe ce.
  destruct (lastCorrupted_spec w pn None Hp) as [[Hlp Hpm]|(o & Ho & Hco & Hlp)];
    destruct (lastCorrupted_spec w cn None Hc) as [[Hlc Hcm]|(o' & Ho' & Hco' & Hlc)];
    rewrite Hlp, Hlc; simpl.
  - split; [|split].
    + intros (n & Hn & Hcn). rewrite (Hpm n Hn) in Hcn. done.
    + intros _ (n & Hn & Hcn). rewrite (Hcm n Hn) in Hcn. done.
    + done.
  - split; [|split].
    + intros (n & Hn & Hcn). rewrite (Hpm n Hn) in Hcn. done.
    + intros _ _. by exists o'.
    + intros Hm. rewrite (Hm o') in Hco'; [done|].
      apply elem_of_app. by right.
  - split; [|split].
    + intros _. by exists o.
    + intros Hm. rewrite (Hm o Ho) in Hco. done.
    + intros Hm. rewrite (Hm o) in Hco; [done|]. apply elem_of_app. by left.
  - split; [|split].
    + intros _. by exists o.
    + intros Hm. rewrite (Hm o Ho) in Hco. done.
    + intros Hm. rewrite (Hm o) in Hco; [done|]. apply elem_of_app. by left.
Qed.

End Resolution.

(* ===================================================================== *)
(** ** The properties at sample inputs                                    *)
(* ===================================================================== *)

Example OpenFile_storageRW :
  (OpenFile (PathDir journalDir) Unlocked [] false).1 = inr (storageRW journalDir).
Proof. vm_compute. reflexivity. Qed.

Example OpenFile_storageRO :
  (OpenFile (PathDir journalDir) Unlocked [] true).1 = inr (storageRO journalDir).
Proof. vm_compute. reflexivity. Qed.

(** The recovery scenarios of the specification, run on the model. *)

Example recovery_after_pending_write :
  let r := GetMeta plainQuote plainErrText (storageRW pendingDir) in
  r.1 = inr (mkFileDesc TypeManifest 7)
  /\ files (world r.2) !! CURRENT = Some (File (manifestName 7 +:+ nl))
  /\ files (world r.2) !! "CURRENT.7" = None.
Proof. repeat split; vm_compute; reflexivity. Qed.

Example recovery_mixed_pending :
  let r := GetMeta plainQuote plainErrText (storageRW mixedDir) in
  r.1 = inr (mkFileDesc TypeManifest 12)
  /\ files (world r.2) !! CURRENT = Some (File (manifestName 12 +:+ nl))
  /\ files (world r.2) !! "CURRENT.12" = None
  /\ files (world r.2) !! "CURRENT.13" = None.
Proof. repeat split; vm_compute; reflexivity. Qed.

Example recovery_all_corrupted :
  (GetMeta plainQuote plainErrText (storageRW corruptedDir)).1
  = inl (ErrCorrupted "CURRENT.5").
Proof. vm_compute. reflexivity. Qed.

Example legacy_table_open :
  (Open (mkFileDesc TypeTable 3) (storageRO legacyDir)).1 = inr 0%nat.
Proof. vm_compute. reflexivity. Qed.

Example instance_lock_contention :
  let s1 := (Lock (storageRW journalDir)).2 in
  (Lock (storageRW journalDir)).1 = inr (Some 0%nat)
  /\ (Lock s1).1 = inl ErrLocked
  /\ (Lock (Unlock (Some 0%nat) s1)).1 = inr (Some 1%nat).
Proof. repeat split; vm_compute; reflexivity. Qed.

(** C2, the code against the claim.  On a read-write storage [Remove] and
    [Rename] of valid identifiers return the read-only error and leave the
    file where it is; on a read-only storage they go through: the file is
    removed, or renamed. *)
Theorem Remove_Rename_gate_inverted :
  Remove plainErrText journal1 (storageRW journalDir)
    = (Some errReadOnly, storageRW journalDir)
  /\ Rename journal1 journal2 (storageRW journalDir)
    = (Some errReadOnly, storageRW journalDir)
  /\ (Remove plainErrText journal1 (storageRO journalDir)).1 = None
  /\ files (world (Remove plainErrText journal1 (storageRO journalDir)).2)
       !! "000001.log" = None
  /\ (Rename journal1 journal2 (storageRO journalDir)).1 = None
  /\ files (world (Rename journal1 journal2 (storageRO journalDir)).2)
       !! "000002.log" = Some (File "abc").
Proof. repeat split; vm_compute; reflexivity. Qed.

(** C3, the claim as stated fails: after a [Close] that succeeded, [Rename]
    of an identifier to itself returns no error. *)
Lemma closed_Rename_same_succeeds :
  (Close (storageRW journalDir)).1 = None
  /\ (Rename journal1 journal1 (Close (storageRW journalDir)).2).1 = None.
Proof. split; vm_compute; reflexivity. Qed.

(** C8, the claim as stated fails: a read-only open of a directory without
    a [LOCK] file succeeds and creates the file. *)
Lemma read_only_open_creates_LOCK :
  (∅ : gmap string node) !! LOCK = None
  /\ exists st w,
       OpenFile (PathDir ∅) Unlocked [] true = (inr st, w)
       /\ files (world st) !! LOCK = Some (File "")
       /\ trace (world st) = [SysCreate LOCK].
Proof.
  split; [reflexivity|]. eexists _, _. split; [reflexivity|].
  split; vm_compute; reflexivity.
Qed.

(** C9, the claim as stated fails: with a file opened, the storage closed
    and then the file closed, the count goes from [-1] to [-2]. *)
Lemma open_count_below_zero :
  open (fs (run plainQuote plainErrText [OpOpen journal1; OpClose]
              (storageRW journalDir))) = -1
  /\ open (fs (run plainQuote plainErrText
                 [OpOpen journal1; OpClose; OpFileClose 0]
                 (storageRW journalDir))) = -2.
Proof. split; vm_compute; reflexivity. Qed.

(** C1 at [pendingDir]: the pending pointer to manifest 7 is taken over
    [CURRENT], which names manifest 5. *)
Lemma GetMeta_selection_witness :
  0 <= open (fs (storageRW pendingDir))
  /\ pendingNames (Readdirnames (world (storageRW pendingDir))) <> []
  /\ (GetMeta plainQuote plainErrText (storageRW pendingDir)).1
     = inr (mkFileDesc TypeManifest 7).
Proof.
  assert (0 <= open (fs (storageRW pendingDir))) as Hopen
    by (change (0 <= 0); lia).
  assert (pendingNames (Readdirnames (world (storageRW pendingDir))) <> [])
    as Hpn by (vm_compute; discriminate).
  split; [exact Hopen|]. split; [exact Hpn|].
  pose (r1 := tryCurrents plainQuote
                (pendingNames (Readdirnames (world (storageRW pendingDir))))
                (storageRW pendingDir)).
  pose (r2 := tryCurrents plainQuote [CURRENT; CURRENT_bak] r1.2).
  destruct (GetMeta_selection plainQuote plainErrText (storageRW pendingDir)
              r1.2 r2.2 r1.1 r2.1) as [Hsel _].
  - exact Hopen.
  - exact Hpn.
  - apply surjective_pairing.
  - vm_compute. reflexivity.
  - apply surjective_pairing.
  - vm_compute. reflexivity.
  - destruct (Hsel (mkCur "CURRENT.7" (mkFileDesc TypeManifest 7))) as [H1 _];
      [vm_compute; reflexivity|].
    apply H1. intros c Hc. vm_compute in Hc. injection Hc as <-.
    simpl. lia.
Defined.

(** C3 at [journalDir]: after the close, and a [Lock] call later. *)
Lemma closed_storage_refuses_witness :
  Close (storageRW journalDir) = (None, (Close (storageRW journalDir)).2)
  /\ (GetMeta plainQuote plainErrText
        (run plainQuote plainErrText [OpLock] (Close (storageRW journalDir)).2)).1
     = inl ErrClosed
  /\ (Close (run plainQuote plainErrText [OpLock]
               (Close (storageRW journalDir)).2)).1 = Some ErrClosed.
Proof.
  assert (Close (storageRW journalDir) = (None, (Close (storageRW journalDir)).2))
    as Hclose by (vm_compute; reflexivity).
  split; [exact Hclose|].
  destruct (closed_storage_refuses plainQuote plainErrText
              (storageRW journalDir) (Close (storageRW journalDir)).2 [OpLock])
    as (_ & HGet & _ & HClose & _).
  - exact Hclose.
  - simpl. lia.
  - split; [exact HGet | exact HClose].
Defined.

(** C4 at [journalDir], publishing manifest 7 twice. *)
Lemma SetMeta_idempotent_witness :
  SetMeta plainErrText (mkFileDesc TypeManifest 7)
          (SetMeta plainErrText (mkFileDesc TypeManifest 7)
                   (storageRW journalDir)).2
  = (None, (SetMeta plainErrText (mkFileDesc TypeManifest 7)
                    (storageRW journalDir)).2).
Proof.
  destruct (SetMeta_idempotent plainErrText (mkFileDesc TypeManifest 7)
              (manifestName 7) (storageRW journalDir)) as [_ Htwice].
  - reflexivity.
  - reflexivity.
  - reflexivity.
  - simpl. lia.
  - apply Htwice. vm_compute. reflexivity.
Defined.

(** C7 at [corruptedDir]: the one pending file is corrupted, [CURRENT] and
    [CURRENT.bak] are missing. *)
Lemma GetMeta_no_winner_witness :
  exists o,
    o ∈ pendingNames (Readdirnames (world (storageRW corruptedDir)))
    /\ (tryCurrent plainQuote o (storageRW corruptedDir)).1
       = inl (ErrCorrupted o)
    /\ (GetMeta plainQuote plainErrText (storageRW corruptedDir)).1
       = inl (ErrCorrupted o).
Proof.
  assert (pendingNames (Readdirnames (world (storageRW corruptedDir)))
          = ["CURRENT.5"%string]) as Hpn by (vm_compute; reflexivity).
  apply (GetMeta_no_winner plainQuote plainErrText (storageRW corruptedDir)).
  - simpl. lia.
  - intros name Hin. rewrite Hpn in Hin. simpl in Hin.
    repeat (apply elem_of_cons in Hin as [-> | Hin]).
    + right. vm_compute. reflexivity.
    + left. vm_compute. reflexivity.
    + left. vm_compute. reflexivity.
    + apply elem_of_nil in Hin. destruct Hin.
  - exists "CURRENT.5"%string. split.
    + rewrite Hpn. apply list_elem_of_here.
    + vm_compute. reflexivity.
Defined.

(** C8 at [journalDir], opened read-only. *)
Lemma read_only_safety_witness :
  OpenFile (PathDir journalDir) Unlocked [] true
    = (inr (storageRO journalDir), Some (world (storageRO journalDir)))
  /\ files (world (run plainQuote plainErrText
                     [OpGetMeta; OpOpen journal1; OpLog "note"; OpClose]
                     (storageRO journalDir)))
     = files (world (storageRO journalDir)).
Proof.
  assert (OpenFile (PathDir journalDir) Unlocked [] true
          = (inr (storageRO journalDir), Some (world (storageRO journalDir))))
    as Hopen by (vm_compute; reflexivity).
  split; [exact Hopen|].
  destruct (read_only_safety plainQuote plainErrText (PathDir journalDir)
              Unlocked [] (storageRO journalDir)
              (Some (world (storageRO journalDir)))
              [OpGetMeta; OpOpen journal1; OpLog "note"; OpClose])
    as (entries & _ & _ & Hfiles & _).
  - exact Hopen.
  - repeat constructor.
  - exact Hfiles.
Defined.

(** C9 at [journalDir]: a file is opened and closed; the storage is still
    open. *)
Lemma open_count_invariant_witness :
  open (fs (storageRW journalDir)) = 0
  /\ wraps (storageRW journalDir) = []
  /\ 0 <= open (fs (run plainQuote plainErrText
                      [OpOpen journal1; OpFileClose 0]
                      (storageRW journalDir))).
Proof.
  split; [reflexivity|]. split; [reflexivity|].
  destruct (open_count_invariant plainQuote plainErrText
              [OpOpen journal1; OpFileClose 0] (storageRW journalDir))
    as [Hlive _].
  - reflexivity.
  - reflexivity.
  - simpl. lia.
  - apply Hlive. intros Hin.
    repeat (apply elem_of_cons in Hin as [Hin | Hin]; [discriminate Hin|]).
    apply elem_of_nil in Hin. destruct Hin.
Defined.

(** C10 at [journalDir], publishing the Journal identifier numbered 5. *)
Lemma SetMeta_any_kind_witness :
  FileDescOk (mkFileDesc TypeJournal 5) = true
  /\ (SetMeta plainErrText (mkFileDesc TypeJournal 5) (storageRW journalDir)).1
     <> Some ErrInvalidFile
  /\ files (world (SetMeta plainErrText (mkFileDesc TypeJournal 5)
                          (storageRW journalDir)).2) !! CURRENT
     = Some (File ("000005.log" +:+ nl)).
Proof.
  split; [reflexivity|].
  destruct (SetMeta_any_kind plainErrText (mkFileDesc TypeJournal 5)
              (storageRW journalDir)) as [Hkind Hcur].
  - reflexivity.
  - reflexivity.
  - split; [exact Hkind|].
    destruct (Hcur (SetMeta plainErrText (mkFileDesc TypeJournal 5)
                            (storageRW journalDir)).2)
      as (name & Hname & Hfile); [vm_compute; reflexivity|].
    vm_compute in Hname. injection Hname as <-. exact Hfile.
Defined.

(* ===================================================================== *)
(** * Further properties of the storage                                   *)
(* ===================================================================== *)

(** ** The file namespace *)

Lemma fsParseName_fsGenName fd name :
  FileDescOk fd = true -> int64 (Num fd) ->
  fsGenName fd = Some name -> fsParseName name = (fd, true).
Proof.
  intros Hok H64. destruct (FileDescOk_inv fd Hok) as [Hty Hnum].
  assert (0 <= Num fd < 2 ^ 63) as Hn by (unfold int64 in H64; lia).
  destruct fd as [ty n]; simpl in *.
  destruct Hty as [-> | [-> | [-> | ->]]]; intros [= <-].
  - change (fsParseName ("MANIFEST-" +:+ pad6 n)
            = (mkFileDesc TypeManifest n, true)).
    unfold fsParseName.
    destruct (Sscanf_manifest_name n Hn) as [-> ->]. done.
  - change (fsParseName (pad6 n +:+ "." +:+ "log")
            = (mkFileDesc TypeJournal n, true)).
    unfold fsParseName.
    rewrite (Sscanf_numbered n "log") by suffix_side. done.
  - change (fsParseName (pad6 n +:+ "." +:+ "ldb")
            = (mkFileDesc TypeTable n, true)).
    unfold fsParseName.
    rewrite (Sscanf_numbered n "ldb") by suffix_side. done.
  - change (fsParseName (pad6 n +:+ "." +:+ "tmp")
            = (mkFileDesc TypeTemp n, true)).
    unfold fsParseName.
    rewrite (Sscanf_numbered n "tmp") by suffix_side. done.
Qed.

Lemma fsParseName_fsGenOldName fd old :
  FileDescOk fd = true -> int64 (Num fd) ->
  fsGenOldName fd = Some old -> fsParseName old = (fd, true).
Proof.
  intros Hok H64 Hold. unfold fsGenOldName in Hold.
  destruct (Z.eqb_spec (Type_ fd) TypeTable) as [Ht|Ht];
    [|by apply fsParseName_fsGenName].
  destruct (FileDescOk_inv fd Hok) as [_ Hnum].
  assert (0 <= Num fd < 2 ^ 63) as Hn by (unfold int64 in H64; lia).
  destruct fd as [ty n]; simpl in *. subst ty. injection Hold as <-.
  change (fsParseName (pad6 n +:+ "." +:+ "sst")
          = (mkFileDesc TypeTable n, true)).
  unfold fsParseName.
  rewrite (Sscanf_numbered n "sst") by suffix_side. done.
Qed.

(** X1: Two valid identifiers with the same canonical name are the same
    identifier, and the legacy name of a table is the canonical name of no
    valid identifier. *)
Theorem fsGenName_injective (fd1 fd2 : FileDesc) (name : string) :
  FileDescOk fd1 = true -> int64 (Num fd1) ->
  FileDescOk fd2 = true -> int64 (Num fd2) ->
  (fsGenName fd1 = Some name -> fsGenName fd2 = Some name -> fd1 = fd2)
  /\ (Type_ fd1 = TypeTable -> fsGenOldName fd1 = Some name ->
      fsGenName fd2 <> Some name).
Proof.
  intros Hok1 H1 Hok2 H2. split.
  - intros Hn1 Hn2.
    pose proof (fsParseName_fsGenName _ _ Hok1 H1 Hn1) as Hp1.
    pose proof (fsParseName_fsGenName _ _ Hok2 H2 Hn2) as Hp2.
    congruence.
  - intros Ht Hold Hn2.
    pose proof (fsParseName_fsGenOldName _ _ Hok1 H1 Hold) as Hp1.
    pose proof (fsParseName_fsGenName _ _ Hok2 H2 Hn2) as Hp2.
    assert (fd2 = fd1) as -> by congruence.
    unfold fsGenOldName, fsGenName in *. rewrite Ht in *.
    change (TypeTable =? TypeManifest) with false in Hn2.
    change (TypeTable =? TypeJournal) with false in Hn2.
    change (TypeTable =? TypeTable) with true in *.
    cbv iota in *. injection Hold as <-. injection Hn2 as Hn2.
    apply (f_equal bytes) in Hn2. rewrite !bytes_app in Hn2.
    apply app_inv_head in Hn2. discriminate Hn2.
Qed.

Lemma fsGenName_injective_witness :
  FileDescOk (mkFileDesc TypeTable 3) = true
  /\ FileDescOk (mkFileDesc TypeTemp 3) = true
  /\ (fsGenOldName (mkFileDesc TypeTable 3) = Some "000003.sst"%string ->
      fsGenName (mkFileDesc TypeTemp 3) <> Some "000003.sst"%string).
Proof.
  assert (int64 3) as H3 by (unfold int64; lia).
  split; [reflexivity|]. split; [reflexivity|].
  apply (fsGenName_injective (mkFileDesc TypeTable 3) (mkFileDesc TypeTemp 3));
    first [reflexivity | exact H3].
Defined.

Lemma fsParseName_kind name fd :
  fsParseName name = (fd, true) ->
  (Type_ fd = TypeManifest \/ Type_ fd = TypeJournal
   \/ Type_ fd = TypeTable \/ Type_ fd = TypeTemp)
  /\ int64 (Num fd).
Proof.
  unfold fsParseName, Sscanf. intros H. apply fsParseName_complete in H.
  destruct H as [sp1 sg ds sp2 suf rest ty _ _ _ _ H64 _ Hsuf _
                |sp1 sg ds sp2 rest _ _ _ _ H64 _ _]; simpl.
  - split; [|done]. unfold suffixKind in Hsuf.
    repeat case_match; simplify_eq; auto.
  - split; [by left | done].
Qed.

(** A name whose first byte is ASCII and neither a space, a sign, a digit
    nor [M] is no identifier. *)
Lemma fsParseName_head c rest :
  byteZ c < 128 -> isSpace (byteZ c) = false -> isSign (byteZ c) = false ->
  isDigit (byteZ c) = false -> byteZ c <> 77 ->
  fsParseName (String c rest) = (mkFileDesc 0 0, false).
Proof.
  intros Hascii Hsp Hsg Hd HM. unfold fsParseName, Sscanf, scanned.
  rewrite runes_cons_ascii by done.
  change (takeN (byteZ c :: runes rest) hugeWid)
    with (byteZ c :: takeN (runes rest) (N.pred hugeWid)).
  set (rs := takeN (runes rest) (N.pred hugeWid)).
  assert (scanInt (byteZ c :: rs) = inl ScanExpectedInteger) as Hsi.
  { unfold scanInt. rewrite SkipSpace_stop by done. cbv iota beta.
    rewrite Hsg. cbv iota beta. by rewrite Hd. }
  rewrite doScanf_fmtNumTail, Hsi.
  destruct (doScanf_fmtManifest_no (byteZ c :: rs)) as [e ->]; [|done].
  intros rs1 Heq. apply (f_equal head) in Heq. simpl in Heq.
  injection Heq as Heq. done.
Qed.

Lemma control_files_not_identifiers_aux name :
  controlName name -> fsParseName name = (mkFileDesc 0 0, false).
Proof.
  intros [-> | [-> | [-> | Hpre]]];
    try (apply fsParseName_head; [reflexivity..|vm_compute; discriminate]).
  destruct name as [|c rest]; [discriminate Hpre|].
  unfold CURRENT in Hpre. cbn [String.prefix] in Hpre.
  destruct (ascii_dec "C" c) as [<-|]; [|discriminate Hpre].
  apply fsParseName_head; [reflexivity..|vm_compute; discriminate].
Qed.

(** X2: The files the storage keeps for itself ([LOCK], [LOG], [LOG.old],
    [CURRENT] and every name that starts with [CURRENT]) are never taken
    for identifiers: the parser rejects them and leaves the descriptor
    zero. *)
Theorem control_files_not_identifiers (name : string) :
  controlName name -> fsParseName name = (mkFileDesc 0 0, false).
Proof. apply control_files_not_identifiers_aux. Qed.

Lemma control_files_not_identifiers_witness :
  controlName "CURRENT.7" /\ fsParseName "CURRENT.7" = (mkFileDesc 0 0, false).
Proof.
  assert (controlName "CURRENT.7") as H by (do 3 right; reflexivity).
  split; [exact H | exact (control_files_not_identifiers "CURRENT.7" H)].
Defined.

(** ** Listing *)

Lemma elem_of_Readdirnames name w :
  name ∈ Readdirnames w <-> is_Some (files w !! name).
Proof.
  unfold Readdirnames. rewrite list_elem_of_fmap. split.
  - intros ([n x] & -> & Hin). apply elem_of_map_to_list in Hin. by eexists.
  - intros [x Hx]. exists (name, x). split; [done|].
    by apply elem_of_map_to_list.
Qed.

Lemma List_spec_aux ft st :
  0 <= open (fs st) ->
  exists fds,
    List ft st = inr fds
    /\ (forall fd,
          fd ∈ fds <->
          exists name, is_Some (files (world st) !! name)
                       /\ fsParseName name = (fd, true)
                       /\ Z.land (Type_ fd) ft <> 0).
Proof.
  intros Hopen. unfold List.
  destruct (Z.ltb_spec (open (fs st)) 0); [lia|].
  eexists. split; [reflexivity|].
  intros fd. rewrite list_elem_of_omap. split.
  - intros (name & Hin & Hp). exists name.
    apply elem_of_Readdirnames in Hin. split; [done|].
    destruct (fsParseName name) as [fd' ok].
    destruct ok; [|done]. simpl in Hp.
    destruct (Z.eqb_spec (Z.land (Type_ fd') ft) 0); [done|].
    injection Hp as ->. done.
  - intros (name & Hin & Hp & Hft). exists name.
    split; [by apply elem_of_Readdirnames|]. rewrite Hp. simpl.
    by destruct (Z.eqb_spec (Z.land (Type_ fd) ft) 0).
Qed.

(** X3: On an open storage [List] returns exactly the identifiers that
    the names of the directory parse to and whose kind is in the filter;
    each has one of the four kinds, and none comes from a file the storage
    keeps for itself. *)
Theorem List_spec (ft : Z) (st : State) :
  0 <= open (fs st) ->
  exists fds,
    List ft st = inr fds
    /\ (forall fd,
          fd ∈ fds <->
          exists name, is_Some (files (world st) !! name)
                       /\ fsParseName name = (fd, true)
                       /\ Z.land (Type_ fd) ft <> 0)
    /\ (forall fd, fd ∈ fds ->
          (Type_ fd = TypeManifest \/ Type_ fd = TypeJournal
           \/ Type_ fd = TypeTable \/ Type_ fd = TypeTemp)
          /\ exists name, is_Some (files (world st) !! name)
                          /\ ~ controlName name
                          /\ fsParseName name = (fd, true)).
Proof.
  intros Hopen. destruct (List_spec_aux ft st Hopen) as (fds & Heq & Hiff).
  exists fds. split; [done|]. split; [exact Hiff|].
  intros fd Hfd. apply Hiff in Hfd as (name & Hin & Hp & _).
  split; [by apply (fsParseName_kind name)|].
  exists name. split; [done|]. split; [|done].
  intros Hc. apply control_files_not_identifiers_aux in Hc. congruence.
Qed.

Lemma List_spec_witness :
  0 <= open (fs (storageRW journalDir))
  /\ exists fds, List TypeAll (storageRW journalDir) = inr fds
                 /\ journal1 ∈ fds.
Proof.
  assert (0 <= open (fs (storageRW journalDir))) as Hopen
    by (change (0 <= 0); lia).
  split; [exact Hopen|].
  destruct (List_spec TypeAll (storageRW journalDir) Hopen)
    as (fds & Heq & Hiff & _).
  exists fds. split; [exact Heq|].
  apply Hiff. exists "000001.log"%string. split; [|split].
  - exists (File "abc"). vm_compute. reflexivity.
  - vm_compute. reflexivity.
  - vm_compute. discriminate.
Defined.

(** ** File handles *)

(** X4: [Open] of a valid identifier on an open storage succeeds exactly
    when the canonical name or, for a table, the legacy name is in the
    directory; it then counts one more open file; it fails with a
    not-exist error otherwise; and in no case does it change the
    directory. *)
Theorem Open_spec (fd : FileDesc) (name old : string) (st : State) :
  FileDescOk fd = true -> 0 <= open (fs st) ->
  fsGenName fd = Some name -> fsGenOldName fd = Some old ->
  world (Open fd st).2 = world st
  /\ (is_Some (files (world st) !! name) \/ is_Some (files (world st) !! old) ->
      (Open fd st).1 = inr (length (wraps st))
      /\ open (fs (Open fd st).2) = wrap64 (open (fs st) + 1)
      /\ wraps (Open fd st).2 = wraps st ++ [mkWrap fd false])
  /\ (files (world st) !! name = None -> files (world st) !! old = None ->
      exists e, Open fd st = (inl e, st) /\ IsNotExist e = true).
Proof.
  intros Hok Hopen Hname Hold. unfold Open.
  rewrite Hok, Hname, Hold. cbn [negb].
  destruct (Z.ltb_spec (open (fs st)) 0); [lia|].
  unfold osOpenRead.
  assert (fsHasOldName fd = false -> old = name) as Hsame.
  { unfold fsHasOldName, fsGenOldName in *. intros Hf. rewrite Hf in Hold.
    congruence. }
  destruct (files (world st) !! name) as [n|] eqn:Hn.
  - split; [done|]. split; [by intros _|]. done.
  - cbn [IsNotExist]. rewrite andb_true_r.
    destruct (fsHasOldName fd) eqn:Hhas.
    + destruct (files (world st) !! old) as [n|] eqn:Ho.
      * split; [done|]. split; [by intros _|]. done.
      * split; [done|]. split; [by intros [[? [=]]|[? [=]]]|].
        intros _ _. by eexists.
    + rewrite (Hsame eq_refl), Hn.
      split; [done|]. split; [by intros [[? [=]]|[? [=]]]|].
      intros _ _. by eexists.
Qed.

Lemma Open_spec_witness :
  FileDescOk (mkFileDesc TypeTable 3) = true
  /\ (Open (mkFileDesc TypeTable 3) (storageRO legacyDir)).1 = inr 0%nat
  /\ world (Open (mkFileDesc TypeTable 3) (storageRO legacyDir)).2
     = world (storageRO legacyDir).
Proof.
  split; [reflexivity|].
  destruct (Open_spec (mkFileDesc TypeTable 3) "000003.ldb" "000003.sst"
              (storageRO legacyDir)) as (Hw & Hok & _).
  - reflexivity.
  - change (0 <= 0). lia.
  - reflexivity.
  - reflexivity.
  - split; [|exact Hw].
    apply Hok. right. exists (File "t"). vm_compute. reflexivity.
Defined.

Lemma fileWrap_Close_once_aux i fw st :
  wraps st !! i = Some fw -> fw_closed fw = false ->
  (fileWrap_Close i st).1 = None
  /\ open (fs (fileWrap_Close i st).2) = wrap64 (open (fs st) - 1)
  /\ world (fileWrap_Close i st).2 = world st.
Proof.
  intros Hi Hc. unfold fileWrap_Close. rewrite Hi, Hc. done.
Qed.

(** X5: A file handle is closed once: the first [Close] of a handle that
    is open succeeds and takes one from the count of open files; every
    later [Close] of it returns the closed error and changes nothing. *)
Theorem fileWrap_Close_once (i : nat) (fw : fileWrap) (st : State) :
  wraps st !! i = Some fw -> fw_closed fw = false ->
  (fileWrap_Close i st).1 = None
  /\ open (fs (fileWrap_Close i st).2) = wrap64 (open (fs st) - 1)
  /\ world (fileWrap_Close i st).2 = world st
  /\ fileWrap_Close i (fileWrap_Close i st).2
     = (Some ErrClosed, (fileWrap_Close i st).2).
Proof.
  intros Hi Hc. unfold fileWrap_Close at 1 2 3 5. rewrite Hi, Hc.
  cbn [fst snd]. repeat (split; [done|]).
  unfold fileWrap_Close. rewrite Hi, Hc. cbn [snd].
  cbn [decOpen setWraps wraps setFS].
  rewrite list_lookup_insert_eq by (by eapply lookup_lt_Some).
  done.
Qed.

(** X6: [Open] and the [Close] of the handle it returns balance: after the
    two the count of open files and the directory are as before. *)
Theorem Open_Close_balance (fd : FileDesc) (i : nat) (st st1 : State) :
  Open fd st = (inr i, st1) -> open (fs st) < 2 ^ 63 - 1 ->
  (fileWrap_Close i st1).1 = None
  /\ open (fs (fileWrap_Close i st1).2) = open (fs st)
  /\ world (fileWrap_Close i st1).2 = world st.
Proof.
  intros Hopen Hbound.
  assert (0 <= open (fs st) /\ i = length (wraps st)
          /\ st1 = setWraps (wraps st ++ [mkWrap fd false]) (incOpen st))
    as (Hpos & -> & ->).
  { revert Hopen. unfold Open.
    destruct (negb (FileDescOk fd)); [done|].
    destruct (Z.ltb_spec (open (fs st)) 0); [done|].
    destruct (fsGenName fd), (fsGenOldName fd); try done.
    match goal with |- context [match ?x with Some _ => _ | None => _ end] =>
      destruct x end; [done|].
    by intros [= <- <-]. }
  destruct (fileWrap_Close_once_aux (length (wraps st)) (mkWrap fd false)
              (setWraps (wraps st ++ [mkWrap fd false]) (incOpen st)))
    as (Hr & Ho & Hw).
  - cbn [wraps setWraps]. rewrite lookup_app_r by lia.
    by rewrite Nat.sub_diag.
  - done.
  - split; [done|]. split; [|done]. rewrite Ho. cbn [open fs setWraps incOpen setFS setOpen].
    rewrite (wrap64_id (open (fs st) + 1)) by lia.
    rewrite wrap64_id by lia. lia.
Qed.

Lemma fileWrap_Close_once_witness :
  wraps (Open journal1 (storageRW journalDir)).2 !! 0%nat
    = Some (mkWrap journal1 false)
  /\ (fileWrap_Close 0 (Open journal1 (storageRW journalDir)).2).1 = None
  /\ fileWrap_Close 0
       (fileWrap_Close 0 (Open journal1 (storageRW journalDir)).2).2
     = (Some ErrClosed,
        (fileWrap_Close 0 (Open journal1 (storageRW journalDir)).2).2).
Proof.
  assert (wraps (Open journal1 (storageRW journalDir)).2 !! 0%nat
          = Some (mkWrap journal1 false)) as Hw by (vm_compute; reflexivity).
  split; [exact Hw|].
  destruct (fileWrap_Close_once 0 (mkWrap journal1 false)
              (Open journal1 (storageRW journalDir)).2 Hw eq_refl)
    as (H1 & _ & _ & H2).
  split; [exact H1 | exact H2].
Defined.

Lemma Open_Close_balance_witness :
  Open journal1 (storageRW journalDir)
    = (inr 0%nat, (Open journal1 (storageRW journalDir)).2)
  /\ open (fs (fileWrap_Close 0 (Open journal1 (storageRW journalDir)).2).2)
     = open (fs (storageRW journalDir)).
Proof.
  assert (Open journal1 (storageRW journalDir)
          = (inr 0%nat, (Open journal1 (storageRW journalDir)).2)) as Ho
    by (vm_compute; reflexivity).
  split; [exact Ho|].
  destruct (Open_Close_balance journal1 0 (storageRW journalDir)
              (Open journal1 (storageRW journalDir)).2 Ho) as (_ & H & _).
  - change (0 < 2 ^ 63 - 1). lia.
  - exact H.
Defined.

(** X7: [Create] of a valid identifier on a read-write, open storage
    fails only when the canonical name is a directory, and then changes
    nothing; otherwise it leaves the file empty, whatever it held, counts
    one more open file, and a [List] whose filter has the kind returns the
    identifier. *)
Theorem Create_then_List (fd : FileDesc) (name : string) (ft : Z) (st : State) :
  FileDescOk fd = true -> int64 (Num fd) -> fsGenName fd = Some name ->
  readOnly (fs st) = false -> 0 <= open (fs st) < 2 ^ 63 - 1 ->
  ((exists e, files (world st) !! name = Some (Dir e)) ->
   Create fd st = (inl (PathError name EISDIR), st))
  /\ ((forall e, files (world st) !! name <> Some (Dir e)) ->
      (Create fd st).1 = inr (length (wraps st))
      /\ files (world (Create fd st).2) = <[name := File ""]> (files (world st))
      /\ open (fs (Create fd st).2) = open (fs st) + 1
      /\ (Z.land (Type_ fd) ft <> 0 ->
          exists fds, List ft (Create fd st).2 = inr fds /\ fd ∈ fds)).
Proof.
  intros Hok H64 Hname Hro Hopen. unfold Create.
  rewrite Hok, Hro, Hname. cbn [negb].
  destruct (Z.ltb_spec (open (fs st)) 0); [lia|].
  unfold osCreateTrunc. split.
  - intros [e ->]. by destruct st.
  - intros Hnd.
    assert (match files (world st) !! name with
            | Some (Dir _) => (Some (PathError name EISDIR), world st)
            | _ => (None,
                    emit (SysCreate name)
                      (setFiles (<[name := File ""]> (files (world st)))
                         (world st)))
            end
            = (None,
               emit (SysCreate name)
                 (setFiles (<[name := File ""]> (files (world st))) (world st))))
      as ->.
    { destruct (files (world st) !! name) as [[c|e]|] eqn:Hn; try done.
      by destruct (Hnd e). }
    cbn [fst snd]. split; [done|]. split; [done|].
    split.
    { cbn [open fs setWraps incOpen setFS setOpen setWorld].
      apply wrap64_id. lia. }
    intros Hft.
    set (st1 := setWraps _ _).
    assert (0 <= open (fs st1)) as Hopen1.
    { subst st1. cbn [open fs setWraps incOpen setFS setOpen setWorld].
      rewrite wrap64_id by lia. lia. }
    destruct (List_spec_aux ft st1 Hopen1) as (fds & Heq & Hiff).
    exists fds. split; [done|]. apply Hiff. exists name.
    split; [|split; [by apply fsParseName_fsGenName | done]].
    subst st1. cbn [world files setWraps incOpen setFS setWorld emit setFiles].
    rewrite lookup_insert_eq. by eexists.
Qed.

Lemma Create_then_List_witness :
  FileDescOk (mkFileDesc TypeTable 9) = true
  /\ (Create (mkFileDesc TypeTable 9) (storageRW journalDir)).1 = inr 0%nat
  /\ exists fds,
       List TypeTable (Create (mkFileDesc TypeTable 9) (storageRW journalDir)).2
         = inr fds
       /\ mkFileDesc TypeTable 9 ∈ fds.
Proof.
  split; [reflexivity|].
  destruct (Create_then_List (mkFileDesc TypeTable 9) "000009.ldb" TypeTable
              (storageRW journalDir)) as (_ & Hok).
  - reflexivity.
  - unfold int64. change (- 2 ^ 63 <= 9 < 2 ^ 63). lia.
  - reflexivity.
  - reflexivity.
  - change (0 <= 0 < 2 ^ 63 - 1). lia.
  - destruct Hok as (Hr & _ & _ & HList).
    + intros e. vm_compute. discriminate.
    + split; [exact Hr|]. apply HList. vm_compute. discriminate.
Defined.

(** ** The instance lock *)

(** X8: On a read-write, open storage that is not locked, [Lock] gives a
    lock; while it is held [Lock] returns the locked error; [Unlock] of
    any other lock changes nothing; after [Unlock] of the lock held,
    [Lock] gives a new lock, and the old one no longer unlocks anything.
    None of this touches the world. *)
Theorem Lock_protocol (st : State) :
  readOnly (fs st) = false -> 0 <= open (fs st) -> slock (fs st) = None ->
  exists id st1,
    Lock st = (inr (Some id), st1)
    /\ world st1 = world st
    /\ Lock st1 = (inl ErrLocked, st1)
    /\ (forall other, other <> Some id -> Unlock other st1 = st1)
    /\ exists id2 st2,
         Lock (Unlock (Some id) st1) = (inr (Some id2), st2)
         /\ id2 <> id
         /\ world st2 = world st
         /\ Unlock (Some id) st2 = st2
         /\ Lock st2 = (inl ErrLocked, st2).
Proof.
  intros Hro Hopen Hs.
  assert ((open (fs st) <? 0) = false) as Hlt by lia.
  eexists (nlock (fs st)), _. split.
  { unfold Lock. rewrite Hlt, Hro, Hs. reflexivity. }
  split; [done|]. split.
  { unfold Lock. cbn [fs setFS open readOnly slock]. by rewrite Hlt, ?Hro. }
  split.
  { intros [other|] Hne; [|done]. unfold Unlock. cbn [fs setFS slock].
    rewrite bool_decide_eq_false_2; [done | congruence]. }
  eexists (S (nlock (fs st))), _. split.
  { unfold Unlock, Lock. cbn [fs setFS slock setSlock open readOnly nlock].
    rewrite bool_decide_eq_true_2 by done.
    cbn [fs setFS slock setSlock open readOnly nlock].
    rewrite Hlt, ?Hro. reflexivity. }
  split; [lia|]. split; [done|]. split.
  { unfold Unlock. cbn [fs setFS slock].
    rewrite bool_decide_eq_false_2; [done|]. intros [= H]. lia. }
  unfold Lock. cbn [fs setFS open readOnly slock]. by rewrite Hlt, ?Hro.
Qed.

Lemma Lock_protocol_witness :
  slock (fs (storageRW journalDir)) = None
  /\ exists id st1,
       Lock (storageRW journalDir) = (inr (Some id), st1)
       /\ Lock st1 = (inl ErrLocked, st1).
Proof.
  split; [reflexivity|].
  destruct (Lock_protocol (storageRW journalDir)) as (id & st1 & H1 & _ & H2 & _).
  - reflexivity.
  - change (0 <= 0). lia.
  - reflexivity.
  - exists id, st1. split; [exact H1 | exact H2].
Defined.

(** ** Publication and resolution *)





Lemma insertDesc_not_nil x l : insertDesc x l <> [].
Proof. destruct l as [|y l]; simpl; [done|]. by destruct (y <=? x). Qed.

Lemma sortDesc_nil l : sortDesc l = [] -> l = [].
Proof.
  destruct l as [|x l]; [done|]. unfold sortDesc. simpl.
  intros H. by apply insertDesc_not_nil in H.
Qed.

Lemma pendingNums_pendingNum names : pendingNums names = omap pendingNum names.
Proof. reflexivity. Qed.

(** No pending pointer: no entry of the directory passes the test of
    [GetMeta]. *)
Lemma pendingNames_nil w :
  pendingNames (Readdirnames w) = [] <->
  forall name, is_Some (files w !! name) -> pendingNum name = None.
Proof.
  unfold pendingNames. split.
  - intros H%fmap_nil_inv%sortDesc_nil name Hin%elem_of_Readdirnames.
    rewrite pendingNums_pendingNum in H.
    destruct (pendingNum name) as [n|] eqn:Hn; [|done].
    assert (n ∈ omap pendingNum (Readdirnames w)) as Hel
      by (apply list_elem_of_omap; eauto).
    rewrite H in Hel. by apply elem_of_nil in Hel.
  - intros H. rewrite pendingNums_pendingNum.
    destruct (omap pendingNum (Readdirnames w)) as [|n l] eqn:Ho; [done|].
    exfalso.
    assert (n ∈ omap pendingNum (Readdirnames w)) as Hel
      by (rewrite Ho; apply list_elem_of_here).
    apply list_elem_of_omap in Hel as (name & Hin%elem_of_Readdirnames & Hn).
    rewrite (H name Hin) in Hn. done.
Qed.

Lemma splitLast_snoc s c : splitLast (s +:+ String c "") = Some (s, c).
Proof.
  induction s as [|a s IH]; [done|].
  change (String a s +:+ String c "") with (String a (s +:+ String c "")).
  cbn [splitLast]. by rewrite IH.
Qed.

Lemma fsGenName_not_control fd name :
  FileDescOk fd = true -> int64 (Num fd) -> fsGenName fd = Some name ->
  ~ controlName name.
Proof.
  intros Hok H64 Hname Hc.
  apply control_files_not_identifiers_aux in Hc.
  rewrite (fsParseName_fsGenName _ _ Hok H64 Hname) in Hc. done.
Qed.

Lemma pendingPath_control fd : controlName (pendingPath fd).
Proof. do 3 right. reflexivity. Qed.

Lemma CURRENT_control : controlName CURRENT.
Proof. do 3 right. reflexivity. Qed.

(** [CURRENT] holds the name of [fd], the file of [fd] is there and nothing
    is pending: [GetMeta] returns [fd] and changes nothing, in either
    mode. *)
Lemma GetMeta_settled_aux quote errText fd name st :
  FileDescOk fd = true -> int64 (Num fd) -> fsGenName fd = Some name ->
  0 <= open (fs st) ->
  pendingNames (Readdirnames (world st)) = [] ->
  files (world st) !! CURRENT = Some (File (name +:+ nl)) ->
  is_Some (files (world st) !! name) ->
  GetMeta quote errText st = (inr fd, st).
Proof.
  intros Hok H64 Hname Hopen Hpend Hcur [n Hn].
  assert (tryCurrent quote CURRENT st = (inr (mkCur CURRENT fd), st)) as Htry.
  { unfold tryCurrent, osReadFile. rewrite Hcur.
    unfold currentContent, nl. rewrite splitLast_snoc.
    change (byteZ (ascii_of_nat 10) =? 10) with true. cbn iota.
    unfold fsParseNamePtr.
    rewrite (fsParseName_fsGenName _ _ Hok H64 Hname), Hname.
    unfold osStat. by rewrite Hn. }
  unfold GetMeta.
  destruct (Z.ltb_spec (open (fs st)) 0) as [?|_]; [lia|].
  rewrite Hpend. cbn [abortErr errOf].
  change (negb (bool_decide (ErrNotExist = ErrNotExist))
          && negb (isCorrupted ErrNotExist)) with false. cbn iota.
  unfold tryCurrents. cbn [tryCurrentsLoop]. rewrite Htry.
  cbn [abortErr errOf curOf pickCurrent cf_name cf_fd].
  rewrite (bool_decide_eq_true_2 (CURRENT = CURRENT)) by done.
  rewrite (bool_decide_eq_true_2 (@nil string = [])) by done.
  by rewrite andb_false_r.
Qed.

(** X10: on a settled directory ([CURRENT] names a valid identifier whose
    file exists, and no pending pointer file is left) [GetMeta] returns
    that identifier and leaves the directory, the log and the storage as
    they are, also on a read-write storage. *)
Theorem GetMeta_settled quote errText fd name st :
  FileDescOk fd = true -> int64 (Num fd) -> fsGenName fd = Some name ->
  0 <= open (fs st) ->
  (forall entry, is_Some (files (world st) !! entry) ->
                 pendingNum entry = None) ->
  files (world st) !! CURRENT = Some (File (name +:+ nl)) ->
  is_Some (files (world st) !! name) ->
  GetMeta quote errText st = (inr fd, st).
Proof.
  intros Hok H64 Hname Hopen Hpend Hcur Hfile.
  apply (GetMeta_settled_aux quote errText fd name); auto.
  by apply pendingNames_nil.
Qed.

Lemma settledDir_no_pending entry :
  is_Some (files (world (storageRW settledDir)) !! entry) ->
  pendingNum entry = None.
Proof.
  intros [n Hin]. cbn [storageRW world files] in Hin. unfold settledDir in Hin.
  apply elem_of_list_to_map_2 in Hin.
  repeat (apply elem_of_cons in Hin as [[= -> _] | Hin];
          [vm_compute; reflexivity|]).
  by apply elem_of_nil in Hin.
Qed.

Lemma GetMeta_settled_witness :
  GetMeta plainQuote plainErrText (storageRW settledDir)
  = (inr (mkFileDesc TypeManifest 5), storageRW settledDir).
Proof.
  apply (GetMeta_settled plainQuote plainErrText
           (mkFileDesc TypeManifest 5) (manifestName 5)).
  - reflexivity.
  - unfold int64. change (- 2 ^ 63 <= 5 < 2 ^ 63). lia.
  - vm_compute. reflexivity.
  - change (0 <= 0). lia.
  - apply settledDir_no_pending.
  - vm_compute. reflexivity.
  - exists (File ""). vm_compute. reflexivity.
Defined.

(** X11: publication then resolution. After a successful [SetMeta fd] on
    a directory that holds the file of [fd] and no pending pointer file,
    [GetMeta] returns [fd] and changes nothing. *)
Theorem SetMeta_then_GetMeta quote errText fd name st st1 :
  int64 (Num fd) -> fsGenName fd = Some name ->
  is_Some (files (world st) !! name) ->
  (forall entry, is_Some (files (world st) !! entry) ->
                 pendingNum entry = None) ->
  SetMeta errText fd st = (None, st1) ->
  GetMeta quote errText st1 = (inr fd, st1).
Proof.
  intros H64 Hname Hfile Hpend Hset.
  unfold SetMeta in Hset.
  destruct (FileDescOk fd) eqn:Hok; [|done]. cbn [negb] in Hset.
  destruct (readOnly (fs st)) eqn:Hro; [done|].
  destruct (Z.ltb_spec (open (fs st)) 0) as [?|Hopen]; [done|].
  pose proof (fsGenName_not_control _ _ Hok H64 Hname) as Hnc.
  assert (name <> CURRENT) as HnC
    by (intros ->; apply Hnc, CURRENT_control).
  assert (name <> pendingPath fd) as HnP
    by (intros Heq; apply Hnc; rewrite Heq; apply pendingPath_control).
  destruct (setMeta_ok _ _ _ _ _ Hname Hset) as [[Hcur ->] | [_ ->]].
  - apply (GetMeta_settled_aux quote errText fd name); auto.
    by apply pendingNames_nil.
  - apply (GetMeta_settled_aux quote errText fd name); auto.
    + apply pendingNames_nil. cbn [world setWorld files]. intros entry.
      destruct (decide (entry = CURRENT)) as [->|Hne]; [done|].
      rewrite lookup_insert_ne by done.
      destruct (decide (entry = pendingPath fd)) as [->|Hne'].
      * rewrite lookup_delete_eq. by intros [? ?].
      * rewrite lookup_delete_ne, lookup_insert_ne by done. apply Hpend.
    + cbn [world setWorld files]. by rewrite lookup_insert_eq.
    + cbn [world setWorld files].
      rewrite lookup_insert_ne, lookup_delete_ne, lookup_insert_ne by done.
      done.
Qed.

Lemma SetMeta_then_GetMeta_witness :
  (int64 7 /\ fsGenName (mkFileDesc TypeManifest 7) = Some (manifestName 7))
  /\ GetMeta plainQuote plainErrText
       (SetMeta plainErrText (mkFileDesc TypeManifest 7)
                (storageRW settledDir)).2
     = (inr (mkFileDesc TypeManifest 7),
        (SetMeta plainErrText (mkFileDesc TypeManifest 7)
                 (storageRW settledDir)).2).
Proof.
  assert (int64 7) as H7
    by (unfold int64; change (- 2 ^ 63 <= 7 < 2 ^ 63); lia).
  split; [split; [exact H7 | vm_compute; reflexivity]|].
  apply (SetMeta_then_GetMeta plainQuote plainErrText
           (mkFileDesc TypeManifest 7) (manifestName 7)
           (storageRW settledDir)).
  - exact H7.
  - vm_compute. reflexivity.
  - exists (File ""). vm_compute. reflexivity.
  - apply settledDir_no_pending.
  - vm_compute. reflexivity.
Defined.

(* ===================================================================== *)
(** ** The lock of the directory                                          *)
(* ===================================================================== *)

(** What a successful [OpenFile] leaves: the world of the storage is the
    world left, the lock file is there and the lock is held in the mode of
    the open. *)
Lemma OpenFile_ok_inv p l clk ro st w :
  OpenFile p l clk ro = (inr st, Some w) ->
  world st = w
  /\ is_Some (files w !! LOCK)
  /\ (ro = false ->
      flock w = LockedExclusive
      /\ (exists c, files w !! LOCK = Some (File c))
      /\ (exists c, files w !! LOG = Some (File c)))
  /\ (ro = true -> exists n, flock w = LockedShared n).
Proof.
  unfold OpenFile.
  set (dir := match p with
              | PathAbsent => _ | PathFile => _ | PathDir entries => _ end).
  destruct dir as [e|w0]; [done|].
  unfold newFileLock, osOpenLock.
  assert (LOG <> LOCK) as Hne by done.
  destruct (files w0 !! LOCK) as [[c|em]|] eqn:HL; destruct ro;
    cbn [negb acquire]; try done;
    try (destruct (flock w0) eqn:Hl; try done);
    unfold osOpenWrite; cbn [setFlock files emit setFiles];
    rewrite ?lookup_insert_ne by done;
    try (destruct (files w0 !! LOG) as [[c'|em']|] eqn:HG);
    intros H; simplify_eq;
    cbn [world files flock setFlock emit setFiles];
    rewrite ?lookup_insert_eq, ?lookup_insert_ne by done;
    rewrite ?lookup_insert_eq, ?HL, ?HG;
    (split; [done|]); (split; [by eexists|]);
    (split; intros ?; try done; repeat split; eauto).
Qed.

(** X12: a read-write storage excludes every other. While the storage
    that a read-write [OpenFile] returned holds the directory, another
    [OpenFile] on it, read-write or read-only, fails with [EAGAIN]. *)
Theorem OpenFile_exclusive p l clk st w clk' ro' :
  OpenFile p l clk false = (inr st, Some w) ->
  (OpenFile (PathDir (files w)) (flock w) clk' ro').1 = inl (Errno EAGAIN).
Proof.
  intros H. apply OpenFile_ok_inv in H as (_ & _ & Hrw & _).
  destruct (Hrw eq_refl) as (Hl & [c Hc] & _).
  unfold OpenFile, newFileLock, osOpenLock. cbn [files flock].
  rewrite Hc, Hl. by destruct ro'.
Qed.

Lemma OpenFile_exclusive_witness :
  OpenFile (PathDir journalDir) Unlocked [] false
  = (inr (storageRW journalDir), Some (world (storageRW journalDir)))
  /\ (OpenFile (PathDir (files (world (storageRW journalDir))))
               (flock (world (storageRW journalDir))) [] true).1
     = inl (Errno EAGAIN).
Proof.
  assert (OpenFile (PathDir journalDir) Unlocked [] false
          = (inr (storageRW journalDir), Some (world (storageRW journalDir))))
    as H by (vm_compute; reflexivity).
  split; [exact H|].
  exact (OpenFile_exclusive _ _ _ _ _ [] true H).
Defined.

(** X13: read-only storages share the directory and keep writers out.
    While the storage that a read-only [OpenFile] returned holds the
    directory, another read-only [OpenFile] succeeds, read-only in turn,
    and a read-write one fails. *)
Theorem OpenFile_shared p l clk st w clk' :
  OpenFile p l clk true = (inr st, Some w) ->
  (exists st', (OpenFile (PathDir (files w)) (flock w) clk' true).1 = inr st'
               /\ readOnly (fs st') = true
               /\ files (world st') = files w)
  /\ (exists e, (OpenFile (PathDir (files w)) (flock w) clk' false).1 = inl e).
Proof.
  intros H. apply OpenFile_ok_inv in H as (_ & [n Hn] & _ & Hro).
  destruct (Hro eq_refl) as [k Hk].
  unfold OpenFile, newFileLock, osOpenLock. cbn [files flock negb].
  rewrite Hn, Hk. split.
  - destruct n as [c|em]; cbn; eauto.
  - destruct n as [c|em]; cbn; eauto.
Qed.

Lemma OpenFile_shared_witness :
  OpenFile (PathDir journalDir) Unlocked [] true
  = (inr (storageRO journalDir), Some (world (storageRO journalDir)))
  /\ (exists st',
        (OpenFile (PathDir (files (world (storageRO journalDir))))
                  (flock (world (storageRO journalDir))) [] true).1 = inr st'
        /\ readOnly (fs st') = true
        /\ files (world st') = files (world (storageRO journalDir)))
  /\ (exists e,
        (OpenFile (PathDir (files (world (storageRO journalDir))))
                  (flock (world (storageRO journalDir))) [] false).1 = inl e).
Proof.
  assert (OpenFile (PathDir journalDir) Unlocked [] true
          = (inr (storageRO journalDir), Some (world (storageRO journalDir))))
    as H by (vm_compute; reflexivity).
  split; [exact H|].
  exact (OpenFile_shared _ _ _ _ _ [] H).
Defined.

(** X14: [Close] gives the directory back. After a read-write [OpenFile]
    and the [Close] of the storage it returned, the directory opens again
    in either mode, with the files that were left. *)
Theorem Close_then_reopen p l clk st w clk' ro' :
  OpenFile p l clk false = (inr st, Some w) ->
  (Close st).1 = None
  /\ exists st',
       (OpenFile (PathDir (files (world (Close st).2)))
                 (flock (world (Close st).2)) clk' ro').1 = inr st'
       /\ files (world st') = files w.
Proof.
  intros H.
  assert (open (fs st) = 0 /\ readOnly (fs st) = false) as [Hopen Hmode].
  { revert H. unfold OpenFile.
    destruct (match p with
              | PathAbsent => _ | PathFile => _ | PathDir entries => _ end)
      as [e|w0]; [done|].
    destruct (newFileLock false w0) as [[e|] w1]; [done|]. cbn [negb].
    destruct (osOpenWrite LOG w1) as [[e|size] w2]; [done|].
    intros H. by simplify_eq. }
  apply OpenFile_ok_inv in H as (Hw & _ & Hrw & _).
  destruct (Hrw eq_refl) as (Hl & [c Hc] & [g Hg]).
  unfold Close. rewrite Hopen. cbn [Z.ltb Z.compare fst snd].
  cbn [world setWorld setFS files flock setFlock]. rewrite Hw, Hl.
  split; [done|].
  unfold OpenFile, newFileLock, osOpenLock. cbn [files flock release].
  rewrite Hc. destruct ro'; cbn [acquire flock setFlock files negb fst].
  - eexists. split; [reflexivity|]. done.
  - unfold osOpenWrite. cbn [setFlock files]. rewrite Hg. cbn [fst].
    eexists. split; [reflexivity|]. done.
Qed.

Lemma Close_then_reopen_witness :
  OpenFile (PathDir journalDir) Unlocked [] false
  = (inr (storageRW journalDir), Some (world (storageRW journalDir)))
  /\ (Close (storageRW journalDir)).1 = None
  /\ exists st',
       (OpenFile (PathDir (files (world (Close (storageRW journalDir)).2)))
                 (flock (world (Close (storageRW journalDir)).2)) [] false).1
       = inr st'
       /\ files (world st') = files (world (storageRW journalDir)).
Proof.
  assert (OpenFile (PathDir journalDir) Unlocked [] false
          = (inr (storageRW journalDir), Some (world (storageRW journalDir))))
    as H by (vm_compute; reflexivity).
  split; [exact H|].
  exact (Close_then_reopen _ _ _ _ _ [] false H).
Defined.

(* ===================================================================== *)
(** ** The log                                                            *)
(* ===================================================================== *)

Lemma length_append s t :
  String.length (s +:+ t) = (String.length s + String.length t)%nat.
Proof.
  induction s as [|c s IH]; [done|].
  change (String c s +:+ t) with (String c (s +:+ t)). cbn. by rewrite IH.
Qed.

Lemma append_assoc_str (a b c : string) : (a +:+ b) +:+ c = a +:+ (b +:+ c).
Proof.
  induction a as [|x a IH]; [done|].
  change ((String x a +:+ b) +:+ c) with (String x ((a +:+ b) +:+ c)).
  by rewrite IH.
Qed.

Lemma substring_app_l a b : substring 0 (String.length a) (a +:+ b) = a.
Proof.
  induction a as [|x a IH]; [by destruct b|].
  change (String x a +:+ b) with (String x (a +:+ b)). cbn. by rewrite IH.
Qed.

Lemma substring_app_r a b k m :
  substring (String.length a + k) m (a +:+ b) = substring k m b.
Proof.
  induction a as [|x a IH]; [done|].
  change (String x a +:+ b) with (String x (a +:+ b)). cbn. apply IH.
Qed.

(** A write inside the file replaces what was there. *)
Lemma osWriteAt_inside name pre old data w :
  files w !! name = Some (File (pre +:+ old)) ->
  osWriteAt name (String.length pre) data w =
    emit (SysWrite name data)
         (setFiles (<[name := File (pre +:+ data
                                    +:+ dropStr (String.length data) old)]>
                      (files w)) w).
Proof.
  intros H. unfold osWriteAt. rewrite H. unfold takeStr, dropStr.
  rewrite substring_app_l, substring_app_r, length_append.
  replace (String.length pre - (String.length pre + String.length old))%nat
    with 0%nat by lia.
  replace (String.length pre + String.length old
           - (String.length pre + String.length data))%nat
    with (String.length old - String.length data)%nat by lia.
  cbn [replicate string_of_list_ascii].
  change ("" +:+ data +:+ substring (String.length data)
                   (String.length old - String.length data) old)
    with (data +:+ substring (String.length data)
                   (String.length old - String.length data) old).
  done.
Qed.

(** [logWrite] with the handle inside the file. *)
Lemma logWrite_inside data st pre old :
  logw (fs st) = Some (String.length pre) ->
  files (world st) !! LOG = Some (File (pre +:+ old)) ->
  files (world (logWrite data st)) !! LOG
    = Some (File ((pre +:+ data) +:+ dropStr (String.length data) old))
  /\ fs (logWrite data st)
     = setLog (Some (String.length (pre +:+ data))) (logSize (fs st)) (fs st).
Proof.
  intros Hw Hf. unfold logWrite.
  rewrite Hw, (osWriteAt_inside _ _ _ _ _ Hf).
  cbn [world fs files emit setFiles].
  by rewrite lookup_insert_eq, length_append, append_assoc_str.
Qed.

(** [printDay] with the handle inside the file. *)
Lemma printDay_inside t st pre old :
  logw (fs st) = Some (String.length pre) ->
  files (world st) !! LOG = Some (File (pre +:+ old)) ->
  let banner := if day (fs st) =? tDay t then "" else dayBanner t in
  exists old1,
    (old = "" -> old1 = "")
    /\ files (world (printDay t st)) !! LOG
       = Some (File ((pre +:+ banner) +:+ old1))
    /\ logw (fs (printDay t st)) = Some (String.length (pre +:+ banner))
    /\ logSize (fs (printDay t st)) = logSize (fs st)
    /\ day (fs (printDay t st)) = tDay t.
Proof.
  intros Hw Hf banner. unfold printDay. subst banner.
  destruct (Z.eqb_spec (day (fs st)) (tDay t)) as [Hd|Hd].
  - exists old. rewrite append_empty_r. by repeat split.
  - destruct (logWrite_inside (dayBanner t) (setFS (setDay (tDay t) (fs st)) st)
                pre old Hw Hf) as [H1 H2].
    exists (dropStr (String.length (dayBanner t)) old).
    split; [intros ->; apply dropStr_empty|].
    split; [exact H1|]. unfold dayBanner in H2 |- *. rewrite H2. by repeat split.
Qed.

(** The body of [doLog] once the log file is open, the handle inside the
    file: the banner if the day changed, then the line, over what was
    there. *)
Lemma doLog_open_writes t s st pre old :
  logSize (fs st) <= logSizeThreshold ->
  logw (fs st) = Some (String.length pre) ->
  files (world st) !! LOG = Some (File (pre +:+ old)) ->
  exists rest,
    (old = "" -> rest = "")
    /\ files (world (doLog t s st)) !! LOG
       = Some (File ((pre +:+ logEntry (day (fs st)) t s) +:+ rest))
    /\ logw (fs (doLog t s st))
       = Some (String.length (pre +:+ logEntry (day (fs st)) t s))
    /\ day (fs (doLog t s st)) = tDay t
    /\ logSize (fs (doLog t s st))
       = wrap64 (logSize (fs st) + Z.of_nat (String.length (logLine t s))).
Proof.
  intros Hsz Hw Hf. unfold doLog.
  destruct (Z.ltb_spec logSizeThreshold (logSize (fs st))) as [?|_]; [lia|].
  rewrite Hw.
  destruct (printDay_inside t st pre old Hw Hf)
    as (old1 & Hold1 & Hf1 & Hw1 & Hs1 & Hd1).
  destruct (logWrite_inside (logLine t s) (printDay t st) _ old1 Hw1 Hf1)
    as [Hf2 Hfs2].
  exists (dropStr (String.length (logLine t s)) old1).
  split; [intros Ho; rewrite (Hold1 Ho); apply dropStr_empty|].
  cbn [world fs setFS]. rewrite Hfs2.
  cbn [setLog logw logSize day readOnly slock nlock open].
  unfold logEntry. rewrite <- append_assoc_str, Hs1, Hd1.
  by repeat split.
Qed.

(** X15: the log only ever touches its own two files. Whatever the state,
    [Log] leaves every entry of the directory but [LOG] and [LOG.old], the
    mode, the count of open files, the instance lock, the handles and the
    lock on the directory as they were. *)
Theorem Log_touches_only_the_log s st : logFrame st (Log s st).
Proof. apply Log_frame. Qed.

(** X16: a log call appends. On a read-write open storage whose log file
    is below the rotation size and whose handle stands at its end, [Log]
    adds to [LOG] the day banner, if the day changed since the last line,
    and the line; the handle stands at the new end, and the size counted
    grows by the line alone. *)
Theorem Log_appends s st content :
  readOnly (fs st) = false -> 0 <= open (fs st) ->
  logSize (fs st) <= logSizeThreshold ->
  logw (fs st) = Some (String.length content) ->
  files (world st) !! LOG = Some (File content) ->
  let t := hd time0 (clock (world st)) in
  let entry := logEntry (day (fs st)) t s in
  files (world (Log s st)) !! LOG = Some (File (content +:+ entry))
  /\ logw (fs (Log s st)) = Some (String.length (content +:+ entry))
  /\ day (fs (Log s st)) = tDay t
  /\ logSize (fs (Log s st))
     = wrap64 (logSize (fs st) + Z.of_nat (String.length (logLine t s))).
Proof.
  intros Hro Hopen Hsz Hw Hf t entry. unfold Log. rewrite Hro.
  cbn [negb now]. cbn [fs setWorld].
  destruct (Z.ltb_spec (open (fs st)) 0) as [?|_]; [lia|].
  destruct (doLog_open_writes t s (setWorld (now (world st)).2 st) content "")
    as (rest & Hrest & H1 & H2 & H3 & H4); [done|done|..].
  { cbn. by rewrite append_empty_r. }
  rewrite (Hrest eq_refl), append_empty_r in H1. done.
Qed.

Lemma Log_appends_witness :
  files (world (Log "x" storageLogged)) !! LOG
  = Some (File ("abc" +:+ logEntry 0 time0 "x")).
Proof.
  apply (Log_appends "x" storageLogged "abc").
  - reflexivity.
  - change (0 <= 0). lia.
  - vm_compute. discriminate.
  - reflexivity.
  - vm_compute. reflexivity.
Defined.

(** A write to the log changes no other entry. *)
Lemma logWrite_other data st name :
  name <> LOG ->
  files (world (logWrite data st)) !! name = files (world st) !! name.
Proof.
  intros Hne. unfold logWrite. destruct (logw (fs st)) as [off|]; [|done].
  cbn [world]. unfold osWriteAt.
  destruct (files (world st) !! LOG) as [[c|em]|]; try done.
  cbn. by rewrite lookup_insert_ne.
Qed.

Lemma doLog_open_other t s st off name :
  logSize (fs st) <= logSizeThreshold -> logw (fs st) = Some off ->
  name <> LOG ->
  files (world (doLog t s st)) !! name = files (world st) !! name.
Proof.
  intros Hsz Hw Hne. unfold doLog.
  destruct (Z.ltb_spec logSizeThreshold (logSize (fs st))) as [?|_]; [lia|].
  rewrite Hw. cbn [world setFS]. rewrite logWrite_other by done.
  unfold printDay. destruct (day (fs st) =? tDay t); [done|].
  by rewrite logWrite_other.
Qed.


(** X17: rotation. When the size counted is past the threshold and
    [LOG.old] is no directory, [Log] moves the log file to [LOG.old] and
    starts a new [LOG] that holds the banner and the line; the size
    counted restarts from the line. *)
Theorem Log_rotates s st content :
  readOnly (fs st) = false -> 0 <= open (fs st) ->
  logSizeThreshold < logSize (fs st) ->
  files (world st) !! LOG = Some (File content) ->
  (forall em, files (world st) !! LOG_old <> Some (Dir em)) ->
  let t := hd time0 (clock (world st)) in
  files (world (Log s st)) !! LOG_old = Some (File content)
  /\ files (world (Log s st)) !! LOG = Some (File (logEntry 0 t s))
  /\ logw (fs (Log s st)) = Some (String.length (logEntry 0 t s))
  /\ logSize (fs (Log s st))
     = wrap64 (Z.of_nat (String.length (logLine t s))).
Proof.
  intros Hro Hopen Hsz Hf Hold t.
  assert (LOG <> LOG_old) as Hne by done.
  set (w0 := mkWorld (files (world st)) (flock (world st))
                     (tl (clock (world st))) (trace (world st))).
  set (w1 := mkWorld (<[LOG_old := File content]> (delete LOG (files w0)))
                     (flock w0) (clock w0) (SysRename LOG LOG_old :: trace w0)).
  set (w2 := emit (SysCreate LOG) (setFiles (<[LOG := File ""]> (files w1)) w1)).
  set (st2 := mkState w2 (setDay 0 (setLog (Some 0%nat) 0 (fs st))) (wraps st)).
  assert (Log s st = doLog t s st2) as ->.
  { unfold Log. rewrite Hro. cbn [negb now]. cbn [fs setWorld].
    destruct (Z.ltb_spec (open (fs st)) 0) as [?|_]; [lia|].
    unfold doLog at 1. cbn [fs setWorld].
    destruct (Z.ltb_spec logSizeThreshold (logSize (fs st))) as [_|?]; [|lia].
    cbn [world setFS setWorld fs wraps]. fold w0.
    destruct (rename LOG LOG_old w0) as [[e|] w1'] eqn:Hren.
    { exfalso. revert Hren. unfold rename. cbn [files w0]. rewrite Hf.
      destruct (files (world st) !! LOG_old) as [[c|em]|] eqn:Ho;
        [| by destruct (Hold em) |];
        by rewrite bool_decide_eq_false_2 by done. }
    apply (rename_ok_file _ _ content) in Hren; [|done|exact Hf].
    fold w1 in Hren. subst w1'.
    cbn [fs setWorld setFS setLog logw world].
    unfold osOpenWrite.
    assert (files w1 !! LOG = None) as ->.
    { cbn. rewrite lookup_insert_ne by done. apply lookup_delete_eq. }
    fold w2. cbn [setLog logSize readOnly slock nlock open day wraps].
    fold st2. unfold doLog.
    destruct (Z.ltb_spec logSizeThreshold (logSize (fs st2))) as [Hbad|_];
      [cbn in Hbad; unfold logSizeThreshold in Hbad; lia|].
    done. }
  assert (files (world st2) !! LOG = Some (File ("" +:+ ""))) as Hf2
    by (cbn; by rewrite lookup_insert_eq).
  assert (files (world st2) !! LOG_old = Some (File content)) as Ho2.
  { cbn. rewrite lookup_insert_ne by done. by rewrite lookup_insert_eq. }
  destruct (doLog_open_writes t s st2 "" "") as (rest & Hrest & H1 & H2 & _ & H4);
    [cbn; unfold logSizeThreshold; lia | reflexivity | exact Hf2 |].
  rewrite (Hrest eq_refl), append_empty_r in H1.
  split; [|split; [exact H1 | split; [exact H2 | exact H4]]].
  rewrite (doLog_open_other t s st2 0%nat LOG_old); [exact Ho2 | | | ];
    try done.
Qed.

Lemma Log_rotates_witness :
  files (world (Log "x" (storageFullLog loggedDir))) !! LOG_old
    = Some (File "abc")
  /\ files (world (Log "x" (storageFullLog loggedDir))) !! LOG
     = Some (File (logEntry 0 time0 "x"))
  /\ logw (fs (Log "x" (storageFullLog loggedDir)))
     = Some (String.length (logEntry 0 time0 "x"))
  /\ logSize (fs (Log "x" (storageFullLog loggedDir)))
     = wrap64 (Z.of_nat (String.length (logLine time0 "x"))).
Proof.
  apply (Log_rotates "x" (storageFullLog loggedDir) "abc").
  - reflexivity.
  - change (0 <= 0). lia.
  - vm_compute. reflexivity.
  - vm_compute. reflexivity.
  - intros em. vm_compute. discriminate.
Defined.




(* ===================================================================== *)
(** ** The numbers of the log lines                                       *)
(* ===================================================================== *)

(** The loop of [itoa] with room for the digits: it puts before the
    buffer the decimal digits of [u], with zeros in front up to the
    width. *)
Lemma itoaLoop_spec room : forall u wid acc,
  0 <= u < 10 ^ Z.of_nat room -> wid <= Z.of_nat room ->
  exists pre,
    itoaLoop room u wid acc = pre ++ acc
    /\ Forall (fun c => 48 <= c <= 57) pre
    /\ digitsVal pre = u
    /\ wid <= Z.of_nat (length pre)
    /\ forall k, 0 <= k -> wid <= k -> u < 10 ^ k -> Z.of_nat (length pre) <= k.
Proof.
  induction room as [|room IH]; intros u wid acc Hu Hwid.
  - exists []. change (10 ^ Z.of_nat 0) with 1 in Hu.
    repeat split; try done; cbn; lia.
  - cbn [itoaLoop].
    destruct ((0 <? u) || (0 <? wid)) eqn:Hc.
    + rewrite Nat2Z.inj_succ, Z.pow_succ_r in Hu by lia.
      destruct (IH (u / 10) (wid - 1) ((48 + u mod 10) :: acc))
        as (pre & Heq & Hdig & Hval & Hlen & Hmin).
      { split; [apply Z.div_pos; lia|].
        apply Z.div_lt_upper_bound; lia. }
      { lia. }
      exists (pre ++ [48 + u mod 10]).
      rewrite <- app_assoc. split; [exact Heq|].
      split.
      { apply Forall_app. split; [exact Hdig|].
        constructor; [|constructor].
        pose proof (Z.mod_pos_bound u 10). lia. }
      split.
      { rewrite digitsVal_snoc, Hval.
        pose proof (Z.div_mod u 10). lia. }
      rewrite length_app, Nat2Z.inj_add. cbn [length].
      split; [lia|].
      intros k Hk Hwk Huk.
      assert (1 <= k) as Hk1.
      { destruct (Z.eq_dec k 0) as [->|]; [|lia].
        change (10 ^ 0) with 1 in Huk.
        apply orb_true_iff in Hc as [Hc|Hc]; apply Z.ltb_lt in Hc; lia. }
      assert (Z.of_nat (length pre) <= k - 1); [|lia].
      apply Hmin; [lia | lia |].
      apply Z.div_lt_upper_bound; [lia|].
      rewrite <- Z.pow_succ_r by lia.
      replace (Z.succ (k - 1)) with k by lia. exact Huk.
    + apply orb_false_iff in Hc as [Hc1 Hc2].
      apply Z.ltb_ge in Hc1, Hc2.
      exists []. repeat split; try done; cbn; try lia.
Qed.

(** X19: [itoa] writes a number in decimal, with zeros in front up to the
    width. For a width of at most 32 the bytes are decimal digits whose
    value is the number, as an unsigned 64-bit number; there are at least
    as many as the width, at least one, and no more than the number or
    the width needs. *)
Theorem itoa_decimal i wid :
  wid <= 32 ->
  Forall (fun c => 48 <= c <= 57) (itoa i wid)
  /\ digitsVal (itoa i wid) = i mod 2 ^ 64
  /\ wid <= Z.of_nat (length (itoa i wid))
  /\ 1 <= Z.of_nat (length (itoa i wid))
  /\ forall k, 1 <= k -> wid <= k -> i mod 2 ^ 64 < 10 ^ k ->
               Z.of_nat (length (itoa i wid)) <= k.
Proof.
  intros Hwid. unfold itoa.
  pose proof (Z.mod_pos_bound i (2 ^ 64) ltac:(lia)) as Hu.
  set (u := i mod 2 ^ 64) in *.
  destruct ((u =? 0) && (wid <=? 1)) eqn:Hc.
  - apply andb_true_iff in Hc as [Hu0%Z.eqb_eq Hw1%Z.leb_le].
    rewrite Hu0. split; [repeat constructor; lia|].
    repeat split; cbn; try lia.
  - destruct (itoaLoop_spec 32 u wid [])
      as (pre & Heq & Hdig & Hval & Hlen & Hmin).
    { change (Z.of_nat 32) with 32. split; [lia|].
      assert (2 ^ 64 < 10 ^ 32) by (vm_compute; reflexivity). lia. }
    { change (Z.of_nat 32) with 32. lia. }
    rewrite Heq, app_nil_r.
    split; [exact Hdig|]. split; [exact Hval|]. split; [exact Hlen|].
    split.
    + destruct pre as [|c pre]; [|cbn [length]; lia].
      cbn in Hval, Hlen. apply andb_false_iff in Hc as [Hc|Hc].
      * apply Z.eqb_neq in Hc. lia.
      * apply Z.leb_gt in Hc. lia.
    + intros k Hk Hwk Huk. apply Hmin; [lia | lia | exact Huk].
Qed.

Lemma itoa_decimal_witness :
  Forall (fun c => 48 <= c <= 57) (itoa 7 2)
  /\ digitsVal (itoa 7 2) = 7 mod 2 ^ 64
  /\ 2 <= Z.of_nat (length (itoa 7 2)).
Proof.
  destruct (itoa_decimal 7 2) as (H1 & H2 & H3 & _); [lia|].
  split; [exact H1|]. split; [exact H2 | exact H3].
Defined.

(* ===================================================================== *)
(** ** The writing of a pointer file                                      *)
(* ===================================================================== *)

(** X20: [writeFileSynced] replaces. It fails, and changes nothing, when
    the name is a directory; otherwise it succeeds and the file holds the
    data and nothing of what it held, the other entries being as they
    were. *)
Theorem writeFileSynced_replaces name data w :
  match files w !! name with
  | Some (Dir _) =>
      writeFileSynced name data w = (Some (PathError name EISDIR), w)
  | _ =>
      (writeFileSynced name data w).1 = None
      /\ files (writeFileSynced name data w).2 = <[name := File data]> (files w)
  end.
Proof.
  destruct (writeFileSynced name data w) as [[e|] w'] eqn:Hw.
  - pose proof Hw as Hw'. apply writeFileSynced_err in Hw' as [-> _].
    revert Hw. unfold writeFileSynced, osCreateTrunc.
    destruct (files w !! name) as [[c|em]|]; try done.
  - pose proof Hw as Hw'. apply writeFileSynced_ok in Hw' as ->.
    revert Hw. unfold writeFileSynced, osCreateTrunc.
    destruct (files w !! name) as [[c|em]|]; done.
Qed.
